(** * Stereo presentation loop of the Minimal HMD sample: lag, delay and view modes

    A shallow embedding of [src/Minimal/main.cpp]: [RiftApp::setIOD],
    [RiftApp::draw], [Scene::render] (the part that resolves [drawView]) and
    [ExampleApp::renderScene], with the properties of the pose history
    buffers, the trigger counters, the render delay and the frozen view modes.

    Conventions of the embedding.
    - C++ [float] is IEEE binary32, taken from [SpecFloat] at precision 24 and
      exponent bound 128, so comparisons with NaN are false as in the program.
    - C++ [int] members are [Z]; every value a run can reach is far inside the
      32-bit range (see [Inv] and [Reachable_Inv]), so no wrap-around is written.
    - [std::deque] is a list: [pop_front] drops the head, [push_back] appends,
      [operator[]] is [deque.at_]; the three are partial exactly where the C++
      ones are undefined, and a call that would hit such a case is [None].
    - What lives outside the file (glm's matrix inverse, the bit masks of the
      controller buttons) is a field of [Platform], over which every
      definition and statement is parameterised.
    - OpenGL and compositor calls are not modelled; [Scene::render] is
      represented by the view matrix it draws with. *)

From Stdlib Require Import ZArith List Bool Lia.
From Stdlib Require Import Floats.SpecFloat.
Import ListNotations.
Local Open Scope Z_scope.

Set Implicit Arguments.

(** ** binary32 arithmetic *)

Module F32.
Definition prec : Z := 24.
Definition emax : Z := 128.
Definition float := spec_float.

Definition add : float -> float -> float := SFadd prec emax.
Definition div : float -> float -> float := SFdiv prec emax.
Definition opp : float -> float := SFopp.
Definition ltb : float -> float -> bool := SFltb.
Definition leb : float -> float -> bool := SFleb.
Definition eqb : float -> float -> bool := SFeqb.
(** [x > y] *)
Definition gtb (x y : float) : bool := ltb y x.

Definition lit (m : positive) (e : Z) : float := S754_finite false m e.
Definition zero : float := S754_zero false.
(** The literals of the program, as mantissa and exponent. *)
Definition half : float := lit 8388608 (-24).        (* 0.5f *)
Definition one : float := lit 8388608 (-23).         (* 1.0f *)
Definition two : float := lit 8388608 (-22).         (* 2.0f *)
Definition ten : float := lit 10485760 (-20).        (* 10.0f *)
Definition hundred : float := lit 13107200 (-17).    (* 100.0f *)
Definition f0_1 : float := lit 13421773 (-27).       (* 0.1f *)
Definition f0_3 : float := lit 10066330 (-25).       (* 0.3f *)

(** Conversion of a float to [bool] in a condition: [x != 0]. *)
Definition truthy (x : float) : bool := negb (eqb x zero).

Definition is_nan (x : float) : bool :=
  match x with S754_nan => true | _ => false end.
End F32.

Abbreviation float := F32.float.

(** ** The glm types the program stores *)

Module glm.
Record vec3 := mkvec3 { v3x : float; v3y : float; v3z : float }.
Record vec4 := mkvec4 { v4x : float; v4y : float; v4z : float; v4w : float }.
(** Matrices are column-major: [m[k]] is column [k]. *)
Record mat3 := mkmat3 { m3c0 : vec3; m3c1 : vec3; m3c2 : vec3 }.
Record mat4 := mkmat4 { m4c0 : vec4; m4c1 : vec4; m4c2 : vec4; m4c3 : vec4 }.

(** [glm::vec3(1.0f)] *)
Definition vec3_1 : vec3 := mkvec3 F32.one F32.one F32.one.
(** [glm::mat4(1.0f)] *)
Definition mat4_1 : mat4 :=
  mkmat4 (mkvec4 F32.one F32.zero F32.zero F32.zero)
         (mkvec4 F32.zero F32.one F32.zero F32.zero)
         (mkvec4 F32.zero F32.zero F32.one F32.zero)
         (mkvec4 F32.zero F32.zero F32.zero F32.one).

Definition xyz (v : vec4) : vec3 := mkvec3 (v4x v) (v4y v) (v4z v).
Definition xyz0 (v : vec3) : vec4 := mkvec4 (v3x v) (v3y v) (v3z v) F32.zero.

(** [glm::mat3(m)] for a [mat4]: the upper-left 3x3 block. *)
Definition mat3_of_mat4 (m : mat4) : mat3 :=
  mkmat3 (xyz (m4c0 m)) (xyz (m4c1 m)) (xyz (m4c2 m)).
(** [glm::mat4(r)] for a [mat3]: [r] completed with the identity. *)
Definition mat4_of_mat3 (r : mat3) : mat4 :=
  mkmat4 (xyz0 (m3c0 r)) (xyz0 (m3c1 r)) (xyz0 (m3c2 r))
         (mkvec4 F32.zero F32.zero F32.zero F32.one).
(** [m[3] = v] *)
Definition set_col3 (m : mat4) (v : vec4) : mat4 :=
  mkmat4 (m4c0 m) (m4c1 m) (m4c2 m) v.
End glm.

Abbreviation vec3 := glm.vec3.
Abbreviation vec4 := glm.vec4.
Abbreviation mat3 := glm.mat3.
Abbreviation mat4 := glm.mat4.

(** ** std::deque *)

Definition bind {A B : Type} (o : option A) (k : A -> option B) : option B :=
  match o with
  | Some a => k a
  | None => None
  end.

Notation "x <- e ;; k" := (bind e (fun x => k))
  (at level 61, e at next level, right associativity).

Module deque.
Definition pop_front {A : Type} (q : list A) : option (list A) :=
  match q with
  | [] => None
  | _ :: t => Some t
  end.

Definition push_back {A : Type} (q : list A) (x : A) : list A := q ++ [x].

(** [q[i]] *)
Definition at_ {A : Type} (q : list A) (i : Z) : option A :=
  if i <? 0 then None else nth_error q (Z.to_nat i).
End deque.

(** ** The pose history buffer

    The capacity is the literal 60 of the constructor and of the index
    expressions. *)

Definition capacity : Z := 60.

(** [buf.pop_front(); buf.push_back(pose);] *)
Definition recordPose {A : Type} (buf : list A) (pose : A) : option (list A) :=
  q <- deque.pop_front buf ;; Some (deque.push_back q pose).

(** The same two statements on [cringBuffer]. *)
Definition recordCursor (buf : list vec3) (position : vec3) : option (list vec3) :=
  recordPose buf position.

(** [buf[60-lagNum-1]] *)
Definition retrieveLagged {A : Type} (buf : list A) (lagFrames : Z) : option A :=
  deque.at_ buf (capacity - lagFrames - 1).

Fixpoint recordAll {A : Type} (buf : list A) (poses : list A) : option (list A) :=
  match poses with
  | [] => Some buf
  | p :: ps => b <- recordPose buf p ;; recordAll b ps
  end.

(** ** Controller input and platform constants *)

(** [ovrInputState], the members the program reads.  Arrays indexed by hand
    are pairs: [fst] is index 0 ([ovrHand_Left]), [snd] is index 1. *)
Record ovrInputState := mkInput {
  Buttons : Z;
  Thumbstick_x : float * float;
  IndexTrigger : float * float;
  HandTrigger : float * float
}.

(** What the program takes from glm and from the device SDK's header. *)
Record Platform := mkPlatform {
  inverse : mat4 -> mat4;      (* glm::inverse *)
  ovrButton_A : Z;
  ovrButton_B : Z;
  ovrButton_X : Z;
  ovrButton_LThumb : Z;
  ovrButton_RThumb : Z
}.

(** [inputState.Buttons & mask] used as a condition. *)
Definition pressed (i : ovrInputState) (mask : Z) : bool :=
  negb (Z.land (Buttons i) mask =? 0).

(** What one call of [renderScene] reads from the device: the right hand's
    position out of [ovr_GetTrackingState], and the result of
    [ovr_GetInputState] ([None] when it does not succeed). *)
Record CallEnv := mkCallEnv {
  handPosition1 : vec3;
  callInput : option ovrInputState
}.

(** ** Program state: the members of [RiftApp], [ExampleApp] and [Scene] *)

Record ExampleApp := mkApp {
  (* RiftApp *)
  a_pressed : Z;
  a_hasPressed : bool;
  iod : float;
  HmdToEyePose_x : float * float;   (* _viewScaleDesc.HmdToEyePose[k].Position.x *)
  eyeProjections : mat4 * mat4;
  (* ExampleApp *)
  cubeScale : float;
  x_pressed : Z;
  x_hasPressed : bool;
  b_pressed : Z;
  b_hasPressed : bool;
  leftIndexP : bool;
  rightIndexP : bool;
  leftThumbP : bool;
  rightThumbP : bool;
  ldelayRender : Z;
  rdelayRender : Z;
  leftCurFrame : mat4;
  rightCurFrame : mat4;
  renderFrame : mat4;
  iodOffset : float;
  rotation : mat3;
  position : vec4;
  lringBuffer : list mat4;
  rringBuffer : list mat4;
  cringBuffer : list vec3;
  lagNum : Z;
  delayNum : Z;
  (* Scene *)
  drawView : mat4
}.

(** The arguments of one [scene->render(...)] call. *)
Record RenderCall := mkRenderCall {
  rc_projection : mat4;
  rc_view : mat4;
  rc_whichEye : Z;
  rc_x_pressed : Z;
  rc_cubeScale : float;
  rc_b_pressed : Z;
  rc_rot : mat3;
  rc_pos : vec4;
  rc_right : vec3
}.

(** ** RiftApp::setIOD *)

(** The local [newIOD] after the two clamping statements. *)
Definition setIOD_newIOD (iod iodOffset : float) : float :=
  let newIOD := F32.add iod iodOffset in
  let newIOD := if F32.ltb newIOD (F32.opp F32.f0_1) then F32.opp F32.f0_1 else newIOD in
  let newIOD := if F32.gtb newIOD F32.f0_3 then F32.f0_3 else newIOD in
  newIOD.

(** The two positions [setIOD] writes. *)
Definition setIOD (iod iodOffset : float) : float * float :=
  let newIOD := setIOD_newIOD iod iodOffset in
  (F32.div (F32.opp newIOD) F32.two, F32.div newIOD F32.two).

(** ** Scene::render: the view matrix the eye is drawn with *)

Definition Scene_render (drawView view : mat4) (b_pressed : Z)
    (rot : mat3) (pos : vec4) : mat4 :=
  let drawView := if b_pressed =? 0 then view else drawView in
  let drawView := if b_pressed =? 2 then glm.set_col3 view pos else drawView in
  let drawView :=
    if b_pressed =? 1 then glm.set_col3 (glm.mat4_of_mat3 rot) (glm.m4c3 view)
    else drawView in
  let drawView :=
    if b_pressed =? 3 then glm.set_col3 (glm.mat4_of_mat3 rot) pos else drawView in
  drawView.

(** ** ExampleApp::renderScene *)

Section Program.
Variable P : Platform.

(** *** The input block, one definition per group of members it updates,
    in the order of the source. *)

(** Button X: the content mode, on the press edge. *)
Definition input_x_pressed (i : ovrInputState) (x_pressed : Z) (x_hasPressed : bool)
    : Z * bool :=
  let '(x_pressed, x_hasPressed) :=
    if pressed i (ovrButton_X P) then
      if negb x_hasPressed then (Z.rem (x_pressed + 1) 3, true)
      else (x_pressed, x_hasPressed)
    else (x_pressed, x_hasPressed) in
  let x_hasPressed :=
    if negb (pressed i (ovrButton_X P)) && x_hasPressed then false else x_hasPressed in
  (x_pressed, x_hasPressed).

(** Left thumbstick and its button: the cube scale. *)
Definition input_cubeScale (i : ovrInputState) (cubeScale : float) : float :=
  let cubeScale :=
    if F32.truthy (fst (Thumbstick_x i)) then
      let cubeScale := F32.add cubeScale (F32.div (fst (Thumbstick_x i)) F32.ten) in
      let cubeScale := if F32.gtb cubeScale F32.one then F32.one else cubeScale in
      let cubeScale :=
        if F32.ltb cubeScale (F32.opp F32.one) then F32.opp F32.one else cubeScale in
      cubeScale
    else cubeScale in
  let cubeScale := if pressed i (ovrButton_LThumb P) then F32.zero else cubeScale in
  cubeScale.

(** Button B: the view mode, and the capture of the inverse head pose. *)
Definition input_b_pressed (i : ovrInputState) (headPose : mat4)
    (b_pressed : Z) (b_hasPressed : bool) (rotation : mat3) (position : vec4)
    : Z * bool * mat3 * vec4 :=
  let '(b_pressed, b_hasPressed, rotation, position) :=
    if pressed i (ovrButton_B P) then
      if negb b_hasPressed then
        let invHeadPose := inverse P headPose in
        (Z.rem (b_pressed + 1) 4, true, glm.mat3_of_mat4 invHeadPose, glm.m4c3 invHeadPose)
      else (b_pressed, b_hasPressed, rotation, position)
    else (b_pressed, b_hasPressed, rotation, position) in
  let b_hasPressed :=
    if negb (pressed i (ovrButton_B P)) && b_hasPressed then false else b_hasPressed in
  (b_pressed, b_hasPressed, rotation, position).

(** Right thumbstick and its button: the interocular offset. *)
Definition input_iodOffset (i : ovrInputState) (iod : float)
    (iodOffset : float) (HmdToEyePose_x : float * float) : float * (float * float) :=
  let '(iodOffset, HmdToEyePose_x) :=
    if F32.truthy (snd (Thumbstick_x i)) then
      let iodOffset := F32.add iodOffset (F32.div (snd (Thumbstick_x i)) F32.hundred) in
      (iodOffset, setIOD iod iodOffset)
    else (iodOffset, HmdToEyePose_x) in
  let '(iodOffset, HmdToEyePose_x) :=
    if pressed i (ovrButton_RThumb P) then (F32.zero, setIOD iod F32.zero)
    else (iodOffset, HmdToEyePose_x) in
  (iodOffset, HmdToEyePose_x).

(** Index triggers: the tracking lag. *)
Definition input_lagNum (i : ovrInputState) (lagNum : Z) (leftIndexP rightIndexP : bool)
    : Z * bool * bool :=
  let '(lagNum, leftIndexP) :=
    if F32.gtb (fst (IndexTrigger i)) F32.half then
      if negb leftIndexP && (0 <? lagNum) then (Z.rem (lagNum - 1) 60, true)
      else (lagNum, leftIndexP)
    else (lagNum, leftIndexP) in
  let leftIndexP :=
    if F32.leb (fst (IndexTrigger i)) F32.half && leftIndexP then false else leftIndexP in
  let '(lagNum, rightIndexP) :=
    if F32.gtb (snd (IndexTrigger i)) F32.half then
      if negb rightIndexP then (Z.rem (lagNum + 1) 60, true)
      else (lagNum, rightIndexP)
    else (lagNum, rightIndexP) in
  let rightIndexP :=
    if F32.leb (snd (IndexTrigger i)) F32.half && rightIndexP then false else rightIndexP in
  (lagNum, leftIndexP, rightIndexP).

(** Hand triggers: the render delay. *)
Definition input_delayNum (i : ovrInputState) (delayNum : Z) (leftThumbP rightThumbP : bool)
    : Z * bool * bool :=
  let '(delayNum, leftThumbP) :=
    if F32.gtb (fst (HandTrigger i)) F32.half then
      let '(delayNum, leftThumbP) :=
        if negb leftThumbP && (0 <? delayNum) then (delayNum - 1, true)
        else (delayNum, leftThumbP) in
      let delayNum := if delayNum <? 0 then 0 else delayNum in
      (delayNum, leftThumbP)
    else (delayNum, leftThumbP) in
  let leftThumbP :=
    if F32.leb (fst (HandTrigger i)) F32.half && leftThumbP then false else leftThumbP in
  let '(delayNum, rightThumbP) :=
    if F32.gtb (snd (HandTrigger i)) F32.half then
      let '(delayNum, rightThumbP) :=
        if negb rightThumbP then (delayNum + 1, true)
        else (delayNum, rightThumbP) in
      let delayNum := if 10 <=? delayNum then 10 else delayNum in
      (delayNum, rightThumbP)
    else (delayNum, rightThumbP) in
  let rightThumbP :=
    if F32.leb (snd (HandTrigger i)) F32.half && rightThumbP then false else rightThumbP in
  (delayNum, leftThumbP, rightThumbP).

(** The whole [if (OVR_SUCCESS(ovr_GetInputState(...)))] block. *)
Definition processInput (oi : option ovrInputState) (headPose : mat4) (s : ExampleApp)
    : ExampleApp :=
  match oi with
  | None => s
  | Some i =>
    let '(x_pressed', x_hasPressed') := input_x_pressed i (x_pressed s) (x_hasPressed s) in
    let cubeScale' := input_cubeScale i (cubeScale s) in
    let '(b_pressed', b_hasPressed', rotation', position') :=
      input_b_pressed i headPose (b_pressed s) (b_hasPressed s) (rotation s) (position s) in
    let '(iodOffset', HmdToEyePose_x') :=
      input_iodOffset i (iod s) (iodOffset s) (HmdToEyePose_x s) in
    let '(lagNum', leftIndexP', rightIndexP') :=
      input_lagNum i (lagNum s) (leftIndexP s) (rightIndexP s) in
    let '(delayNum', leftThumbP', rightThumbP') :=
      input_delayNum i (delayNum s) (leftThumbP s) (rightThumbP s) in
    {| a_pressed := a_pressed s; a_hasPressed := a_hasPressed s; iod := iod s;
       HmdToEyePose_x := HmdToEyePose_x'; eyeProjections := eyeProjections s;
       cubeScale := cubeScale'; x_pressed := x_pressed'; x_hasPressed := x_hasPressed';
       b_pressed := b_pressed'; b_hasPressed := b_hasPressed';
       leftIndexP := leftIndexP'; rightIndexP := rightIndexP';
       leftThumbP := leftThumbP'; rightThumbP := rightThumbP';
       ldelayRender := ldelayRender s; rdelayRender := rdelayRender s;
       leftCurFrame := leftCurFrame s; rightCurFrame := rightCurFrame s;
       renderFrame := renderFrame s; iodOffset := iodOffset';
       rotation := rotation'; position := position';
       lringBuffer := lringBuffer s; rringBuffer := rringBuffer s;
       cringBuffer := cringBuffer s; lagNum := lagNum'; delayNum := delayNum';
       drawView := drawView s |}
  end.

(** *** The render-delay block: the six [if] statements on [ldelayRender]
    and [rdelayRender], on the five members they touch. *)
Definition delayStep (whichEye delayNum : Z) (headPose : mat4)
    (ldelayRender rdelayRender : Z) (leftCurFrame rightCurFrame renderFrame : mat4)
    : Z * Z * mat4 * mat4 * mat4 :=
  let '(leftCurFrame, renderFrame) :=
    if (ldelayRender =? 0) && (whichEye =? 0) then (headPose, headPose)
    else (leftCurFrame, renderFrame) in
  let '(rightCurFrame, renderFrame) :=
    if (rdelayRender =? 0) && (whichEye =? 1) then (headPose, headPose)
    else (rightCurFrame, renderFrame) in
  let '(renderFrame, ldelayRender) :=
    if (ldelayRender <? delayNum) && (whichEye =? 0) then (leftCurFrame, ldelayRender + 1)
    else (renderFrame, ldelayRender) in
  let '(renderFrame, rdelayRender) :=
    if (rdelayRender <? delayNum) && (whichEye =? 1) then (rightCurFrame, rdelayRender + 1)
    else (renderFrame, rdelayRender) in
  let ldelayRender := if delayNum <=? ldelayRender then 0 else ldelayRender in
  let rdelayRender := if delayNum <=? rdelayRender then 0 else rdelayRender in
  (ldelayRender, rdelayRender, leftCurFrame, rightCurFrame, renderFrame).

(** [outputFrame] after the two last [if] statements. *)
Definition selectOutput (lagNum delayNum : Z) (headPose lagFrame renderFrame : mat4) : mat4 :=
  let outputFrame := headPose in
  let outputFrame := if 0 <? lagNum then lagFrame else outputFrame in
  let outputFrame := if 0 <? delayNum then renderFrame else outputFrame in
  outputFrame.

Definition renderScene (s : ExampleApp) (projection headPose : mat4) (whichEye : Z)
    (env : CallEnv) : option (ExampleApp * RenderCall) :=
  lring <- (if whichEye =? 0 then recordPose (lringBuffer s) headPose
            else Some (lringBuffer s)) ;;
  rring <- (if whichEye =? 1 then recordPose (rringBuffer s) headPose
            else Some (rringBuffer s)) ;;
  cring <- recordCursor (cringBuffer s) (handPosition1 env) ;;
  let s1 := processInput (callInput env) headPose s in
  let lagFrame := headPose in
  lagFrame <- (if whichEye =? 0 then retrieveLagged lring (lagNum s1)
               else Some lagFrame) ;;
  lagFrame <- (if whichEye =? 1 then retrieveLagged rring (lagNum s1)
               else Some lagFrame) ;;
  right <- retrieveLagged cring (lagNum s1) ;;
  let '(ldelayRender', rdelayRender', leftCurFrame', rightCurFrame', renderFrame') :=
    delayStep whichEye (delayNum s1) headPose (ldelayRender s1) (rdelayRender s1)
              (leftCurFrame s1) (rightCurFrame s1) (renderFrame s1) in
  let outputFrame := selectOutput (lagNum s1) (delayNum s1) headPose lagFrame renderFrame' in
  let rc :=
    {| rc_projection := projection; rc_view := inverse P outputFrame;
       rc_whichEye := whichEye; rc_x_pressed := x_pressed s1;
       rc_cubeScale := cubeScale s1; rc_b_pressed := b_pressed s1;
       rc_rot := rotation s1; rc_pos := position s1; rc_right := right |} in
  Some
    ({| a_pressed := a_pressed s1; a_hasPressed := a_hasPressed s1; iod := iod s1;
        HmdToEyePose_x := HmdToEyePose_x s1; eyeProjections := eyeProjections s1;
        cubeScale := cubeScale s1; x_pressed := x_pressed s1;
        x_hasPressed := x_hasPressed s1;
        b_pressed := b_pressed s1; b_hasPressed := b_hasPressed s1;
        leftIndexP := leftIndexP s1; rightIndexP := rightIndexP s1;
        leftThumbP := leftThumbP s1; rightThumbP := rightThumbP s1;
        ldelayRender := ldelayRender'; rdelayRender := rdelayRender';
        leftCurFrame := leftCurFrame'; rightCurFrame := rightCurFrame';
        renderFrame := renderFrame'; iodOffset := iodOffset s1;
        rotation := rotation s1; position := position s1;
        lringBuffer := lring; rringBuffer := rring; cringBuffer := cring;
        lagNum := lagNum s1; delayNum := delayNum s1;
        drawView := Scene_render (drawView s1) (rc_view rc) (rc_b_pressed rc)
                                 (rc_rot rc) (rc_pos rc) |},
     rc).

(** ** RiftApp::draw *)

(** What one frame reads from the device: the two predicted eye poses (as
    matrices), the result of [draw]'s own [ovr_GetInputState], and what the
    first and the second [renderScene] call of the frame read. *)
Record FrameEnv := mkFrameEnv {
  eyePoses : mat4 * mat4;
  frameInput : option ovrInputState;
  callEnvs : CallEnv * CallEnv
}.

Definition nthEnv (fe : FrameEnv) (k : nat) : CallEnv :=
  match k with
  | O => fst (callEnvs fe)
  | S _ => snd (callEnvs fe)
  end.

Definition with_a (a_pressed' : Z) (a_hasPressed' : bool) (s : ExampleApp) : ExampleApp :=
  {| a_pressed := a_pressed'; a_hasPressed := a_hasPressed'; iod := iod s;
     HmdToEyePose_x := HmdToEyePose_x s; eyeProjections := eyeProjections s;
     cubeScale := cubeScale s; x_pressed := x_pressed s; x_hasPressed := x_hasPressed s;
     b_pressed := b_pressed s; b_hasPressed := b_hasPressed s;
     leftIndexP := leftIndexP s; rightIndexP := rightIndexP s;
     leftThumbP := leftThumbP s; rightThumbP := rightThumbP s;
     ldelayRender := ldelayRender s; rdelayRender := rdelayRender s;
     leftCurFrame := leftCurFrame s; rightCurFrame := rightCurFrame s;
     renderFrame := renderFrame s; iodOffset := iodOffset s;
     rotation := rotation s; position := position s;
     lringBuffer := lringBuffer s; rringBuffer := rringBuffer s;
     cringBuffer := cringBuffer s; lagNum := lagNum s; delayNum := delayNum s;
     drawView := drawView s |}.

(** [renderScene(_eyeProjections[eye], ovr::toGlm(eyePoses[eye]), whichEye)],
    the call appended to the frame's list of render calls. *)
Definition renderEye (fe : FrameEnv) (eye whichEye : Z)
    (st : ExampleApp * list RenderCall) : option (ExampleApp * list RenderCall) :=
  let '(s, tr) := st in
  let projection := if eye =? 0 then fst (eyeProjections s) else snd (eyeProjections s) in
  let headPose := if eye =? 0 then fst (eyePoses fe) else snd (eyePoses fe) in
  r <- renderScene s projection headPose whichEye (nthEnv fe (length tr)) ;;
  Some (fst r, tr ++ [snd r]).

Definition draw (s : ExampleApp) (fe : FrameEnv)
    : option (ExampleApp * list RenderCall) :=
  match frameInput fe with
  | None => Some (s, [])
  | Some i =>
    let s :=
      if pressed i (ovrButton_A P) then
        if negb (a_hasPressed s) then with_a (Z.rem (a_pressed s + 1) 4) true s else s
      else s in
    st <- (if a_pressed s =? 0 then
             st <- renderEye fe 0 0 (s, []) ;; renderEye fe 1 1 st
           else Some (s, [])) ;;
    st <- (if a_pressed (fst st) =? 1 then renderEye fe 0 0 st else Some st) ;;
    st <- (if a_pressed (fst st) =? 2 then renderEye fe 1 1 st else Some st) ;;
    st <- (if a_pressed (fst st) =? 3 then
             st <- renderEye fe 0 (1 - 0) st ;; renderEye fe 1 (1 - 1) st
           else Some st) ;;
    let s := fst st in
    let s :=
      if negb (pressed i (ovrButton_A P)) && a_hasPressed s
      then with_a (a_pressed s) false s else s in
    Some (s, snd st)
  end.

(** ** Construction *)

(** The state after [RiftApp()] and [ExampleApp()].  The device gives the
    eye offsets and the projections; [m0], [r0] and [p0] stand for the
    matrices and the vector that the constructors leave to glm's defaults. *)
Definition ExampleApp_new (hmd_x : float * float) (proj : mat4 * mat4)
    (m0 : mat4) (r0 : mat3) (p0 : vec4) : ExampleApp :=
  {| a_pressed := 0; a_hasPressed := false;
     iod := SFabs (SFsub F32.prec F32.emax (fst hmd_x) (snd hmd_x));
     HmdToEyePose_x := hmd_x; eyeProjections := proj;
     cubeScale := F32.zero; x_pressed := 0; x_hasPressed := false;
     b_pressed := 0; b_hasPressed := false;
     leftIndexP := false; rightIndexP := false;
     leftThumbP := false; rightThumbP := false;
     ldelayRender := 0; rdelayRender := 0;
     leftCurFrame := m0; rightCurFrame := m0; renderFrame := m0;
     iodOffset := F32.zero; rotation := r0; position := p0;
     lringBuffer := repeat glm.mat4_1 60;
     rringBuffer := repeat glm.mat4_1 60;
     cringBuffer := repeat glm.vec3_1 60;
     lagNum := 0; delayNum := 0;
     drawView := m0 |}.

(** The states a run can be in: after construction, after any call of
    [renderScene], after any frame. *)
Inductive Reachable : ExampleApp -> Prop :=
| Reachable_new : forall hmd_x proj m0 r0 p0,
    Reachable (ExampleApp_new hmd_x proj m0 r0 p0)
| Reachable_renderScene : forall s projection headPose whichEye env s' rc,
    Reachable s ->
    renderScene s projection headPose whichEye env = Some (s', rc) ->
    Reachable s'
| Reachable_draw : forall s fe s' tr,
    Reachable s ->
    draw s fe = Some (s', tr) ->
    Reachable s'.

(** A sequence of [renderScene] calls, with the state and the render call
    after each. *)
Record Call := mkCall {
  call_projection : mat4;
  call_headPose : mat4;
  call_whichEye : Z;
  call_env : CallEnv
}.

Fixpoint run (s : ExampleApp) (cs : list Call) : option (list (ExampleApp * RenderCall)) :=
  match cs with
  | [] => Some []
  | c :: cs' =>
    r <- renderScene s (call_projection c) (call_headPose c) (call_whichEye c) (call_env c) ;;
    tr <- run (fst r) cs' ;;
    Some (r :: tr)
  end.

End Program.

(** ** The invariant of a run *)

(** The three histories keep the constructed length, and every [int] member
    stays in a small range. *)
Record Inv (s : ExampleApp) : Prop := mkInv {
  Inv_lringBuffer : length (lringBuffer s) = 60%nat;
  Inv_rringBuffer : length (rringBuffer s) = 60%nat;
  Inv_cringBuffer : length (cringBuffer s) = 60%nat;
  Inv_lagNum : 0 <= lagNum s <= 59;
  Inv_delayNum : 0 <= delayNum s <= 10;
  Inv_ldelayRender : 0 <= ldelayRender s <= 10;
  Inv_rdelayRender : 0 <= rdelayRender s <= 10;
  Inv_a_pressed : 0 <= a_pressed s < 4;
  Inv_b_pressed : 0 <= b_pressed s < 4;
  Inv_x_pressed : 0 <= x_pressed s < 3
}.

(** ** Runs of calls, and the events the properties speak of *)

Section Events.
Variable P : Platform.

(** The state a sequence of [renderScene] calls ends in. *)
Definition stateAfter (s : ExampleApp) (cs : list Call) : option ExampleApp :=
  tr <- run P s cs ;; Some (last (map fst tr) s).

(** The call sees a press edge of button B: B is down and was not down at
    the previous call that read the controller. *)
Definition b_edge (s : ExampleApp) (env : CallEnv) : bool :=
  match callInput env with
  | Some i => pressed i (ovrButton_B P) && negb (b_hasPressed s)
  | None => false
  end.

(** A sequence of calls none of which sees a press edge of button B, with
    the state and the render call after each. *)
Inductive calls_without_b_edge :
    ExampleApp -> list Call -> list (ExampleApp * RenderCall) -> Prop :=
| cwb_nil : forall s, calls_without_b_edge s [] []
| cwb_cons : forall s c cs s1 rc tr,
    b_edge s (call_env c) = false ->
    renderScene P s (call_projection c) (call_headPose c) (call_whichEye c) (call_env c)
      = Some (s1, rc) ->
    calls_without_b_edge s1 cs tr ->
    calls_without_b_edge s (c :: cs) ((s1, rc) :: tr).

(** The head poses of the calls for eye 0, and the views these calls hand
    to the renderer. *)
Definition left_poses (cs : list Call) : list mat4 :=
  map call_headPose (filter (fun c => call_whichEye c =? 0) cs).

Definition left_views (tr : list (ExampleApp * RenderCall)) : list mat4 :=
  map (fun r => rc_view (snd r)) (filter (fun r => rc_whichEye (snd r) =? 0) tr).

(** A pose held for [d] calls: with the counter at [k] and [cur] captured,
    what a sequence of poses is rendered as. *)
Fixpoint held (d k : Z) (cur : mat4) (poses : list mat4) : list mat4 :=
  match poses with
  | [] => []
  | h :: hs =>
    let cur' := if k =? 0 then h else cur in
    cur' :: held d (if d <=? k + 1 then 0 else k + 1) cur' hs
  end.

(** The four trigger edges.  An edge is a trigger above the threshold whose
    "pressed" flag is still clear; the opposite trigger of the pair is not
    above the threshold, so the call makes one change to the counter. *)
Inductive Edge := LagUp | LagDown | DelayUp | DelayDown.

Definition is_edge (e : Edge) (s : ExampleApp) (i : ovrInputState) : Prop :=
  match e with
  | LagUp =>
      F32.gtb (snd (IndexTrigger i)) F32.half = true /\ rightIndexP s = false /\
      F32.gtb (fst (IndexTrigger i)) F32.half = false
  | LagDown =>
      F32.gtb (fst (IndexTrigger i)) F32.half = true /\ leftIndexP s = false /\
      F32.gtb (snd (IndexTrigger i)) F32.half = false
  | DelayUp =>
      F32.gtb (snd (HandTrigger i)) F32.half = true /\ rightThumbP s = false /\
      F32.gtb (fst (HandTrigger i)) F32.half = false
  | DelayDown =>
      F32.gtb (fst (HandTrigger i)) F32.half = true /\ leftThumbP s = false /\
      F32.gtb (snd (HandTrigger i)) F32.half = false
  end.

(** What the edge does to its counter, from the state before to the state
    after the call. *)
Definition edge_effect (e : Edge) (s s' : ExampleApp) : Prop :=
  match e with
  | LagUp => lagNum s' = (lagNum s + 1) mod 60
  | LagDown => lagNum s' = Z.max 0 (lagNum s - 1)
  | DelayUp => delayNum s' = Z.min 10 (delayNum s + 1)
  | DelayDown => delayNum s' = Z.max 0 (delayNum s - 1)
  end.

End Events.

(** ** Sample data for concrete runs

    The statements below hold for every [Platform].  Where one is applied
    to concrete data, the masks are those of the device SDK's header and the
    poses are translations, on which the matrix inverse is the translation
    by the opposite vector. *)

Module Sample.
Definition translation (x : float) : mat4 :=
  glm.set_col3 glm.mat4_1 (glm.mkvec4 x F32.zero F32.zero F32.one).

Definition inverse_translation (m : mat4) : mat4 :=
  glm.set_col3 m
    (glm.mkvec4 (F32.opp (glm.v4x (glm.m4c3 m))) (F32.opp (glm.v4y (glm.m4c3 m)))
                (F32.opp (glm.v4z (glm.m4c3 m))) (glm.v4w (glm.m4c3 m))).

Definition sdk : Platform :=
  {| inverse := inverse_translation;
     ovrButton_A := 1; ovrButton_B := 2; ovrButton_X := 256;
     ovrButton_LThumb := 1024; ovrButton_RThumb := 4 |}.

Definition f2 (x : float) : float * float := (x, x).
Definition at_rest : float * float := f2 F32.zero.

(** Controller readings. *)
Definition idle : ovrInputState := mkInput 0 at_rest at_rest at_rest.
Definition button (mask : Z) : ovrInputState := mkInput mask at_rest at_rest at_rest.
Definition right_index : ovrInputState := mkInput 0 at_rest (F32.zero, F32.one) at_rest.
Definition left_index : ovrInputState := mkInput 0 at_rest (F32.one, F32.zero) at_rest.
Definition right_hand : ovrInputState := mkInput 0 at_rest at_rest (F32.zero, F32.one).
Definition left_hand : ovrInputState := mkInput 0 at_rest at_rest (F32.one, F32.zero).
Definition right_stick (x : float) : ovrInputState :=
  mkInput 0 (F32.zero, x) at_rest at_rest.

Definition hand (x : float) : vec3 := glm.mkvec3 x F32.zero F32.zero.
Definition reads (c : vec3) (i : ovrInputState) : CallEnv := mkCallEnv c (Some i).

(** A call for eye [e] with head pose [translation x]. *)
Definition call (e : Z) (x : float) (i : ovrInputState) : Call :=
  mkCall glm.mat4_1 (translation x) e (reads (hand x) i).

(** The constructed application: eye offsets of 1/32 on either side. *)
Definition app0 : ExampleApp :=
  ExampleApp_new (F32.opp (F32.lit 8388608 (-28)), F32.lit 8388608 (-28))
                 (glm.mat4_1, glm.mat4_1)
                 glm.mat4_1 (glm.mat3_of_mat4 glm.mat4_1) (glm.m4c3 glm.mat4_1).

(** [n] press-and-release cycles of a trigger or button, on eye 0. *)
Fixpoint cycles (n : nat) (i : ovrInputState) : list Call :=
  match n with
  | O => []
  | S k => call 0 F32.one i :: call 0 F32.one idle :: cycles k i
  end.

(** The application after 59 press-and-release cycles of the right index
    trigger. *)
Definition at_lag_59 : ExampleApp :=
  Eval vm_compute in
    match stateAfter sdk app0 (cycles 59 right_index) with
    | Some s => s
    | None => app0
    end.

(** The application after two increments of the lag and three of the
    delay, and one more call that brings the left delay counter back to 0. *)
Definition lag2_delay3 : ExampleApp :=
  Eval vm_compute in
    match stateAfter sdk app0
            (cycles 2 right_index ++ cycles 3 right_hand ++ [call 0 F32.one idle]) with
    | Some s => s
    | None => app0
    end.

(** The application after two press-and-release cycles of button B. *)
Definition in_mode_2 : ExampleApp :=
  Eval vm_compute in
    match stateAfter sdk app0 (cycles 2 (button 2)) with
    | Some s => s
    | None => app0
    end.

(** The application after two increments of the lag, with no delay. *)
Definition at_lag_2 : ExampleApp :=
  Eval vm_compute in
    match stateAfter sdk app0 (cycles 2 right_index) with
    | Some s => s
    | None => app0
    end.
End Sample.

(** ** Button samples and press edges *)

(** The number of press edges in a sequence of samples of one button: a
    sample that is down counts when the sample before it (or [held], for the
    first one) is not down. *)
Fixpoint press_edges (held : bool) (samples : list bool) : nat :=
  match samples with
  | [] => O
  | b :: rest => ((if b && negb held then 1 else 0) + press_edges b rest)%nat
  end.

(** The samples of the button [mask] that a sequence of calls reads; a call
    whose controller read does not succeed reads none. *)
Definition button_samples (mask : Z) (cs : list Call) : list bool :=
  flat_map (fun c => match callInput (call_env c) with
                     | Some i => [pressed i mask]
                     | None => []
                     end) cs.

(** ** RiftApp::RiftApp: the layout of the render target *)

(** 32-bit conversions: to [unsigned int] and to [int]. *)
Definition u32 (z : Z) : Z := z mod 2 ^ 32.
Definition i32 (z : Z) : Z := (z + 2 ^ 31) mod 2 ^ 32 - 2 ^ 31.

Record ovrSizei := mkSizei { sz_w : Z; sz_h : Z }.
Record ovrRecti := mkRecti { rect_Pos : Z * Z; rect_Size : ovrSizei }.

(** One round of the [for_each_eye] body of the constructor, on
    [_renderTargetSize] (a [uvec2]) and the eye's texture size: the viewport
    of the eye, and the new [_renderTargetSize]. *)
Definition layout_eye (renderTargetSize : Z * Z) (eyeSize : ovrSizei)
    : ovrRecti * (Z * Z) :=
  let viewport := {| rect_Pos := (i32 (fst renderTargetSize), 0);
                     rect_Size := eyeSize |} in
  let y := Z.max (snd renderTargetSize) (u32 (sz_h eyeSize)) in
  let x := u32 (fst renderTargetSize + sz_w eyeSize) in
  (viewport, (x, y)).

(** The two viewports, [_renderTargetSize] and [_mirrorSize] after the
    constructor, from the value [_renderTargetSize] starts with and the two
    sizes [ovr_GetFovTextureSize] returns. *)
Definition RiftApp_layout (renderTargetSize0 : Z * Z) (eyeSizes : ovrSizei * ovrSizei)
    : (ovrRecti * ovrRecti) * (Z * Z) * (Z * Z) :=
  let '(viewport0, renderTargetSize) := layout_eye renderTargetSize0 (fst eyeSizes) in
  let '(viewport1, renderTargetSize) := layout_eye renderTargetSize (snd eyeSizes) in
  ((viewport0, viewport1), renderTargetSize,
   (fst renderTargetSize / 4, snd renderTargetSize / 4)).

(** ** GlfwApp::run: key handling and the frame loop *)

(** The constants of the GLFW header the handlers compare with. *)
Record GlfwKeys := mkGlfwKeys {
  GLFW_PRESS : Z;
  GLFW_KEY_ESCAPE : Z;
  GLFW_KEY_R : Z
}.

Record KeyEvent := mkKeyEvent {
  ev_key : Z;
  ev_scancode : Z;
  ev_action : Z;
  ev_mods : Z
}.

(** The application with what the loop adds: the frame counter (an
    [unsigned int]), the window's close flag, and the number of calls of
    [ovr_RecenterTrackingOrigin] made by the key handler. *)
Record Session := mkSession {
  session_app : ExampleApp;
  session_frame : Z;
  shouldClose : bool;
  recenters : nat
}.

(** What one iteration of the loop reads: the key events [glfwPollEvents]
    delivers, whether the window system asks to close the window, and what
    the frame reads. *)
Record IterEnv := mkIterEnv {
  polled : list KeyEvent;
  closeRequested : bool;
  iterFrame : FrameEnv
}.

Section Loop.
Variable P : Platform.
Variable K : GlfwKeys.

Definition GlfwApp_onKey (ev : KeyEvent) (st : Session) : Session :=
  if negb (GLFW_PRESS K =? ev_action ev) then st
  else if ev_key ev =? GLFW_KEY_ESCAPE K then
    {| session_app := session_app st; session_frame := session_frame st;
       shouldClose := true; recenters := recenters st |}
  else st.

Definition RiftApp_onKey (ev : KeyEvent) (st : Session) : Session :=
  if (GLFW_PRESS K =? ev_action ev) && (ev_key ev =? GLFW_KEY_R K) then
    {| session_app := session_app st; session_frame := session_frame st;
       shouldClose := shouldClose st; recenters := S (recenters st) |}
  else GlfwApp_onKey ev st.

(** [++frame; glfwPollEvents();] *)
Definition pollEvents (it : IterEnv) (st : Session) : Session :=
  let st := {| session_app := session_app st;
               session_frame := u32 (session_frame st + 1);
               shouldClose := shouldClose st; recenters := recenters st |} in
  let st := fold_left (fun st ev => RiftApp_onKey ev st) (polled it) st in
  {| session_app := session_app st; session_frame := session_frame st;
     shouldClose := shouldClose st || closeRequested it; recenters := recenters st |}.

(** The [while (!glfwWindowShouldClose(window))] loop over the iterations
    the environment provides, with the render calls of each frame drawn. *)
Fixpoint GlfwApp_loop (st : Session) (its : list IterEnv)
    : option (Session * list (list RenderCall)) :=
  match its with
  | [] => Some (st, [])
  | it :: rest =>
    if shouldClose st then Some (st, [])
    else
      let st := pollEvents it st in
      r <- draw P (session_app st) (iterFrame it) ;;
      let st := {| session_app := fst r; session_frame := session_frame st;
                   shouldClose := shouldClose st; recenters := recenters st |} in
      r' <- GlfwApp_loop st rest ;;
      Some (fst r', snd r :: snd r')
  end.

(** The iteration asks to close the window: the window system does, or a
    key event is a press of ESCAPE that the R case does not take. *)
Definition closing (it : IterEnv) : bool :=
  closeRequested it
  || existsb (fun ev => (GLFW_PRESS K =? ev_action ev)
                        && (ev_key ev =? GLFW_KEY_ESCAPE K)
                        && negb (ev_key ev =? GLFW_KEY_R K)) (polled it).

(** The iterations up to and including the first closing one. *)
Fixpoint until_closing (its : list IterEnv) : list IterEnv :=
  match its with
  | [] => []
  | it :: rest => it :: (if closing it then [] else until_closing rest)
  end.

End Loop.

(** The head poses of the calls for eye [e], and that eye's history. *)
Definition eye_poses (e : Z) (cs : list Call) : list mat4 :=
  map call_headPose (filter (fun c => call_whichEye c =? e) cs).

Definition eye_history (e : Z) (s : ExampleApp) : list mat4 :=
  if e =? 0 then lringBuffer s else rringBuffer s.

(** The cube scale is neither below -1 nor above 1. *)
Definition cubeScale_bounded (s : ExampleApp) : Prop :=
  F32.ltb (cubeScale s) (F32.opp F32.one) = false
  /\ F32.gtb (cubeScale s) F32.one = false.

(** The samples of the button [mask] that [draw] reads over a sequence of
    loop iterations. *)
Definition frame_button_samples (mask : Z) (its : list IterEnv) : list bool :=
  flat_map (fun it => match frameInput (iterFrame it) with
                      | Some i => [pressed i mask]
                      | None => []
                      end) its.

(** ** More sample data *)

Module Sample2.
(** The key codes of the GLFW header. *)
Definition keys : GlfwKeys :=
  {| GLFW_PRESS := 1; GLFW_KEY_ESCAPE := 256; GLFW_KEY_R := 82 |}.

Definition press (key : Z) : KeyEvent := mkKeyEvent key 0 1 0.
Definition release (key : Z) : KeyEvent := mkKeyEvent key 0 0 0.

Definition left_stick (x : float) : ovrInputState :=
  mkInput 0 (x, F32.zero) Sample.at_rest Sample.at_rest.
Definition both_index : ovrInputState :=
  mkInput 0 Sample.at_rest (F32.one, F32.one) Sample.at_rest.
Definition no_read (c : vec3) : CallEnv := mkCallEnv c None.

(** A frame with the head at [x] (left eye) and [y] (right eye), [i] read by
    [draw] and nothing pressed during the calls. *)
Definition frame (x y : float) (i : option ovrInputState) : FrameEnv :=
  mkFrameEnv (Sample.translation x, Sample.translation y) i
             (Sample.reads (Sample.hand x) Sample.idle,
              Sample.reads (Sample.hand y) Sample.idle).

(** A loop iteration with the key events [evs]. *)
Definition iteration (evs : list KeyEvent) (i : option ovrInputState) : IterEnv :=
  mkIterEnv evs false (frame F32.one F32.two i).

Definition session0 : Session := mkSession Sample.app0 0 false 0.

(** The application in eye mode 3: three press edges of button A. *)
Definition in_eye_mode_3 : ExampleApp :=
  Eval vm_compute in
    match GlfwApp_loop Sample.sdk keys session0
            [iteration [] (Some (Sample.button 1)); iteration [] (Some Sample.idle);
             iteration [] (Some (Sample.button 1)); iteration [] (Some Sample.idle);
             iteration [] (Some (Sample.button 1)); iteration [] (Some Sample.idle)] with
    | Some r => session_app (fst r)
    | None => Sample.app0
    end.

(** The application with delay 3 and the left counter at 2, after a call for
    the right eye with the head at 10. *)
Definition before_lowering : ExampleApp :=
  Eval vm_compute in
    match stateAfter Sample.sdk Sample.app0
            (Sample.cycles 3 Sample.right_hand ++ [Sample.call 1 F32.ten Sample.idle]) with
    | Some s => s
    | None => Sample.app0
    end.

End Sample2.

(** ** Scene::render: what is drawn *)

(** The draw calls of [Scene::render]: the cursor sphere, the cube with
    [instance_positions[i]], and the two skyboxes. *)
Inductive Drawn :=
| draw_sphere
| draw_cube (i : nat)
| draw_skybox
| draw_skybox_right.

(** The draw calls of one [Scene::render], in order. *)
Definition Scene_render_draws (instanceCount : nat) (whichEye x_pressed : Z)
    : list Drawn :=
  [draw_sphere]
  ++ (if x_pressed =? 0 then
        flat_map (fun i => (if whichEye =? 0 then [draw_cube i] else [])
                           ++ (if whichEye =? 1 then [draw_cube i] else []))
                 (seq 0 instanceCount)
        ++ (if whichEye =? 0 then [draw_skybox] else [])
        ++ (if whichEye =? 1 then [draw_skybox_right] else [])
      else [])
  ++ (if x_pressed =? 1 then
        (if whichEye =? 0 then [draw_skybox] else [])
        ++ (if whichEye =? 1 then [draw_skybox_right] else [])
      else [])
  ++ (if x_pressed =? 2 then
        (if whichEye =? 0 then [draw_skybox] else [])
        ++ (if whichEye =? 1 then [draw_skybox] else [])
      else []).

(** The draw calls of a render call made by [renderScene]. *)
Definition draws_of (instanceCount : nat) (rc : RenderCall) : list Drawn :=
  Scene_render_draws instanceCount (rc_whichEye rc) (rc_x_pressed rc).

(** A render call for eye 0 or 1 with a content mode in range. *)
Definition in_range (rc : RenderCall) : Prop :=
  (rc_whichEye rc = 0 \/ rc_whichEye rc = 1) /\ 0 <= rc_x_pressed rc < 3.

(** * Properties *)

(** ** The deque operations *)

Lemma bind_Some (A B : Type) (o : option A) (k : A -> option B) (b : B) :
  bind o k = Some b -> exists a, o = Some a /\ k a = Some b.
Proof.
  destruct o as [a|]; simpl; intros H; [exists a; auto | discriminate].
Qed.

Lemma recordPose_Some (A : Type) (buf : list A) (pose : A) :
  buf <> [] -> recordPose buf pose = Some (tl buf ++ [pose]).
Proof.
  destruct buf as [|a t]; [congruence | reflexivity].
Qed.

Lemma recordPose_length (A : Type) (buf buf' : list A) (pose : A) :
  recordPose buf pose = Some buf' -> length buf' = length buf.
Proof.
  destruct buf as [|a t]; simpl; [discriminate|].
  intros H. injection H as <-. unfold deque.push_back.
  now rewrite last_length.
Qed.

Lemma recordPose_defined (A : Type) (buf : list A) (pose : A) :
  (0 < length buf)%nat -> exists buf', recordPose buf pose = Some buf'.
Proof.
  destruct buf as [|a t]; simpl; [lia | eexists; reflexivity].
Qed.

Lemma retrieveLagged_defined (A : Type) (buf : list A) (l : Z) :
  length buf = 60%nat -> 0 <= l <= 59 -> exists p, retrieveLagged buf l = Some p.
Proof.
  intros Hlen Hl. unfold retrieveLagged, deque.at_, capacity.
  destruct (60 - l - 1 <? 0) eqn:E; [apply Z.ltb_lt in E; lia|].
  destruct (nth_error buf (Z.to_nat (60 - l - 1))) eqn:N; [eauto|].
  apply nth_error_None in N. lia.
Qed.

(** After [n] recordings into a non-empty buffer, the buffer is what is left
    of the old entries followed by the recorded ones. *)
Lemma recordAll_skipn (A : Type) (poses buf : list A) :
  buf <> [] ->
  recordAll buf poses = Some (skipn (length poses) (buf ++ poses)).
Proof.
  revert buf. induction poses as [|p ps IH]; intros buf Hne.
  - simpl. now rewrite app_nil_r.
  - destruct buf as [|a t]; [congruence|].
    cbn [recordAll]. rewrite recordPose_Some by congruence. cbn [bind tl].
    rewrite IH by (destruct t; discriminate).
    cbn [length app skipn]. now rewrite <- app_assoc.
Qed.

Lemma recordAll_full (A : Type) (poses buf : list A) :
  buf <> [] -> length poses = length buf -> recordAll buf poses = Some poses.
Proof.
  intros Hne Hlen. rewrite recordAll_skipn by assumption.
  rewrite skipn_app, Hlen, skipn_all, Nat.sub_diag. reflexivity.
Qed.

Lemma last_cons (A : Type) (l : list A) : forall a d, last (a :: l) d = last l a.
Proof.
  induction l as [|b l IH]; intros a d; [reflexivity|].
  change (last (a :: b :: l) d) with (last (b :: l) d).
  rewrite (IH b d), (IH b a). reflexivity.
Qed.

(** On a full buffer, index [60 - l - 1] is entry [l] counted back from the
    most recent one. *)
Lemma retrieveLagged_rev (A : Type) (buf : list A) (l : Z) :
  length buf = 60%nat -> 0 <= l <= 59 ->
  retrieveLagged buf l = nth_error (rev buf) (Z.to_nat l).
Proof.
  intros Hlen Hl. unfold retrieveLagged, deque.at_, capacity.
  destruct (60 - l - 1 <? 0) eqn:E; [apply Z.ltb_lt in E; lia|].
  rewrite nth_error_rev, Hlen.
  replace (Z.to_nat l <? 60)%nat with true by (symmetry; apply Nat.ltb_lt; lia).
  f_equal. lia.
Qed.

(** ** C1 *)

(** C1. After exactly 60 [recordPose] calls with the poses [poses] (oldest
    first) on a buffer of the constructed length, [retrieveLagged] at lag [l]
    in [0, 59] reads offset [60 - l - 1] and returns the pose recorded [l]
    calls ago: entry [l] of the recorded poses counted from the most recent.
    Lag 0 is the last pose recorded and lag 59 the first. *)
Theorem retrieveLagged_after_60_records :
  forall (A : Type) (buf poses : list A) (l : Z),
    length buf = 60%nat -> length poses = 60%nat -> 0 <= l <= 59 ->
    exists p,
      (b <- recordAll buf poses ;; retrieveLagged b l) = Some p
      /\ nth_error poses (Z.to_nat (capacity - l - 1)) = Some p
      /\ nth_error (rev poses) (Z.to_nat l) = Some p.
Proof.
  intros A buf poses l Hbuf Hposes Hl.
  assert (Hne : buf <> []) by (destruct buf; [discriminate | congruence]).
  rewrite recordAll_full by (assumption || congruence). cbn [bind].
  destruct (retrieveLagged_defined poses Hposes Hl) as [p Hp].
  exists p. split; [exact Hp|].
  assert (Hidx : nth_error poses (Z.to_nat (capacity - l - 1)) = Some p).
  { revert Hp. unfold retrieveLagged, deque.at_.
    destruct (capacity - l - 1 <? 0); [discriminate | trivial]. }
  split; [exact Hidx|].
  rewrite nth_error_rev, Hposes.
  replace (Z.to_nat l <? 60)%nat with true
    by (symmetry; apply Nat.ltb_lt; lia).
  rewrite <- Hidx. f_equal. unfold capacity. lia.
Qed.

Lemma retrieveLagged_after_60_records_witness :
  exists p,
    (b <- recordAll (repeat 0 60) (map Z.of_nat (seq 1 60)) ;; retrieveLagged b 5) = Some p
    /\ nth_error (map Z.of_nat (seq 1 60)) (Z.to_nat (capacity - 5 - 1)) = Some p
    /\ nth_error (rev (map Z.of_nat (seq 1 60))) (Z.to_nat 5) = Some p.
Proof.
  apply (@retrieveLagged_after_60_records Z (repeat 0 60) (map Z.of_nat (seq 1 60)) 5);
    [reflexivity | reflexivity | lia].
Defined.

(** The two ends of the range: lag 0 is the newest pose, lag 59 the oldest. *)
Lemma retrieveLagged_ends (A : Type) (buf poses : list A) (first newest : A) (mid : list A) :
  length buf = 60%nat -> length poses = 60%nat ->
  poses = first :: mid ++ [newest] ->
  (b <- recordAll buf poses ;; retrieveLagged b 0) = Some newest
  /\ (b <- recordAll buf poses ;; retrieveLagged b 59) = Some first.
Proof.
  intros Hbuf Hposes Heq.
  assert (Hne : buf <> []) by (destruct buf; [discriminate | congruence]).
  rewrite recordAll_full by (assumption || congruence). cbn [bind].
  split.
  - rewrite retrieveLagged_rev by (assumption || lia). subst poses.
    change (first :: mid ++ [newest]) with ((first :: mid) ++ [newest]).
    rewrite rev_app_distr. reflexivity.
  - subst poses. reflexivity.
Qed.

(** ** The input block *)

Section InputFacts.
Variable P : Platform.

Ltac split_input :=
  unfold processInput;
  repeat match goal with
  | |- context [match ?e with pair _ _ => _ end] => destruct e
  end;
  try reflexivity.

Lemma pi_a_pressed oi h s : a_pressed (processInput P oi h s) = a_pressed s.
Proof. destruct oi; split_input. Qed.
Lemma pi_a_hasPressed oi h s : a_hasPressed (processInput P oi h s) = a_hasPressed s.
Proof. destruct oi; split_input. Qed.
Lemma pi_iod oi h s : iod (processInput P oi h s) = iod s.
Proof. destruct oi; split_input. Qed.
Lemma pi_eyeProjections oi h s :
  eyeProjections (processInput P oi h s) = eyeProjections s.
Proof. destruct oi; split_input. Qed.
Lemma pi_ldelayRender oi h s : ldelayRender (processInput P oi h s) = ldelayRender s.
Proof. destruct oi; split_input. Qed.
Lemma pi_rdelayRender oi h s : rdelayRender (processInput P oi h s) = rdelayRender s.
Proof. destruct oi; split_input. Qed.
Lemma pi_leftCurFrame oi h s : leftCurFrame (processInput P oi h s) = leftCurFrame s.
Proof. destruct oi; split_input. Qed.
Lemma pi_rightCurFrame oi h s : rightCurFrame (processInput P oi h s) = rightCurFrame s.
Proof. destruct oi; split_input. Qed.
Lemma pi_renderFrame oi h s : renderFrame (processInput P oi h s) = renderFrame s.
Proof. destruct oi; split_input. Qed.
Lemma pi_lringBuffer oi h s : lringBuffer (processInput P oi h s) = lringBuffer s.
Proof. destruct oi; split_input. Qed.
Lemma pi_rringBuffer oi h s : rringBuffer (processInput P oi h s) = rringBuffer s.
Proof. destruct oi; split_input. Qed.
Lemma pi_cringBuffer oi h s : cringBuffer (processInput P oi h s) = cringBuffer s.
Proof. destruct oi; split_input. Qed.

Lemma pi_x i h s :
  (x_pressed (processInput P (Some i) h s), x_hasPressed (processInput P (Some i) h s))
  = input_x_pressed P i (x_pressed s) (x_hasPressed s).
Proof. split_input. Qed.

Lemma pi_b i h s :
  let s1 := processInput P (Some i) h s in
  (b_pressed s1, b_hasPressed s1, rotation s1, position s1)
  = input_b_pressed P i h (b_pressed s) (b_hasPressed s) (rotation s) (position s).
Proof. split_input. Qed.

Lemma pi_iodOffset i h s :
  let s1 := processInput P (Some i) h s in
  (iodOffset s1, HmdToEyePose_x s1)
  = input_iodOffset P i (iod s) (iodOffset s) (HmdToEyePose_x s).
Proof. split_input. Qed.

Lemma pi_lagNum i h s :
  let s1 := processInput P (Some i) h s in
  (lagNum s1, leftIndexP s1, rightIndexP s1)
  = input_lagNum i (lagNum s) (leftIndexP s) (rightIndexP s).
Proof. split_input. Qed.

Lemma pi_delayNum i h s :
  let s1 := processInput P (Some i) h s in
  (delayNum s1, leftThumbP s1, rightThumbP s1)
  = input_delayNum i (delayNum s) (leftThumbP s) (rightThumbP s).
Proof. split_input. Qed.

End InputFacts.

(** ** The trigger counters stay in range *)

Lemma rem60_range (a : Z) : 0 <= a -> 0 <= Z.rem a 60 <= 59.
Proof.
  intros Ha. pose proof (Z.rem_bound_pos a 60 Ha ltac:(lia)). lia.
Qed.

Ltac bool_hyps :=
  repeat match goal with
  | H : (_ && _) = true |- _ => apply andb_true_iff in H; destruct H
  | H : (_ <? _) = true |- _ => apply Z.ltb_lt in H
  | H : (_ <? _) = false |- _ => apply Z.ltb_ge in H
  | H : (_ <=? _) = true |- _ => apply Z.leb_le in H
  | H : (_ <=? _) = false |- _ => apply Z.leb_gt in H
  | H : (_ =? _) = true |- _ => apply Z.eqb_eq in H
  | H : (_ =? _) = false |- _ => apply Z.eqb_neq in H
  end.

Ltac case_ifs :=
  repeat match goal with
  | |- context [if ?c then _ else _] => destruct c eqn:?; cbn [fst snd]
  end.

Ltac rem_bounds :=
  repeat match goal with
  | |- context [Z.rem ?a 60] =>
      lazymatch goal with
      | _ : 0 <= a -> 0 <= Z.rem a 60 <= 59 |- _ => fail
      | _ => pose proof (@rem60_range a)
      end
  end.

Lemma input_lagNum_range (i : ovrInputState) (n : Z) (l r : bool) :
  0 <= n <= 59 -> 0 <= fst (fst (input_lagNum i n l r)) <= 59.
Proof.
  intros Hn. unfold input_lagNum.
  case_ifs; bool_hyps; rem_bounds; lia.
Qed.

Lemma input_delayNum_range (i : ovrInputState) (n : Z) (l r : bool) :
  0 <= n <= 10 -> 0 <= fst (fst (input_delayNum i n l r)) <= 10.
Proof.
  intros Hn. unfold input_delayNum.
  case_ifs; bool_hyps; lia.
Qed.

Lemma input_x_pressed_range (P : Platform) (i : ovrInputState) (n : Z) (h : bool) :
  0 <= n < 3 -> 0 <= fst (input_x_pressed P i n h) < 3.
Proof.
  intros Hn. unfold input_x_pressed.
  case_ifs; cbn [fst]; try lia.
  pose proof (Z.rem_bound_pos (n + 1) 3). lia.
Qed.

Lemma input_b_pressed_range (P : Platform) (i : ovrInputState) (h : mat4)
    (n : Z) (b : bool) (r : mat3) (p : vec4) :
  0 <= n < 4 -> 0 <= fst (fst (fst (input_b_pressed P i h n b r p))) < 4.
Proof.
  intros Hn. unfold input_b_pressed.
  case_ifs; cbn [fst]; try lia.
  pose proof (Z.rem_bound_pos (n + 1) 4). lia.
Qed.

(** ** The render-delay block *)

Lemma delayStep_counters (e d : Z) (h : mat4) (ld rd : Z) (lcf rcf rf : mat4) :
  0 <= d <= 10 -> 0 <= ld -> 0 <= rd ->
  let '(ld', rd', _, _, _) := delayStep e d h ld rd lcf rcf rf in
  0 <= ld' <= 10 /\ 0 <= rd' <= 10.
Proof.
  intros Hd Hl Hr. unfold delayStep.
  case_ifs; bool_hyps; lia.
Qed.

(** ** One call of [renderScene], taken apart *)

Section CallFacts.
Variable P : Platform.

Lemma renderScene_inv s projection headPose whichEye env s' rc :
  renderScene P s projection headPose whichEye env = Some (s', rc) ->
  let s1 := processInput P (callInput env) headPose s in
  let d := delayStep whichEye (delayNum s1) headPose (ldelayRender s1) (rdelayRender s1)
                     (leftCurFrame s1) (rightCurFrame s1) (renderFrame s1) in
  exists lring rring cring lf lagFrame right,
    (if whichEye =? 0 then recordPose (lringBuffer s) headPose
     else Some (lringBuffer s)) = Some lring /\
    (if whichEye =? 1 then recordPose (rringBuffer s) headPose
     else Some (rringBuffer s)) = Some rring /\
    recordCursor (cringBuffer s) (handPosition1 env) = Some cring /\
    (if whichEye =? 0 then retrieveLagged lring (lagNum s1) else Some headPose) = Some lf /\
    (if whichEye =? 1 then retrieveLagged rring (lagNum s1) else Some lf) = Some lagFrame /\
    retrieveLagged cring (lagNum s1) = Some right /\
    rc = {| rc_projection := projection;
            rc_view := inverse P (selectOutput (lagNum s1) (delayNum s1) headPose
                                               lagFrame (snd d));
            rc_whichEye := whichEye; rc_x_pressed := x_pressed s1;
            rc_cubeScale := cubeScale s1; rc_b_pressed := b_pressed s1;
            rc_rot := rotation s1; rc_pos := position s1; rc_right := right |} /\
    s' = {| a_pressed := a_pressed s1; a_hasPressed := a_hasPressed s1; iod := iod s1;
            HmdToEyePose_x := HmdToEyePose_x s1; eyeProjections := eyeProjections s1;
            cubeScale := cubeScale s1; x_pressed := x_pressed s1;
            x_hasPressed := x_hasPressed s1;
            b_pressed := b_pressed s1; b_hasPressed := b_hasPressed s1;
            leftIndexP := leftIndexP s1; rightIndexP := rightIndexP s1;
            leftThumbP := leftThumbP s1; rightThumbP := rightThumbP s1;
            ldelayRender := fst (fst (fst (fst d))); rdelayRender := snd (fst (fst (fst d)));
            leftCurFrame := snd (fst (fst d)); rightCurFrame := snd (fst d);
            renderFrame := snd d; iodOffset := iodOffset s1;
            rotation := rotation s1; position := position s1;
            lringBuffer := lring; rringBuffer := rring; cringBuffer := cring;
            lagNum := lagNum s1; delayNum := delayNum s1;
            drawView := Scene_render (drawView s1) (rc_view rc) (b_pressed s1)
                                     (rotation s1) (position s1) |}.
Proof.
  intros H s1 d. unfold renderScene in H. fold s1 in H.
  apply bind_Some in H. destruct H as (lring & Hl & H).
  apply bind_Some in H. destruct H as (rring & Hr & H).
  apply bind_Some in H. destruct H as (cring & Hc & H).
  apply bind_Some in H. destruct H as (lf & Hlf & H).
  apply bind_Some in H. destruct H as (lagFrame & Hlag & H).
  apply bind_Some in H. destruct H as (right & Hright & H).
  fold d in H.
  exists lring, rring, cring, lf, lagFrame, right.
  destruct d as [[[[ld rd] lcf] rcf] rf]. cbn [fst snd].
  injection H as Hs Hrc. subst rc. cbn [rc_view rc_b_pressed rc_rot rc_pos] in Hs.
  repeat split; try assumption; symmetry; assumption.
Qed.

End CallFacts.

(** ** The invariant *)

Section InvFacts.
Variable P : Platform.

Lemma Inv_new hmd_x proj m0 r0 p0 : Inv (ExampleApp_new hmd_x proj m0 r0 p0).
Proof.
  constructor; cbn; try lia; apply repeat_length.
Qed.

Lemma Inv_processInput oi h s : Inv s -> Inv (processInput P oi h s).
Proof.
  intros [Hl Hr Hc Hlag Hdel Hld Hrd Ha Hb Hx].
  destruct oi as [i|]; [|constructor; assumption].
  pose proof (pi_lagNum P i h s) as E1. cbv zeta in E1.
  pose proof (pi_delayNum P i h s) as E2. cbv zeta in E2.
  pose proof (pi_b P i h s) as E3. cbv zeta in E3.
  pose proof (pi_x P i h s) as E4.
  constructor;
    rewrite ?pi_lringBuffer, ?pi_rringBuffer, ?pi_cringBuffer, ?pi_ldelayRender,
            ?pi_rdelayRender, ?pi_a_pressed; try assumption.
  - pose proof (@input_lagNum_range i _ (leftIndexP s) (rightIndexP s) Hlag) as R.
    rewrite <- E1 in R. exact R.
  - pose proof (@input_delayNum_range i _ (leftThumbP s) (rightThumbP s) Hdel) as R.
    rewrite <- E2 in R. exact R.
  - pose proof (@input_b_pressed_range P i h _ (b_hasPressed s) (rotation s) (position s) Hb)
      as R.
    rewrite <- E3 in R. exact R.
  - pose proof (@input_x_pressed_range P i _ (x_hasPressed s) Hx) as R.
    rewrite <- E4 in R. exact R.
Qed.

(** On a state that satisfies the invariant no deque operation of
    [renderScene] is out of range: the call returns. *)
Lemma renderScene_defined s projection headPose whichEye env :
  Inv s -> exists s' rc, renderScene P s projection headPose whichEye env = Some (s', rc).
Proof.
  intros HI. pose proof (Inv_processInput (callInput env) headPose HI) as HI1.
  destruct HI as [Hl Hr Hc _ _ _ _ _ _ _].
  destruct HI1 as [_ _ _ Hlag _ _ _ _ _ _].
  unfold renderScene.
  set (s1 := processInput P (callInput env) headPose s) in *.
  assert (Hlr : exists lring,
             (if whichEye =? 0 then recordPose (lringBuffer s) headPose
              else Some (lringBuffer s)) = Some lring /\ length lring = 60%nat).
  { destruct (whichEye =? 0); [|eauto].
    destruct (@recordPose_defined _ (lringBuffer s) headPose ltac:(lia)) as [b Hb].
    exists b. split; [assumption|].
    rewrite (recordPose_length _ _ Hb). assumption. }
  assert (Hrr : exists rring,
             (if whichEye =? 1 then recordPose (rringBuffer s) headPose
              else Some (rringBuffer s)) = Some rring /\ length rring = 60%nat).
  { destruct (whichEye =? 1); [|eauto].
    destruct (@recordPose_defined _ (rringBuffer s) headPose ltac:(lia)) as [b Hb].
    exists b. split; [assumption|].
    rewrite (recordPose_length _ _ Hb). assumption. }
  destruct Hlr as (lring & -> & Hll). destruct Hrr as (rring & -> & Hrl).
  destruct (@recordPose_defined _ (cringBuffer s) (handPosition1 env) ltac:(lia))
    as [cring Hcr].
  unfold recordCursor. rewrite Hcr. cbn [bind].
  assert (Hcl : length cring = 60%nat)
    by (rewrite (recordPose_length _ _ Hcr); assumption).
  destruct (retrieveLagged_defined lring Hll Hlag) as [pl Hpl].
  destruct (retrieveLagged_defined rring Hrl Hlag) as [pr Hpr].
  destruct (retrieveLagged_defined cring Hcl Hlag) as [pc Hpc].
  rewrite Hpl, Hpr, Hpc.
  destruct (whichEye =? 0), (whichEye =? 1); cbn [bind];
    destruct (delayStep _ _ _ _ _ _ _ _) as [[[[? ?] ?] ?] ?]; eauto.
Qed.

Lemma renderScene_Inv s projection headPose whichEye env s' rc :
  Inv s -> renderScene P s projection headPose whichEye env = Some (s', rc) -> Inv s'.
Proof.
  intros HI H. pose proof (Inv_processInput (callInput env) headPose HI) as HI1.
  apply renderScene_inv in H. cbv zeta in H.
  destruct H as (lring & rring & cring & lf & lagFrame & right &
                 Hl & Hr & Hc & _ & _ & _ & _ & Hs).
  set (s1 := processInput P (callInput env) headPose s) in *.
  pose proof (@delayStep_counters whichEye (delayNum s1) headPose (ldelayRender s1)
                (rdelayRender s1) (leftCurFrame s1) (rightCurFrame s1) (renderFrame s1)
                (Inv_delayNum HI1) (proj1 (Inv_ldelayRender HI1))
                (proj1 (Inv_rdelayRender HI1))) as Hd.
  destruct (delayStep _ _ _ _ _ _ _ _) as [[[[ld rd] lcf] rcf] rf].
  cbn [fst snd] in Hs. subst s'.
  destruct HI as [Hll Hrl Hcl _ _ _ _ _ _ _].
  destruct HI1 as [_ _ _ Hlag Hdel _ _ Ha Hb Hx].
  constructor; cbn; try assumption; try tauto.
  - destruct (whichEye =? 0).
    + rewrite (recordPose_length _ _ Hl). assumption.
    + injection Hl as <-. assumption.
  - destruct (whichEye =? 1).
    + rewrite (recordPose_length _ _ Hr). assumption.
    + injection Hr as <-. assumption.
  - rewrite (recordPose_length _ _ Hc). assumption.
Qed.

End InvFacts.

(** ** Frames *)

Section FrameFacts.
Variable P : Platform.

Lemma Inv_with_a (a : Z) (h : bool) (s : ExampleApp) :
  Inv s -> 0 <= a < 4 -> Inv (with_a a h s).
Proof.
  intros [Hl Hr Hc Hlag Hdel Hld Hrd Ha Hb Hx] Hrange.
  constructor; cbn; assumption.
Qed.

Lemma renderEye_Inv fe eye whichEye st st' :
  Inv (fst st) -> renderEye P fe eye whichEye st = Some st' -> Inv (fst st').
Proof.
  destruct st as [s tr]. cbn [fst]. intros HI H. unfold renderEye in H.
  apply bind_Some in H. destruct H as ([s1 rc] & H1 & H).
  injection H as <-. cbn [fst]. eapply renderScene_Inv; eassumption.
Qed.

Lemma renderEye_defined fe eye whichEye st :
  Inv (fst st) -> exists st', renderEye P fe eye whichEye st = Some st'.
Proof.
  destruct st as [s tr]. cbn [fst]. intros HI. unfold renderEye.
  destruct (@renderScene_defined P s
              (if eye =? 0 then fst (eyeProjections s) else snd (eyeProjections s))
              (if eye =? 0 then fst (eyePoses fe) else snd (eyePoses fe))
              whichEye (nthEnv fe (length tr)) HI) as (s' & rc & ->).
  cbn [bind]. eauto.
Qed.

(** The part of [draw] between the two statements on button A: the four
    [if (a_pressed == k)] blocks. *)
Lemma draw_blocks_Inv fe st0 st1 st2 st3 st4 :
  Inv (fst st0) ->
  (if a_pressed (fst st0) =? 0 then
     st <- renderEye P fe 0 0 st0 ;; renderEye P fe 1 1 st
   else Some st0) = Some st1 ->
  (if a_pressed (fst st1) =? 1 then renderEye P fe 0 0 st1 else Some st1) = Some st2 ->
  (if a_pressed (fst st2) =? 2 then renderEye P fe 1 1 st2 else Some st2) = Some st3 ->
  (if a_pressed (fst st3) =? 3 then
     st <- renderEye P fe 0 (1 - 0) st3 ;; renderEye P fe 1 (1 - 1) st
   else Some st3) = Some st4 ->
  Inv (fst st4).
Proof.
  intros H0 H1 H2 H3 H4.
  assert (I1 : Inv (fst st1)).
  { destruct (a_pressed (fst st0) =? 0).
    - apply bind_Some in H1. destruct H1 as (st & Ha & Hb).
      eapply renderEye_Inv; [|exact Hb]. eapply renderEye_Inv; eassumption.
    - injection H1 as <-. assumption. }
  assert (I2 : Inv (fst st2)).
  { destruct (a_pressed (fst st1) =? 1).
    - eapply renderEye_Inv; eassumption.
    - injection H2 as <-. assumption. }
  assert (I3 : Inv (fst st3)).
  { destruct (a_pressed (fst st2) =? 2).
    - eapply renderEye_Inv; eassumption.
    - injection H3 as <-. assumption. }
  destruct (a_pressed (fst st3) =? 3).
  - apply bind_Some in H4. destruct H4 as (st & Ha & Hb).
    eapply renderEye_Inv; [|exact Hb]. eapply renderEye_Inv; eassumption.
  - injection H4 as <-. assumption.
Qed.

Lemma draw_Inv s fe s' tr :
  Inv s -> draw P s fe = Some (s', tr) -> Inv s'.
Proof.
  intros HI H. unfold draw in H.
  destruct (frameInput fe) as [i|]; [|injection H as <- _; exact HI].
  set (sa := if pressed i (ovrButton_A P) then _ else s) in H.
  assert (Ia : Inv sa).
  { subst sa. destruct (pressed i (ovrButton_A P)); [|assumption].
    destruct (negb (a_hasPressed s)); [|assumption].
    apply Inv_with_a; [assumption|].
    pose proof (Z.rem_bound_pos (a_pressed s + 1) 4).
    pose proof (Inv_a_pressed HI). lia. }
  apply bind_Some in H. destruct H as (st1 & H1 & H).
  apply bind_Some in H. destruct H as (st2 & H2 & H).
  apply bind_Some in H. destruct H as (st3 & H3 & H).
  apply bind_Some in H. destruct H as (st4 & H4 & H).
  assert (I4 : Inv (fst st4))
    by (eapply (@draw_blocks_Inv fe (sa, [])); eassumption).
  injection H as <- _.
  destruct (negb (pressed i (ovrButton_A P)) && a_hasPressed (fst st4)); [|assumption].
  apply Inv_with_a; [assumption | apply (Inv_a_pressed I4)].
Qed.

Lemma Reachable_Inv s : Reachable P s -> Inv s.
Proof.
  induction 1 as [hmd_x proj m0 r0 p0 | s projection headPose whichEye env s' rc _ IH H
                  | s fe s' tr _ IH H].
  - apply Inv_new.
  - eapply renderScene_Inv; eassumption.
  - eapply draw_Inv; eassumption.
Qed.

(** A frame never runs into an undefined deque operation. *)
Lemma draw_defined s fe :
  Reachable P s -> exists s' tr, draw P s fe = Some (s', tr).
Proof.
  intros HR. apply Reachable_Inv in HR. unfold draw.
  destruct (frameInput fe) as [i|]; [|eauto].
  set (sa := if pressed i (ovrButton_A P) then _ else s).
  assert (Ia : Inv sa).
  { subst sa. destruct (pressed i (ovrButton_A P)); [|assumption].
    destruct (negb (a_hasPressed s)); [|assumption].
    apply Inv_with_a; [assumption|].
    pose proof (Z.rem_bound_pos (a_pressed s + 1) 4).
    pose proof (Inv_a_pressed HR). lia. }
  assert (two : forall st e1 w1 e2 w2, Inv (fst st) ->
            exists st', (x <- renderEye P fe e1 w1 st ;; renderEye P fe e2 w2 x) = Some st'
                        /\ Inv (fst st')).
  { intros st e1 w1 e2 w2 I.
    destruct (@renderEye_defined fe e1 w1 st I) as [x Hx].
    pose proof (renderEye_Inv _ _ _ _ I Hx) as Ix.
    destruct (@renderEye_defined fe e2 w2 x Ix) as [y Hy].
    exists y. rewrite Hx. cbn [bind]. split; [assumption|].
    eapply renderEye_Inv; eassumption. }
  assert (one : forall st e w, Inv (fst st) ->
            exists st', renderEye P fe e w st = Some st' /\ Inv (fst st')).
  { intros st e w I. destruct (@renderEye_defined fe e w st I) as [x Hx].
    exists x. split; [assumption|]. eapply renderEye_Inv; eassumption. }
  assert (B1 : exists st1,
             (if a_pressed (fst (sa, @nil RenderCall)) =? 0 then
                st <- renderEye P fe 0 0 (sa, []) ;; renderEye P fe 1 1 st
              else Some (sa, [])) = Some st1 /\ Inv (fst st1)).
  { destruct (_ =? 0); [apply two; assumption | eauto]. }
  destruct B1 as (st1 & E1 & I1). cbn [fst] in E1. rewrite E1. cbn [bind].
  assert (B2 : exists st2,
             (if a_pressed (fst st1) =? 1 then renderEye P fe 0 0 st1 else Some st1)
             = Some st2 /\ Inv (fst st2)).
  { destruct (_ =? 1); [apply one; assumption | eauto]. }
  destruct B2 as (st2 & E2 & I2). rewrite E2. cbn [bind].
  assert (B3 : exists st3,
             (if a_pressed (fst st2) =? 2 then renderEye P fe 1 1 st2 else Some st2)
             = Some st3 /\ Inv (fst st3)).
  { destruct (_ =? 2); [apply one; assumption | eauto]. }
  destruct B3 as (st3 & E3 & I3). rewrite E3. cbn [bind].
  assert (B4 : exists st4,
             (if a_pressed (fst st3) =? 3 then
                st <- renderEye P fe 0 (1 - 0) st3 ;; renderEye P fe 1 (1 - 1) st
              else Some st3) = Some st4 /\ Inv (fst st4)).
  { destruct (_ =? 3); [apply two; assumption | eauto]. }
  destruct B4 as (st4 & E4 & I4). rewrite E4. cbn [bind]. eauto.
Qed.

End FrameFacts.

(** ** C8 and C9: what holds in every reachable state *)

Section ReachableFacts.
Variable P : Platform.

Lemma run_Reachable cs : forall s tr,
  Reachable P s -> run P s cs = Some tr -> Reachable P (last (map fst tr) s).
Proof.
  induction cs as [|c cs IH]; intros s tr HR H.
  - injection H as <-. exact HR.
  - cbn [run] in H.
    apply bind_Some in H. destruct H as ([s1 rc] & H1 & H).
    apply bind_Some in H. destruct H as (tr' & H2 & H).
    injection H as <-. cbn [fst] in H2.
    assert (R1 : Reachable P s1) by (eapply Reachable_renderScene; eassumption).
    specialize (IH s1 tr' R1 H2).
    cbn [map fst]. rewrite last_cons. exact IH.
Qed.

Lemma stateAfter_Reachable s cs s' :
  Reachable P s -> stateAfter P s cs = Some s' -> Reachable P s'.
Proof.
  intros HR H. unfold stateAfter in H.
  apply bind_Some in H. destruct H as (tr & H1 & H).
  injection H as <-. eapply run_Reachable; eassumption.
Qed.

(** C8. In every reachable state, whatever sequence of trigger readings
    the calls have seen, [lagNum] is in [0, 59] and [delayNum] is in
    [0, 10]. *)
Theorem counters_stay_in_range :
  forall s, Reachable P s -> 0 <= lagNum s <= 59 /\ 0 <= delayNum s <= 10.
Proof.
  intros s HR. apply Reachable_Inv in HR.
  split; [apply (Inv_lagNum HR) | apply (Inv_delayNum HR)].
Qed.

(** C9. In every reachable state (after construction, after every call of
    [renderScene], after every frame) each of the three histories has
    exactly 60 entries. *)
Theorem history_lengths_are_60 :
  forall s, Reachable P s ->
    length (lringBuffer s) = 60%nat /\ length (rringBuffer s) = 60%nat
    /\ length (cringBuffer s) = 60%nat.
Proof.
  intros s HR. apply Reachable_Inv in HR.
  repeat split; [apply (Inv_lringBuffer HR) | apply (Inv_rringBuffer HR)
                 | apply (Inv_cringBuffer HR)].
Qed.

(** One recording leaves the length as it is, and a recording into a buffer
    of 60 entries is defined: the push is paired with the pop. *)
Lemma recordPose_keeps_60 (A : Type) (buf : list A) (pose : A) :
  length buf = 60%nat ->
  exists buf', recordPose buf pose = Some buf' /\ length buf' = 60%nat.
Proof.
  intros H. destruct (@recordPose_defined A buf pose ltac:(lia)) as [b Hb].
  exists b. split; [assumption|]. rewrite (recordPose_length _ _ Hb). assumption.
Qed.

End ReachableFacts.

(** Rapidly alternating edges: both index triggers and both hand triggers
    pressed and released in turn, for both eyes. *)
Lemma counters_stay_in_range_witness :
  let cs := Sample.cycles 3 Sample.right_index ++ Sample.cycles 2 Sample.left_index
            ++ Sample.cycles 12 Sample.right_hand ++ Sample.cycles 1 Sample.left_hand
            ++ [Sample.call 1 F32.two Sample.right_index;
                Sample.call 1 F32.two Sample.left_index] in
  exists s, stateAfter Sample.sdk Sample.app0 cs = Some s
            /\ 0 <= lagNum s <= 59 /\ 0 <= delayNum s <= 10.
Proof.
  intros cs.
  destruct (stateAfter Sample.sdk Sample.app0 cs) as [s|] eqn:E;
    [|vm_compute in E; discriminate].
  exists s. split; [reflexivity|].
  apply (@counters_stay_in_range Sample.sdk s).
  eapply stateAfter_Reachable; [apply Reachable_new | exact E].
Defined.

Lemma history_lengths_are_60_witness :
  let fe := mkFrameEnv (Sample.translation F32.one, Sample.translation F32.two)
                       (Some Sample.idle)
                       (Sample.reads (Sample.hand F32.one) Sample.idle,
                        Sample.reads (Sample.hand F32.two) Sample.idle) in
  exists s tr, draw Sample.sdk Sample.app0 fe = Some (s, tr)
    /\ length (lringBuffer s) = 60%nat /\ length (rringBuffer s) = 60%nat
    /\ length (cringBuffer s) = 60%nat.
Proof.
  intros fe.
  destruct (draw Sample.sdk Sample.app0 fe) as [[s tr]|] eqn:E;
    [|vm_compute in E; discriminate].
  exists s, tr. split; [reflexivity|].
  apply (@history_lengths_are_60 Sample.sdk s).
  eapply Reachable_draw; [apply Reachable_new | exact E].
Defined.

(** ** The histories over a run, and the lagged and the live pose *)

Section HistoryFacts.
Variable P : Platform.

(** Over a run, the left history receives the head poses of the calls for
    eye 0, one recording each, and nothing else. *)
Lemma left_history_after_run cs : forall s tr,
  run P s cs = Some tr ->
  recordAll (lringBuffer s) (left_poses cs) = Some (lringBuffer (last (map fst tr) s)).
Proof.
  induction cs as [|c cs IH]; intros s tr H.
  - injection H as <-. reflexivity.
  - cbn [run] in H.
    apply bind_Some in H. destruct H as ([s1 rc] & H1 & H).
    apply bind_Some in H. destruct H as (tr' & H2 & H).
    injection H as <-. cbn [fst] in H2.
    cbn [map fst]. rewrite last_cons.
    specialize (IH s1 tr' H2).
    apply renderScene_inv in H1. cbv zeta in H1.
    destruct H1 as (lring & rring & cring & lf & lagFrame & right &
                    Hl & _ & _ & _ & _ & _ & _ & Hs).
    assert (E : lringBuffer s1 = lring) by (subst s1; reflexivity).
    rewrite E in IH. unfold left_poses. cbn [filter].
    destruct (call_whichEye c =? 0).
    + cbn [map recordAll]. rewrite Hl. exact IH.
    + injection Hl as <-. exact IH.
Qed.

(** After a run with exactly 60 calls for eye 0 from a reachable state, the
    left history read at lag [l] is the head pose of the eye-0 call made [l]
    eye-0 calls before the last one. *)
Lemma lagged_pose_after_60_left_calls s cs tr (l : Z) :
  Reachable P s ->
  run P s cs = Some tr ->
  length (left_poses cs) = 60%nat ->
  0 <= l <= 59 ->
  exists p,
    retrieveLagged (lringBuffer (last (map fst tr) s)) l = Some p
    /\ nth_error (rev (left_poses cs)) (Z.to_nat l) = Some p.
Proof.
  intros HR H Hn Hl.
  pose proof (Inv_lringBuffer (Reachable_Inv HR)) as Hlen.
  assert (Hne : lringBuffer s <> [])
    by (destruct (lringBuffer s); [discriminate | congruence]).
  pose proof (left_history_after_run _ _ H) as Hrun.
  rewrite recordAll_full in Hrun by (assumption || congruence).
  destruct (retrieveLagged_defined (left_poses cs) Hn Hl) as [p Hp].
  exists p. split; [congruence|].
  rewrite <- retrieveLagged_rev by assumption. exact Hp.
Qed.

(** Without a delay, a call with a non-zero lag renders the entry of its
    eye's history at index [60 - lagNum - 1], and a call with no lag renders
    the head pose it was given. *)
Lemma lag_selects_history s projection headPose whichEye env s' rc :
  renderScene P s projection headPose whichEye env = Some (s', rc) ->
  delayNum s' = 0 ->
  (lagNum s' = 0 -> rc_view rc = inverse P headPose)
  /\ (0 < lagNum s' -> whichEye = 0 ->
      exists p, retrieveLagged (lringBuffer s') (lagNum s') = Some p
                /\ rc_view rc = inverse P p)
  /\ (0 < lagNum s' -> whichEye = 1 ->
      exists p, retrieveLagged (rringBuffer s') (lagNum s') = Some p
                /\ rc_view rc = inverse P p).
Proof.
  intros H Hd. apply renderScene_inv in H. cbv zeta in H.
  destruct H as (lring & rring & cring & lf & lagFrame & right &
                 _ & _ & _ & Hlf & Hlag & _ & Hrc & Hs).
  subst s' rc. cbn [delayNum lagNum rc_view lringBuffer rringBuffer] in *.
  unfold selectOutput. rewrite Hd. change (0 <? 0) with false. cbv iota.
  split; [intros ->; reflexivity|].
  split; intros Hpos ->; apply Z.ltb_lt in Hpos; rewrite Hpos.
  - change (0 =? 0) with true in Hlf. change (0 =? 1) with false in Hlag.
    injection Hlag as <-. eauto.
  - change (1 =? 1) with true in Hlag. eauto.
Qed.

(** Every call records the hand position once, and leaves the eye mode as
    it is. *)
Lemma renderScene_records_cursor s projection headPose whichEye env s' rc :
  renderScene P s projection headPose whichEye env = Some (s', rc) ->
  recordCursor (cringBuffer s) (handPosition1 env) = Some (cringBuffer s')
  /\ a_pressed s' = a_pressed s /\ a_hasPressed s' = a_hasPressed s.
Proof.
  intros H. apply renderScene_inv in H. cbv zeta in H.
  destruct H as (lring & rring & cring & lf & lagFrame & right &
                 _ & _ & Hc & _ & _ & _ & _ & Hs).
  subst s'. cbn [cringBuffer a_pressed a_hasPressed].
  rewrite pi_a_pressed, pi_a_hasPressed. auto.
Qed.

End HistoryFacts.

(** ** C5: what one trigger edge does *)

Section EdgeFacts.
Variable P : Platform.

Lemma renderScene_counters s projection headPose whichEye env i s' rc :
  callInput env = Some i ->
  renderScene P s projection headPose whichEye env = Some (s', rc) ->
  lagNum s' = fst (fst (input_lagNum i (lagNum s) (leftIndexP s) (rightIndexP s)))
  /\ delayNum s' = fst (fst (input_delayNum i (delayNum s) (leftThumbP s) (rightThumbP s))).
Proof.
  intros Hi H. apply renderScene_inv in H. cbv zeta in H.
  destruct H as (lring & rring & cring & lf & lagFrame & right &
                 _ & _ & _ & _ & _ & _ & _ & Hs).
  subst s'. cbn [lagNum delayNum]. rewrite Hi.
  pose proof (pi_lagNum P i headPose s) as E1. cbv zeta in E1.
  pose proof (pi_delayNum P i headPose s) as E2. cbv zeta in E2.
  rewrite <- E1, <- E2. split; reflexivity.
Qed.

(** C5, as the program has it.  One edge changes its counter by one step:
    an increment edge takes [lagNum] from [n] to [(n + 1) mod 60], so from
    59 to 0; a decrement edge takes it to [n - 1], and leaves 0 at 0; for
    [delayNum] the increment saturates at 10 and the decrement leaves 0 at
    0. *)
Theorem trigger_edge_effect :
  forall (e : Edge) s projection headPose whichEye env i s' rc,
    0 <= lagNum s <= 59 -> 0 <= delayNum s <= 10 ->
    callInput env = Some i ->
    is_edge e s i ->
    renderScene P s projection headPose whichEye env = Some (s', rc) ->
    edge_effect e s s'.
Proof.
  intros e s projection headPose whichEye env i s' rc Hlag Hdel Hi He H.
  destruct (renderScene_counters _ _ _ _ _ Hi H) as [El Ed].
  destruct e; cbn [is_edge] in He; cbn [edge_effect];
    destruct He as (Hon & Hflag & Hoff).
  - rewrite El. unfold input_lagNum. rewrite Hon, Hoff, Hflag. cbn [negb].
    destruct (F32.leb (fst (IndexTrigger i)) F32.half && leftIndexP s);
      destruct (F32.leb (snd (IndexTrigger i)) F32.half && true); cbn [fst];
      apply Z.rem_mod_nonneg; lia.
  - rewrite El. unfold input_lagNum. rewrite Hon, Hoff, Hflag. cbn [negb andb].
    case_ifs; bool_hyps; rem_bounds; try lia.
    rewrite Z.rem_small by lia. lia.
  - rewrite Ed. unfold input_delayNum. rewrite Hon, Hoff, Hflag. cbn [negb].
    case_ifs; bool_hyps; lia.
  - rewrite Ed. unfold input_delayNum. rewrite Hon, Hoff, Hflag. cbn [negb andb].
    case_ifs; bool_hyps; lia.
Qed.

End EdgeFacts.

(** The sample application reaches [lagNum = 59] by 59 press-and-release
    cycles of the right index trigger; the next press edge is an increment
    edge, and the call that sees it ends with [lagNum = 0], not 59. *)
Lemma lag_increment_at_59_wraps_to_0 :
  stateAfter Sample.sdk Sample.app0 (Sample.cycles 59 Sample.right_index)
    = Some Sample.at_lag_59
  /\ lagNum Sample.at_lag_59 = 59
  /\ is_edge LagUp Sample.at_lag_59 Sample.right_index
  /\ option_map (fun r => lagNum (fst r))
        (renderScene Sample.sdk Sample.at_lag_59 glm.mat4_1
           (Sample.translation F32.one) 0
           (Sample.reads (Sample.hand F32.one) Sample.right_index))
      = Some 0
  /\ option_map (fun r => lagNum (fst r))
        (renderScene Sample.sdk Sample.at_lag_59 glm.mat4_1
           (Sample.translation F32.one) 0
           (Sample.reads (Sample.hand F32.one) Sample.right_index))
      <> Some 59.
Proof.
  split; [vm_compute; reflexivity|].
  split; [reflexivity|].
  split; [repeat split|].
  split; [vm_compute; reflexivity | vm_compute; discriminate].
Qed.

Lemma trigger_edge_effect_witness :
  exists s' rc,
    renderScene Sample.sdk Sample.at_lag_59 glm.mat4_1 (Sample.translation F32.one) 0
      (Sample.reads (Sample.hand F32.one) Sample.right_index) = Some (s', rc)
    /\ edge_effect LagUp Sample.at_lag_59 s'.
Proof.
  destruct (renderScene Sample.sdk Sample.at_lag_59 glm.mat4_1
              (Sample.translation F32.one) 0
              (Sample.reads (Sample.hand F32.one) Sample.right_index))
    as [[s' rc]|] eqn:E; [|vm_compute in E; discriminate].
  exists s', rc. split; [reflexivity|].
  apply (@trigger_edge_effect Sample.sdk LagUp Sample.at_lag_59 glm.mat4_1
           (Sample.translation F32.one) 0
           (Sample.reads (Sample.hand F32.one) Sample.right_index)
           Sample.right_index s' rc).
  - change (lagNum Sample.at_lag_59) with 59. lia.
  - change (delayNum Sample.at_lag_59) with 0. lia.
  - reflexivity.
  - repeat split.
  - exact E.
Defined.

(** ** C2 and C10: which pose and which cursor a call renders *)

Section OutputFacts.
Variable P : Platform.

Lemma delayStep_left (d : Z) (h : mat4) (ld rd : Z) (lcf rcf rf : mat4) :
  ld < d ->
  delayStep 0 d h ld rd lcf rcf rf
  = (if d <=? ld + 1 then 0 else ld + 1, if d <=? rd then 0 else rd,
     if ld =? 0 then h else lcf, rcf, if ld =? 0 then h else lcf).
Proof.
  intros H. unfold delayStep. apply Z.ltb_lt in H. rewrite H.
  change (0 =? 0) with true. change (0 =? 1) with false.
  rewrite !andb_true_r, !andb_false_r.
  destruct (ld =? 0); reflexivity.
Qed.

Lemma delayStep_right (d : Z) (h : mat4) (ld rd : Z) (lcf rcf rf : mat4) :
  rd < d ->
  delayStep 1 d h ld rd lcf rcf rf
  = (if d <=? ld then 0 else ld, if d <=? rd + 1 then 0 else rd + 1,
     lcf, if rd =? 0 then h else rcf, if rd =? 0 then h else rcf).
Proof.
  intros H. unfold delayStep. apply Z.ltb_lt in H. rewrite H.
  change (1 =? 0) with false. change (1 =? 1) with true.
  rewrite !andb_true_r, !andb_false_r.
  destruct (rd =? 0); reflexivity.
Qed.

(** With a non-zero delay the call renders [renderFrame], whatever the lag. *)
Lemma delay_selects_renderFrame s projection headPose whichEye env s' rc :
  renderScene P s projection headPose whichEye env = Some (s', rc) ->
  0 < delayNum s' ->
  rc_view rc = inverse P (renderFrame s').
Proof.
  intros H Hd. apply renderScene_inv in H. cbv zeta in H.
  destruct H as (lring & rring & cring & lf & lagFrame & right &
                 _ & _ & _ & _ & _ & _ & Hrc & Hs).
  subst s' rc. cbn [rc_view renderFrame delayNum] in *.
  unfold selectOutput. apply Z.ltb_lt in Hd. rewrite Hd. reflexivity.
Qed.

(** C2. When the call ends with both [lagNum] and [delayNum] non-zero, the
    pose handed to the renderer is the one the delay block holds in
    [renderFrame], not the lagged pose read from the history; and as long as
    the eye's delay counter is below the delay, that is the eye's own frozen
    pose ([leftCurFrame] for eye 0, [rightCurFrame] for eye 1). *)
Theorem render_delay_takes_precedence :
  forall s projection headPose whichEye env s' rc,
    renderScene P s projection headPose whichEye env = Some (s', rc) ->
    0 < lagNum s' -> 0 < delayNum s' ->
    rc_view rc = inverse P (renderFrame s')
    /\ (whichEye = 0 -> ldelayRender s < delayNum s' -> renderFrame s' = leftCurFrame s')
    /\ (whichEye = 1 -> rdelayRender s < delayNum s' -> renderFrame s' = rightCurFrame s').
Proof.
  intros s projection headPose whichEye env s' rc H Hlag Hdel.
  split; [eapply delay_selects_renderFrame; eassumption|].
  apply renderScene_inv in H. cbv zeta in H.
  destruct H as (lring & rring & cring & lf & lagFrame & right &
                 _ & _ & _ & _ & _ & _ & _ & Hs).
  subst s'. cbn [renderFrame leftCurFrame rightCurFrame delayNum] in *.
  rewrite pi_ldelayRender, pi_rdelayRender.
  split; intros -> Hc.
  - rewrite delayStep_left by assumption. reflexivity.
  - rewrite delayStep_right by assumption. reflexivity.
Qed.

(** The cursor handed to the renderer is the entry of the
    controller-position history, as it is after this call's recording, at
    index [60 - lagNum - 1] for the [lagNum] the call ends with: counted back
    from this call's own recording, which is entry 0, it is entry [lagNum].
    Nothing else enters: a call on any other state with the same history and
    the same lag members, for any eye, head pose and delay state, hands over
    the same cursor. *)
Theorem cursor_follows_tracking_lag_only :
  forall s projection headPose whichEye env s' rc,
    renderScene P s projection headPose whichEye env = Some (s', rc) ->
    recordCursor (cringBuffer s) (handPosition1 env) = Some (cringBuffer s')
    /\ deque.at_ (cringBuffer s') (60 - lagNum s' - 1) = Some (rc_right rc)
    /\ (length (cringBuffer s) = 60%nat -> 0 <= lagNum s' <= 59 ->
        nth_error (rev (cringBuffer s')) 0 = Some (handPosition1 env)
        /\ nth_error (rev (cringBuffer s')) (Z.to_nat (lagNum s')) = Some (rc_right rc))
    /\ (forall t projection2 headPose2 whichEye2 t' rc',
          cringBuffer t = cringBuffer s -> lagNum t = lagNum s ->
          leftIndexP t = leftIndexP s -> rightIndexP t = rightIndexP s ->
          renderScene P t projection2 headPose2 whichEye2 env = Some (t', rc') ->
          rc_right rc' = rc_right rc).
Proof.
  intros s projection headPose whichEye env s' rc H.
  assert (Hlag : forall u h,
             lagNum (processInput P (callInput env) h u)
             = match callInput env with
               | Some i => fst (fst (input_lagNum i (lagNum u) (leftIndexP u) (rightIndexP u)))
               | None => lagNum u
               end).
  { intros u h. destruct (callInput env) as [i|]; [|reflexivity].
    pose proof (pi_lagNum P i h u) as E. cbv zeta in E. rewrite <- E. reflexivity. }
  apply renderScene_inv in H. cbv zeta in H.
  destruct H as (lring & rring & cring & lf & lagFrame & right &
                 _ & _ & Hc & _ & _ & Hright & Hrc & Hs).
  subst s' rc. cbn [cringBuffer lagNum rc_right].
  split; [exact Hc|]. split; [exact Hright|].
  split.
  { intros Hlen Hrange.
    assert (Hlen' : length cring = 60%nat)
      by (rewrite (recordPose_length _ _ Hc); exact Hlen).
    split.
    - destruct (cringBuffer s) as [|a t]; [discriminate Hlen|].
      injection Hc as <-. unfold deque.push_back.
      rewrite rev_app_distr. reflexivity.
    - rewrite <- (retrieveLagged_rev cring Hlen' Hrange). exact Hright. }
  intros t projection2 headPose2 whichEye2 t' rc' Ec El Ea Eb H'.
  apply renderScene_inv in H'. cbv zeta in H'.
  destruct H' as (lring' & rring' & cring' & lf' & lagFrame' & right' &
                  _ & _ & Hc' & _ & _ & Hright' & Hrc' & _).
  subst rc'. cbn [rc_right].
  rewrite Ec, Hc in Hc'. injection Hc' as <-.
  rewrite (Hlag t), El, Ea, Eb, <- (Hlag s headPose), Hright in Hright'.
  congruence.
Qed.

End OutputFacts.

Lemma render_delay_takes_precedence_witness :
  exists s' rc,
    renderScene Sample.sdk Sample.lag2_delay3 glm.mat4_1 (Sample.translation F32.ten) 0
      (Sample.reads (Sample.hand F32.ten) Sample.idle) = Some (s', rc)
    /\ rc_view rc = inverse Sample.sdk (renderFrame s')
    /\ renderFrame s' = leftCurFrame s'
    /\ leftCurFrame s' = Sample.translation F32.ten.
Proof.
  destruct (renderScene Sample.sdk Sample.lag2_delay3 glm.mat4_1
              (Sample.translation F32.ten) 0
              (Sample.reads (Sample.hand F32.ten) Sample.idle))
    as [[s' rc]|] eqn:E; [|vm_compute in E; discriminate].
  pose proof E as C. vm_compute in C. injection C as <- <-.
  match type of E with _ = Some (?x, ?y) => set (s' := x) in *; set (rc := y) in * end.
  exists s', rc. split; [reflexivity|].
  destruct (@render_delay_takes_precedence Sample.sdk Sample.lag2_delay3 glm.mat4_1
              (Sample.translation F32.ten) 0
              (Sample.reads (Sample.hand F32.ten) Sample.idle) s' rc E)
    as (A & B & _).
  - vm_compute. reflexivity.
  - vm_compute. reflexivity.
  - split; [exact A|]. split; [apply B; [reflexivity | vm_compute; reflexivity]|].
    vm_compute. reflexivity.
Defined.

Lemma cursor_follows_tracking_lag_only_witness :
  exists s' rc,
    renderScene Sample.sdk Sample.lag2_delay3 glm.mat4_1 (Sample.translation F32.ten) 0
      (Sample.reads (Sample.hand F32.ten) Sample.idle) = Some (s', rc)
    /\ recordCursor (cringBuffer Sample.lag2_delay3) (Sample.hand F32.ten)
       = Some (cringBuffer s')
    /\ deque.at_ (cringBuffer s') (60 - lagNum s' - 1) = Some (rc_right rc).
Proof.
  destruct (renderScene Sample.sdk Sample.lag2_delay3 glm.mat4_1
              (Sample.translation F32.ten) 0
              (Sample.reads (Sample.hand F32.ten) Sample.idle))
    as [[s' rc]|] eqn:E; [|vm_compute in E; discriminate].
  exists s', rc. split; [reflexivity|].
  destruct (@cursor_follows_tracking_lag_only Sample.sdk Sample.lag2_delay3 glm.mat4_1
              (Sample.translation F32.ten) 0
              (Sample.reads (Sample.hand F32.ten) Sample.idle) s' rc E)
    as (A & B & _ & _).
  split; [exact A | exact B].
Defined.

(** ** C3: the interocular distance *)

Lemma SFcompare_antisym (x y : float) :
  SFcompare y x = option_map CompOpp (SFcompare x y).
Proof.
  destruct x as [sx|sx| |sx mx ex], y as [sy|sy| |sy my ey]; cbn;
    try reflexivity;
    try (destruct sx; reflexivity); try (destruct sy; reflexivity);
    try (destruct sx, sy; reflexivity).
  assert (Hm : forall p q, Pos.compare_cont Eq p q = CompOpp (Pos.compare_cont Eq q p))
    by (intros p q; apply (Pos.compare_antisym q p)).
  rewrite (Z.compare_antisym ey ex), (Hm mx my).
  destruct sx, sy, (ey ?= ex), (Pos.compare_cont Eq my mx); reflexivity.
Qed.

(** For numbers, [not (x < y)] is [y <= x]. *)
Lemma F32_not_ltb_leb (x y : float) :
  F32.is_nan x = false -> F32.is_nan y = false ->
  F32.ltb x y = false -> F32.leb y x = true.
Proof.
  unfold F32.ltb, F32.leb, SFltb, SFleb. intros Hx Hy.
  rewrite (SFcompare_antisym x y).
  destruct x, y; try discriminate; cbn in *;
    repeat match goal with
    | |- context [match ?c with Eq => _ | Lt => _ | Gt => _ end] => destruct c; cbn
    | |- context [if ?b then _ else _] => destruct b; cbn
    end; congruence.
Qed.

(** What [setIOD] clamps is the distance [iod + iodOffset]: the result is
    neither below -0.1f nor above 0.3f, and is a number whenever the sum is. *)
Lemma setIOD_newIOD_clamped (iod iodOffset : float) :
  let n := setIOD_newIOD iod iodOffset in
  F32.ltb n (F32.opp F32.f0_1) = false /\ F32.gtb n F32.f0_3 = false
  /\ (F32.is_nan (F32.add iod iodOffset) = false ->
      F32.is_nan n = false
      /\ F32.leb (F32.opp F32.f0_1) n = true /\ F32.leb n F32.f0_3 = true).
Proof.
  cbv zeta. unfold setIOD_newIOD.
  set (x := F32.add iod iodOffset).
  assert (core :
    let n := (let m := if F32.ltb x (F32.opp F32.f0_1) then F32.opp F32.f0_1 else x in
              if F32.gtb m F32.f0_3 then F32.f0_3 else m) in
    F32.ltb n (F32.opp F32.f0_1) = false /\ F32.gtb n F32.f0_3 = false
    /\ (F32.is_nan x = false -> F32.is_nan n = false)).
  { cbv zeta.
    destruct (F32.ltb x (F32.opp F32.f0_1)) eqn:E1.
    - change (F32.gtb (F32.opp F32.f0_1) F32.f0_3) with false. cbv iota.
      repeat split; reflexivity.
    - destruct (F32.gtb x F32.f0_3) eqn:E2.
      + repeat split; reflexivity.
      + repeat split; auto. }
  cbv zeta in core. destruct core as (A & B & C).
  split; [exact A|]. split; [exact B|].
  intros Hx. specialize (C Hx). split; [exact C|].
  split.
  - apply F32_not_ltb_leb; [exact C | reflexivity | exact A].
  - apply F32_not_ltb_leb; [reflexivity | exact C | exact B].
Qed.

Section IodFacts.
Variable P : Platform.

(** C3, as the program has it.  In a call that sees the right thumbstick
    deflected, the accumulator [iodOffset] becomes the old value plus
    [x / 100] (or 0 when the thumbstick button is down) and is stored as it
    is; what is clamped is the distance [iod + iodOffset] inside [setIOD],
    from which the two eye offsets are written: it is never below -0.1f nor
    above 0.3f. *)
Theorem interocular_distance_is_clamped :
  forall s projection headPose whichEye env i s' rc,
    callInput env = Some i ->
    F32.truthy (snd (Thumbstick_x i)) = true ->
    renderScene P s projection headPose whichEye env = Some (s', rc) ->
    iodOffset s'
      = (if pressed i (ovrButton_RThumb P) then F32.zero
         else F32.add (iodOffset s) (F32.div (snd (Thumbstick_x i)) F32.hundred))
    /\ HmdToEyePose_x s' = setIOD (iod s) (iodOffset s')
    /\ F32.ltb (setIOD_newIOD (iod s) (iodOffset s')) (F32.opp F32.f0_1) = false
    /\ F32.gtb (setIOD_newIOD (iod s) (iodOffset s')) F32.f0_3 = false
    /\ (F32.is_nan (F32.add (iod s) (iodOffset s')) = false ->
        F32.leb (F32.opp F32.f0_1) (setIOD_newIOD (iod s) (iodOffset s')) = true
        /\ F32.leb (setIOD_newIOD (iod s) (iodOffset s')) F32.f0_3 = true).
Proof.
  intros s projection headPose whichEye env i s' rc Hi Hx H.
  apply renderScene_inv in H. cbv zeta in H.
  destruct H as (lring & rring & cring & lf & lagFrame & right &
                 _ & _ & _ & _ & _ & _ & _ & Hs).
  subst s'. cbn [iodOffset HmdToEyePose_x]. rewrite Hi.
  pose proof (pi_iodOffset P i headPose s) as E. cbv zeta in E.
  assert (E' : input_iodOffset P i (iod s) (iodOffset s) (HmdToEyePose_x s)
               = (let off := if pressed i (ovrButton_RThumb P) then F32.zero
                             else F32.add (iodOffset s)
                                          (F32.div (snd (Thumbstick_x i)) F32.hundred) in
                  (off, setIOD (iod s) off))).
  { unfold input_iodOffset. rewrite Hx.
    destruct (pressed i (ovrButton_RThumb P)); reflexivity. }
  rewrite E' in E. cbv zeta in E.
  pose proof (f_equal fst E) as E1. pose proof (f_equal snd E) as E2.
  cbn [fst snd] in E1, E2. rewrite E1, E2.
  split; [reflexivity|]. split; [reflexivity|].
  destruct (setIOD_newIOD_clamped (iod s)
              (if pressed i (ovrButton_RThumb P) then F32.zero
               else F32.add (iodOffset s) (F32.div (snd (Thumbstick_x i)) F32.hundred)))
    as (A & B & C).
  split; [exact A|]. split; [exact B|].
  intros Hn. apply (C Hn).
Qed.

End IodFacts.

(** The right thumbstick held fully to the right for 50 calls (25 frames of
    both eyes): the accumulator ends near 0.5, above the upper bound 0.3f of
    the only range the program has, while the eye offsets stay at -0.15 and
    0.15. *)
Lemma iodOffset_exceeds_the_range :
  let cs := repeat (Sample.call 0 F32.one (Sample.right_stick F32.one)) 50 in
  option_map (fun s => (iodOffset s, HmdToEyePose_x s))
    (stateAfter Sample.sdk Sample.app0 cs)
  = Some (F32.lit 16777209 (-25),
          (S754_finite true 10066330 (-26), F32.lit 10066330 (-26)))
  /\ F32.gtb (F32.lit 16777209 (-25)) F32.f0_3 = true
  /\ F32.gtb (F32.add (iod Sample.app0) (F32.lit 16777209 (-25))) F32.f0_3 = true.
Proof.
  cbv zeta. split; [vm_compute; reflexivity|].
  split; vm_compute; reflexivity.
Qed.

Lemma interocular_distance_is_clamped_witness :
  exists s' rc,
    renderScene Sample.sdk Sample.app0 glm.mat4_1 (Sample.translation F32.one) 0
      (Sample.reads (Sample.hand F32.one) (Sample.right_stick F32.hundred)) = Some (s', rc)
    /\ iodOffset s' = F32.one
    /\ HmdToEyePose_x s' = setIOD (iod Sample.app0) (iodOffset s')
    /\ F32.gtb (setIOD_newIOD (iod Sample.app0) (iodOffset s')) F32.f0_3 = false.
Proof.
  destruct (renderScene Sample.sdk Sample.app0 glm.mat4_1 (Sample.translation F32.one) 0
              (Sample.reads (Sample.hand F32.one) (Sample.right_stick F32.hundred)))
    as [[s' rc]|] eqn:E; [|vm_compute in E; discriminate].
  exists s', rc. split; [reflexivity|].
  destruct (@interocular_distance_is_clamped Sample.sdk Sample.app0 glm.mat4_1
              (Sample.translation F32.one) 0
              (Sample.reads (Sample.hand F32.one) (Sample.right_stick F32.hundred))
              (Sample.right_stick F32.hundred) s' rc
              eq_refl eq_refl E) as (A & B & _ & D & _).
  split; [|split; assumption].
  rewrite A. vm_compute. reflexivity.
Defined.

(** ** C4: how often a frame records the cursor *)

Section FrameCursorFacts.
Variable P : Platform.

Lemma renderEye_records fe eye whichEye s0 tr0 st :
  renderEye P fe eye whichEye (s0, tr0) = Some st ->
  exists s1 rc,
    st = (s1, tr0 ++ [rc])
    /\ recordCursor (cringBuffer s0) (handPosition1 (nthEnv fe (length tr0)))
       = Some (cringBuffer s1)
    /\ a_pressed s1 = a_pressed s0.
Proof.
  intros H. unfold renderEye in H.
  apply bind_Some in H. destruct H as ([s1 rc] & H1 & H).
  injection H as <-. cbn [fst snd].
  destruct (@renderScene_records_cursor P _ _ _ _ _ _ _ H1) as (A & B & _).
  exists s1, rc. auto.
Qed.

(** A frame whose controller read succeeds makes one [renderScene] call in
    the single-eye modes 1 and 2 and two calls in the modes 0 and 3, and the
    cursor history receives one recording per call. *)
Lemma frame_records_cursor_per_call s fe i s' tr :
  0 <= a_pressed s < 4 ->
  frameInput fe = Some i ->
  draw P s fe = Some (s', tr) ->
  recordAll (cringBuffer s)
    (firstn (length tr) [handPosition1 (fst (callEnvs fe));
                         handPosition1 (snd (callEnvs fe))])
  = Some (cringBuffer s')
  /\ length tr = if (a_pressed s' =? 1) || (a_pressed s' =? 2) then 1%nat else 2%nat.
Proof.
  intros Ha Hi H. unfold draw in H. rewrite Hi in H.
  set (sa := if pressed i (ovrButton_A P) then _ else s) in H.
  assert (Hsa : cringBuffer sa = cringBuffer s /\ 0 <= a_pressed sa < 4).
  { subst sa. destruct (pressed i (ovrButton_A P)); [|auto].
    destruct (negb (a_hasPressed s)); [|auto].
    cbn [with_a cringBuffer a_pressed].
    pose proof (Z.rem_bound_pos (a_pressed s + 1) 4). split; [reflexivity | lia]. }
  destruct Hsa as [Hc Hr]. rewrite <- Hc. clear Hc.
  apply bind_Some in H. destruct H as (st1 & H1 & H).
  apply bind_Some in H. destruct H as (st2 & H2 & H).
  apply bind_Some in H. destruct H as (st3 & H3 & H).
  apply bind_Some in H. destruct H as (st4 & H4 & H).
  assert (Hfin : cringBuffer s' = cringBuffer (fst st4)
                 /\ a_pressed s' = a_pressed (fst st4) /\ tr = snd st4).
  { injection H as <- <-.
    destruct (negb (pressed i (ovrButton_A P)) && a_hasPressed (fst st4)); auto. }
  destruct Hfin as (Fc & Fa & Ft). rewrite Fc, Fa, Ft. clear H Fc Fa Ft.
  assert (Hcase : a_pressed sa = 0 \/ a_pressed sa = 1 \/ a_pressed sa = 2
                  \/ a_pressed sa = 3) by lia.
  cbn [fst] in H1.
  destruct Hcase as [E | [E | [E | E]]]; rewrite E in H1; cbn [Z.eqb Pos.eqb] in H1.
  - apply bind_Some in H1. destruct H1 as (sta & Ha1 & Hb1).
    apply renderEye_records in Ha1. destruct Ha1 as (x & rc0 & -> & Cx & Ax).
    apply renderEye_records in Hb1. destruct Hb1 as (y & rc1 & -> & Cy & Ay).
    rewrite Ax in Ay. rewrite E in Ay.
    cbn [fst] in H2. rewrite Ay in H2. cbn [Z.eqb Pos.eqb] in H2. injection H2 as <-.
    cbn [fst] in H3. rewrite Ay in H3. cbn [Z.eqb Pos.eqb] in H3. injection H3 as <-.
    cbn [fst] in H4. rewrite Ay in H4. cbn [Z.eqb Pos.eqb] in H4. injection H4 as <-.
    cbn [fst snd app length firstn nthEnv recordAll] in *.
    rewrite Ay. unfold recordCursor in *. rewrite Cx. cbn [bind].
    rewrite Cy. cbn [bind]. split; reflexivity.
  - injection H1 as <-. cbn [fst] in H2. rewrite E in H2. cbn [Z.eqb Pos.eqb] in H2.
    apply renderEye_records in H2. destruct H2 as (x & rc0 & -> & Cx & Ax).
    rewrite E in Ax.
    cbn [fst] in H3. rewrite Ax in H3. cbn [Z.eqb Pos.eqb] in H3. injection H3 as <-.
    cbn [fst] in H4. rewrite Ax in H4. cbn [Z.eqb Pos.eqb] in H4. injection H4 as <-.
    cbn [fst snd app length firstn nthEnv recordAll] in *.
    rewrite Ax. unfold recordCursor in *. rewrite Cx. split; reflexivity.
  - injection H1 as <-. cbn [fst] in H2. rewrite E in H2.
    cbn [Z.eqb Pos.eqb] in H2. injection H2 as <-.
    cbn [fst] in H3. rewrite E in H3. cbn [Z.eqb Pos.eqb] in H3.
    apply renderEye_records in H3. destruct H3 as (x & rc0 & -> & Cx & Ax).
    rewrite E in Ax.
    cbn [fst] in H4. rewrite Ax in H4. cbn [Z.eqb Pos.eqb] in H4. injection H4 as <-.
    cbn [fst snd app length firstn nthEnv recordAll] in *.
    rewrite Ax. unfold recordCursor in *. rewrite Cx. split; reflexivity.
  - injection H1 as <-. cbn [fst] in H2. rewrite E in H2.
    cbn [Z.eqb Pos.eqb] in H2. injection H2 as <-.
    cbn [fst] in H3. rewrite E in H3.
    cbn [Z.eqb Pos.eqb] in H3. injection H3 as <-.
    cbn [fst] in H4. rewrite E in H4. cbn [Z.eqb Pos.eqb] in H4.
    apply bind_Some in H4. destruct H4 as (sta & Ha1 & Hb1).
    apply renderEye_records in Ha1. destruct Ha1 as (x & rc0 & -> & Cx & Ax).
    apply renderEye_records in Hb1. destruct Hb1 as (y & rc1 & -> & Cy & Ay).
    rewrite Ax in Ay. rewrite E in Ay.
    cbn [fst snd app length firstn nthEnv recordAll] in *.
    rewrite Ay. unfold recordCursor in *. rewrite Cx. cbn [bind].
    rewrite Cy. cbn [bind]. split; reflexivity.
Qed.

End FrameCursorFacts.

(** C4, evaluated.  A frame in the default mode ([a_pressed = 0], both eyes)
    on the constructed application makes two [renderScene] calls, and each
    records the hand position it reads: the history loses two entries and
    gains two, and no single recording leads from the old history to the new
    one.  A frame in the left-eye mode (button A pressed once) makes one call
    and one recording. *)
Lemma stereo_frame_records_cursor_twice :
  let envs := (Sample.reads (Sample.hand F32.two) Sample.idle,
               Sample.reads (Sample.hand F32.ten) Sample.idle) in
  let poses := (Sample.translation F32.one, Sample.translation F32.two) in
  let stereo := mkFrameEnv poses (Some Sample.idle) envs in
  let left_only := mkFrameEnv poses (Some (Sample.button 1)) envs in
  option_map (fun r => (length (snd r), cringBuffer (fst r)))
    (draw Sample.sdk Sample.app0 stereo)
  = Some (2%nat, repeat glm.vec3_1 58 ++ [Sample.hand F32.two; Sample.hand F32.ten])
  /\ (forall c s' tr,
        draw Sample.sdk Sample.app0 stereo = Some (s', tr) ->
        recordCursor (cringBuffer Sample.app0) c <> Some (cringBuffer s'))
  /\ option_map (fun r => (length (snd r), cringBuffer (fst r)))
       (draw Sample.sdk Sample.app0 left_only)
     = Some (1%nat, repeat glm.vec3_1 59 ++ [Sample.hand F32.two]).
Proof.
  cbv zeta. split; [vm_compute; reflexivity|].
  split; [|vm_compute; reflexivity].
  intros c s' tr H Hc.
  assert (E : nth_error (cringBuffer s') 58 = Some (Sample.hand F32.two)).
  { revert H. vm_compute. intros H. injection H as <- _. reflexivity. }
  assert (E' : forall b, recordCursor (cringBuffer Sample.app0) c = Some b ->
                         nth_error b 58 = Some glm.vec3_1).
  { intros b Hb. vm_compute in Hb. injection Hb as <-. reflexivity. }
  rewrite (E' _ Hc) in E. discriminate E.
Qed.

(** With a lag of 2 and three frames of both eyes, the head at 2, 10 and 100
    and the hand at the same places: the third frame's call for eye 0 renders
    the head pose of the first frame, two frames old, and the hand position
    of the second frame, one frame old. *)
Lemma stereo_cursor_is_half_as_stale :
  let cs := [Sample.call 0 F32.two Sample.idle; Sample.call 1 F32.two Sample.idle;
             Sample.call 0 F32.ten Sample.idle; Sample.call 1 F32.ten Sample.idle;
             Sample.call 0 F32.hundred Sample.idle] in
  lagNum Sample.at_lag_2 = 2 /\ delayNum Sample.at_lag_2 = 0
  /\ option_map (fun tr => option_map (fun r => (rc_view (snd r), rc_right (snd r)))
                                      (nth_error tr 4))
       (run Sample.sdk Sample.at_lag_2 cs)
     = Some (Some (inverse Sample.sdk (Sample.translation F32.two),
                   Sample.hand F32.ten)).
Proof.
  cbv zeta. repeat split; vm_compute; reflexivity.
Qed.

(** ** C10: how stale the cursor is *)

(** C10, evaluated.  Frames drawn by [draw], the head and the hand at the
    same place [x] during a frame, nothing pressed during the calls.
    In the default mode (both eyes), with a lag of 2 and three frames at 2,
    10 and 100, both calls of the third frame render the head pose of the
    first frame, two frames old, but the hand position of the second frame,
    one frame old.  With a lag of 1 and two frames at 2 and 10, both calls of
    the second frame render the head pose of the first frame; the call for
    eye 0 draws the cursor of the first frame and the call for eye 1 the
    cursor of the second frame itself, which is not stale at all.  In the
    left-eye mode (button A down from the first frame on) with a lag of 2,
    the third frame renders the head pose and the hand position of the
    first frame: only there is the cursor [lagNum] frames stale. *)
Theorem stereo_cursor_is_not_lagNum_frames_stale :
  let shown (r : ExampleApp * list RenderCall) :=
    map (fun rc => (rc_whichEye rc, rc_view rc, rc_right rc)) (snd r) in
  let stereo x := Sample2.frame x x (Some Sample.idle) in
  let left_only x := Sample2.frame x x (Some (Sample.button 1)) in
  let was x := inverse Sample.sdk (Sample.translation x) in
  (lagNum Sample.at_lag_2 = 2 /\ delayNum Sample.at_lag_2 = 0
   /\ a_pressed Sample.at_lag_2 = 0)
  /\ (r1 <- draw Sample.sdk Sample.at_lag_2 (stereo F32.two) ;;
      r2 <- draw Sample.sdk (fst r1) (stereo F32.ten) ;;
      r3 <- draw Sample.sdk (fst r2) (stereo F32.hundred) ;;
      Some (lagNum (fst r3), shown r3))
     = Some (2, [(0, was F32.two, Sample.hand F32.ten);
                 (1, was F32.two, Sample.hand F32.ten)])
  /\ (s <- stateAfter Sample.sdk Sample.app0 (Sample.cycles 1 Sample.right_index) ;;
      r1 <- draw Sample.sdk s (stereo F32.two) ;;
      r2 <- draw Sample.sdk (fst r1) (stereo F32.ten) ;;
      Some (lagNum s, lagNum (fst r2), shown r2))
     = Some (1, 1, [(0, was F32.two, Sample.hand F32.two);
                    (1, was F32.two, Sample.hand F32.ten)])
  /\ (r1 <- draw Sample.sdk Sample.at_lag_2 (left_only F32.two) ;;
      r2 <- draw Sample.sdk (fst r1) (left_only F32.ten) ;;
      r3 <- draw Sample.sdk (fst r2) (left_only F32.hundred) ;;
      Some (lagNum (fst r3), shown r3))
     = Some (2, [(0, was F32.two, Sample.hand F32.two)]).
Proof.
  cbv zeta. repeat split; vm_compute; reflexivity.
Qed.

(** ** C6: the render delay *)

Section DelayFacts.
Variable P : Platform.

(** A call for eye 0 whose counter is below the delay: the pose is captured
    when the counter is 0, the captured pose is rendered, and the counter
    advances, back to 0 when it reaches the delay. *)
Lemma left_call_delay s projection headPose env s' rc :
  renderScene P s projection headPose 0 env = Some (s', rc) ->
  0 <= ldelayRender s < delayNum s' ->
  leftCurFrame s' = (if ldelayRender s =? 0 then headPose else leftCurFrame s)
  /\ ldelayRender s'
     = (if delayNum s' <=? ldelayRender s + 1 then 0 else ldelayRender s + 1)
  /\ rc_view rc = inverse P (leftCurFrame s')
  /\ rc_whichEye rc = 0.
Proof.
  intros H Hc.
  assert (Hv : rc_view rc = inverse P (renderFrame s'))
    by (eapply delay_selects_renderFrame; [eassumption | lia]).
  rewrite Hv. clear Hv.
  apply renderScene_inv in H. cbv zeta in H.
  destruct H as (lring & rring & cring & lf & lagFrame & right &
                 _ & _ & _ & _ & _ & _ & Hrc & Hs).
  subst s' rc.
  cbn [renderFrame leftCurFrame ldelayRender delayNum rc_whichEye] in *.
  rewrite pi_ldelayRender, pi_leftCurFrame in *.
  rewrite delayStep_left by lia. cbn [fst snd]. repeat split; reflexivity.
Qed.

(** A call for another eye leaves the left counter and the left captured
    pose as they are. *)
Lemma other_call_keeps_left s projection headPose whichEye env s' rc :
  whichEye <> 0 ->
  renderScene P s projection headPose whichEye env = Some (s', rc) ->
  ldelayRender s < delayNum s' ->
  leftCurFrame s' = leftCurFrame s /\ ldelayRender s' = ldelayRender s
  /\ rc_whichEye rc = whichEye.
Proof.
  intros He H Hc.
  apply renderScene_inv in H. cbv zeta in H.
  destruct H as (lring & rring & cring & lf & lagFrame & right &
                 _ & _ & _ & _ & _ & _ & Hrc & Hs).
  subst s' rc. cbn [leftCurFrame ldelayRender delayNum rc_whichEye] in *.
  rewrite pi_ldelayRender, pi_leftCurFrame in *.
  apply Z.eqb_neq in He. unfold delayStep. rewrite He, !andb_false_r.
  apply Z.leb_gt in Hc.
  destruct ((rdelayRender _ =? 0) && (whichEye =? 1));
    destruct ((rdelayRender _ <? _) && (whichEye =? 1));
    cbn [fst snd]; rewrite ?Hc; repeat split; reflexivity.
Qed.

(** Over a run during which the delay is [d], the views of eye 0 are the
    poses of eye 0 held for [d] calls each. *)
Lemma left_views_held (d : Z) (cs : list Call) : forall s tr,
  0 <= ldelayRender s < d ->
  run P s cs = Some tr ->
  forallb (fun r => delayNum (fst r) =? d) tr = true ->
  left_views tr
  = map (inverse P) (held d (ldelayRender s) (leftCurFrame s) (left_poses cs)).
Proof.
  induction cs as [|c cs IH]; intros s tr Hk H Hd.
  - injection H as <-. reflexivity.
  - cbn [run] in H.
    apply bind_Some in H. destruct H as ([s1 rc] & H1 & H).
    apply bind_Some in H. destruct H as (tr' & H2 & H).
    injection H as <-. cbn [fst] in H2.
    cbn [forallb fst] in Hd. apply andb_true_iff in Hd. destruct Hd as [Hd1 Hd].
    apply Z.eqb_eq in Hd1.
    unfold left_views, left_poses. cbn [filter snd].
    destruct (call_whichEye c =? 0) eqn:Ee.
    + apply Z.eqb_eq in Ee. rewrite Ee in H1.
      destruct (@left_call_delay s _ _ _ s1 rc H1 ltac:(lia)) as (A & B & C & D).
      rewrite D. change (0 =? 0) with true. cbn [map held snd].
      rewrite C, A. f_equal.
      rewrite Hd1 in B. rewrite <- A, <- B.
      apply IH; [|assumption|assumption].
      rewrite B. destruct (d <=? ldelayRender s + 1) eqn:E; bool_hyps; lia.
    + apply Z.eqb_neq in Ee.
      destruct (@other_call_keeps_left s _ _ _ _ s1 rc Ee H1 ltac:(lia)) as (A & B & C).
      rewrite C. apply Z.eqb_neq in Ee. rewrite Ee.
      rewrite <- A, <- B. apply IH; [lia|assumption|assumption].
Qed.

(** C6. With the delay at 3 throughout and the left counter at 0, four
    successive calls for eye 0 (calls for the other eye may come between
    them) render the first call's head pose three times, and the fourth
    call's head pose the fourth time. *)
Theorem render_delay_3_holds_pose_for_3_frames :
  forall s cs tr h1 h2 h3 h4,
    ldelayRender s = 0 ->
    run P s cs = Some tr ->
    forallb (fun r => delayNum (fst r) =? 3) tr = true ->
    left_poses cs = [h1; h2; h3; h4] ->
    left_views tr = [inverse P h1; inverse P h1; inverse P h1; inverse P h4].
Proof.
  intros s cs tr h1 h2 h3 h4 Hk H Hd Hp.
  rewrite (@left_views_held 3 cs s tr) by (assumption || lia).
  rewrite Hp, Hk. reflexivity.
Qed.

End DelayFacts.

(** Four frames of both eyes on the sample application with delay 3, the
    head moving every frame. *)
Lemma render_delay_3_holds_pose_for_3_frames_witness :
  let cs := [Sample.call 0 F32.one Sample.idle; Sample.call 1 F32.one Sample.idle;
             Sample.call 0 F32.two Sample.idle; Sample.call 1 F32.two Sample.idle;
             Sample.call 0 F32.ten Sample.idle; Sample.call 1 F32.ten Sample.idle;
             Sample.call 0 F32.hundred Sample.idle;
             Sample.call 1 F32.hundred Sample.idle] in
  exists tr,
    run Sample.sdk Sample.lag2_delay3 cs = Some tr
    /\ left_views tr
       = [inverse Sample.sdk (Sample.translation F32.one);
          inverse Sample.sdk (Sample.translation F32.one);
          inverse Sample.sdk (Sample.translation F32.one);
          inverse Sample.sdk (Sample.translation F32.hundred)].
Proof.
  intros cs.
  destruct (run Sample.sdk Sample.lag2_delay3 cs) as [tr|] eqn:E;
    [|vm_compute in E; discriminate].
  exists tr. split; [reflexivity|].
  apply (@render_delay_3_holds_pose_for_3_frames Sample.sdk Sample.lag2_delay3 cs tr
           (Sample.translation F32.one) (Sample.translation F32.two)
           (Sample.translation F32.ten) (Sample.translation F32.hundred)).
  - reflexivity.
  - exact E.
  - revert E. vm_compute. intros E. injection E as <-. reflexivity.
  - reflexivity.
Defined.

(** ** C7: the fully frozen view *)

Section FrozenFacts.
Variable P : Platform.

(** The press edge of button B that leaves mode 2: the mode becomes 3 and the
    rotation and translation of the inverse head pose are captured. *)
Lemma b_edge_enters_mode_3 s projection headPose whichEye env i s' rc :
  callInput env = Some i ->
  pressed i (ovrButton_B P) = true ->
  b_hasPressed s = false ->
  b_pressed s = 2 ->
  renderScene P s projection headPose whichEye env = Some (s', rc) ->
  b_pressed s' = 3
  /\ rotation s' = glm.mat3_of_mat4 (inverse P headPose)
  /\ position s' = glm.m4c3 (inverse P headPose).
Proof.
  intros Hi Hb Hh Hm H.
  apply renderScene_inv in H. cbv zeta in H.
  destruct H as (lring & rring & cring & lf & lagFrame & right &
                 _ & _ & _ & _ & _ & _ & _ & Hs).
  subst s'. cbn [b_pressed rotation position]. rewrite Hi.
  pose proof (pi_b P i headPose s) as E. cbv zeta in E.
  unfold input_b_pressed in E. rewrite Hb, Hh, Hm in E. cbn [negb andb] in E.
  pose proof (f_equal (fun t => fst (fst (fst t))) E) as E1.
  pose proof (f_equal (fun t => snd (fst t)) E) as E2.
  pose proof (f_equal (fun t => snd t) E) as E3.
  cbn [fst snd] in E1, E2, E3.
  rewrite E1, E2, E3. repeat split; reflexivity.
Qed.

(** A call that sees no press edge of B leaves the mode and the captured
    rotation and translation as they are. *)
Lemma no_b_edge_keeps_capture s projection headPose whichEye env s' rc :
  b_edge P s env = false ->
  renderScene P s projection headPose whichEye env = Some (s', rc) ->
  b_pressed s' = b_pressed s /\ rotation s' = rotation s /\ position s' = position s.
Proof.
  intros Hb H.
  apply renderScene_inv in H. cbv zeta in H.
  destruct H as (lring & rring & cring & lf & lagFrame & right &
                 _ & _ & _ & _ & _ & _ & _ & Hs).
  subst s'. cbn [b_pressed rotation position].
  unfold b_edge in Hb.
  destruct (callInput env) as [i|]; [|repeat split; reflexivity].
  pose proof (pi_b P i headPose s) as E. cbv zeta in E.
  assert (E' : input_b_pressed P i headPose (b_pressed s) (b_hasPressed s)
                 (rotation s) (position s)
               = (b_pressed s,
                  if negb (pressed i (ovrButton_B P)) && b_hasPressed s
                  then false else b_hasPressed s,
                  rotation s, position s)).
  { unfold input_b_pressed.
    destruct (pressed i (ovrButton_B P)); [|reflexivity].
    destruct (b_hasPressed s); [reflexivity | discriminate Hb]. }
  rewrite E' in E.
  pose proof (f_equal (fun t => fst (fst (fst t))) E) as E1.
  pose proof (f_equal (fun t => snd (fst t)) E) as E2.
  pose proof (f_equal (fun t => snd t) E) as E3.
  cbn [fst snd] in E1, E2, E3.
  rewrite E1, E2, E3. repeat split; reflexivity.
Qed.

(** In mode 3 the eye is drawn with the captured rotation and translation,
    whatever the view handed to [Scene::render]. *)
Lemma mode_3_drawView s projection headPose whichEye env s' rc :
  renderScene P s projection headPose whichEye env = Some (s', rc) ->
  b_pressed s' = 3 ->
  drawView s' = glm.set_col3 (glm.mat4_of_mat3 (rotation s')) (position s').
Proof.
  intros H Hm.
  apply renderScene_inv in H. cbv zeta in H.
  destruct H as (lring & rring & cring & lf & lagFrame & right &
                 _ & _ & _ & _ & _ & _ & _ & Hs).
  subst s'. cbn [b_pressed rotation position drawView] in *.
  unfold Scene_render. rewrite Hm. reflexivity.
Qed.

Lemma frozen_run s cs tr :
  calls_without_b_edge P s cs tr ->
  b_pressed s = 3 ->
  Forall (fun r => b_pressed (fst r) = 3
                   /\ rotation (fst r) = rotation s /\ position (fst r) = position s
                   /\ drawView (fst r)
                      = glm.set_col3 (glm.mat4_of_mat3 (rotation s)) (position s)) tr.
Proof.
  induction 1 as [s | s c cs s1 rc tr Hb H _ IH]; intros Hm; [constructor|].
  destruct (@no_b_edge_keeps_capture s _ _ _ _ s1 rc Hb H) as (A & B & C).
  assert (Hm1 : b_pressed s1 = 3) by congruence.
  pose proof (@mode_3_drawView s _ _ _ _ s1 rc H Hm1) as D.
  constructor.
  - cbn [fst]. rewrite <- B, <- C. auto.
  - specialize (IH Hm1). rewrite B, C in IH. exact IH.
Qed.

(** C7. A call that sees the press edge of B in mode 2 enters mode 3 and
    captures the rotation [mat3(invHead)] and the translation [invHead[3]] of
    the inverse of its head pose.  From then on, through any sequence of
    calls none of which sees a new press edge of B, whatever their eyes, head
    poses and other inputs, the captured rotation and translation stay as
    they are and every call draws with exactly that rotation and
    translation. *)
Theorem fully_frozen_view_persists :
  forall s projection headPose whichEye env i s0 rc0 cs tr,
    callInput env = Some i ->
    pressed i (ovrButton_B P) = true ->
    b_hasPressed s = false ->
    b_pressed s = 2 ->
    renderScene P s projection headPose whichEye env = Some (s0, rc0) ->
    calls_without_b_edge P s0 cs tr ->
    let invHead := inverse P headPose in
    Forall (fun r => b_pressed (fst r) = 3
                     /\ rotation (fst r) = glm.mat3_of_mat4 invHead
                     /\ position (fst r) = glm.m4c3 invHead
                     /\ drawView (fst r)
                        = glm.set_col3 (glm.mat4_of_mat3 (glm.mat3_of_mat4 invHead))
                                       (glm.m4c3 invHead))
           ((s0, rc0) :: tr).
Proof.
  intros s projection headPose whichEye env i s0 rc0 cs tr Hi Hb Hh Hm H Hrun invHead.
  destruct (@b_edge_enters_mode_3 s _ _ _ _ i s0 rc0 Hi Hb Hh Hm H) as (A & B & C).
  pose proof (@mode_3_drawView s _ _ _ _ s0 rc0 H A) as D.
  pose proof (frozen_run Hrun A) as F.
  rewrite B, C in D, F.
  constructor; [cbn [fst]; auto | exact F].
Qed.

(** A run checked call by call for press edges of B. *)
Lemma run_without_b_edge cs : forall s tr,
  run P s cs = Some tr ->
  forallb (fun p => negb (b_edge P (fst p) (call_env (snd p))))
          (combine (s :: map fst tr) cs) = true ->
  calls_without_b_edge P s cs tr.
Proof.
  induction cs as [|c cs IH]; intros s tr H Hb.
  - injection H as <-. constructor.
  - cbn [run] in H.
    apply bind_Some in H. destruct H as ([s1 rc] & H1 & H).
    apply bind_Some in H. destruct H as (tr' & H2 & H).
    injection H as <-. cbn [fst] in H2.
    cbn [map fst combine forallb snd] in Hb.
    apply andb_true_iff in Hb. destruct Hb as [Hb1 Hb].
    apply negb_true_iff in Hb1.
    econstructor; [exact Hb1 | exact H1 | apply IH; assumption].
Qed.

End FrozenFacts.

(** The sample application in mode 2; B is pressed while the head is at 10,
    held for two more calls and released; ten further calls follow, for both
    eyes, with the head elsewhere each time and other controls in use. *)
Lemma fully_frozen_view_persists_witness :
  let cs := [Sample.call 1 F32.ten (Sample.button 2);
             Sample.call 0 F32.one (Sample.button 2);
             Sample.call 1 F32.one Sample.idle;
             Sample.call 0 F32.two Sample.right_index;
             Sample.call 1 F32.two Sample.idle;
             Sample.call 0 F32.hundred Sample.right_hand;
             Sample.call 1 F32.hundred Sample.idle;
             Sample.call 0 F32.half (Sample.button 256);
             Sample.call 1 F32.half (Sample.right_stick F32.one);
             Sample.call 0 F32.f0_3 Sample.left_index] in
  let invHead := inverse Sample.sdk (Sample.translation F32.ten) in
  exists s0 rc0 tr,
    renderScene Sample.sdk Sample.in_mode_2 glm.mat4_1 (Sample.translation F32.ten) 0
      (Sample.reads (Sample.hand F32.ten) (Sample.button 2)) = Some (s0, rc0)
    /\ run Sample.sdk s0 cs = Some tr
    /\ Forall (fun r => b_pressed (fst r) = 3
                        /\ rotation (fst r) = glm.mat3_of_mat4 invHead
                        /\ position (fst r) = glm.m4c3 invHead
                        /\ drawView (fst r)
                           = glm.set_col3 (glm.mat4_of_mat3 (glm.mat3_of_mat4 invHead))
                                          (glm.m4c3 invHead))
               ((s0, rc0) :: tr).
Proof.
  intros cs invHead.
  destruct (renderScene Sample.sdk Sample.in_mode_2 glm.mat4_1 (Sample.translation F32.ten)
              0 (Sample.reads (Sample.hand F32.ten) (Sample.button 2)))
    as [[s0 rc0]|] eqn:E0; [|vm_compute in E0; discriminate].
  pose proof E0 as C0. vm_compute in C0. injection C0 as <- <-.
  match type of E0 with _ = Some (?x, ?y) => set (s0 := x) in *; set (rc0 := y) in * end.
  destruct (run Sample.sdk s0 cs) as [tr|] eqn:E; [|vm_compute in E; discriminate].
  pose proof E as C. vm_compute in C. injection C as <-.
  match type of E with _ = Some ?x => set (tr := x) in * end.
  exists s0, rc0, tr. split; [reflexivity|]. split; [reflexivity|].
  apply (@fully_frozen_view_persists Sample.sdk Sample.in_mode_2 glm.mat4_1
           (Sample.translation F32.ten) 0
           (Sample.reads (Sample.hand F32.ten) (Sample.button 2))
           (Sample.button 2) s0 rc0 cs tr).
  - reflexivity.
  - reflexivity.
  - reflexivity.
  - reflexivity.
  - exact E0.
  - apply run_without_b_edge; [exact E | vm_compute; reflexivity].
Defined.

(** * Further properties of the code *)

(** ** The content mode and the view mode count press edges *)

Section ModeFacts.
Variable P : Platform.

(** What one call does to the B members, and to the X members. *)
Lemma renderScene_b_step s projection headPose whichEye env s' rc :
  renderScene P s projection headPose whichEye env = Some (s', rc) ->
  match callInput env with
  | None => b_pressed s' = b_pressed s /\ b_hasPressed s' = b_hasPressed s
  | Some i =>
      b_pressed s' = (if pressed i (ovrButton_B P) && negb (b_hasPressed s)
                      then Z.rem (b_pressed s + 1) 4 else b_pressed s)
      /\ b_hasPressed s' = pressed i (ovrButton_B P)
  end.
Proof.
  intros H. apply renderScene_inv in H. cbv zeta in H.
  destruct H as (lring & rring & cring & lf & lagFrame & right &
                 _ & _ & _ & _ & _ & _ & _ & Hs).
  subst s'. cbn [b_pressed b_hasPressed].
  destruct (callInput env) as [i|]; [|split; reflexivity].
  pose proof (pi_b P i headPose s) as E. cbv zeta in E.
  pose proof (f_equal (fun t => fst (fst (fst t))) E) as E1.
  pose proof (f_equal (fun t => snd (fst (fst t))) E) as E2.
  cbn [fst snd] in E1, E2. rewrite E1, E2. unfold input_b_pressed.
  destruct (pressed i (ovrButton_B P)), (b_hasPressed s); split; reflexivity.
Qed.

Lemma renderScene_x_step s projection headPose whichEye env s' rc :
  renderScene P s projection headPose whichEye env = Some (s', rc) ->
  match callInput env with
  | None => x_pressed s' = x_pressed s /\ x_hasPressed s' = x_hasPressed s
  | Some i =>
      x_pressed s' = (if pressed i (ovrButton_X P) && negb (x_hasPressed s)
                      then Z.rem (x_pressed s + 1) 3 else x_pressed s)
      /\ x_hasPressed s' = pressed i (ovrButton_X P)
  end.
Proof.
  intros H. apply renderScene_inv in H. cbv zeta in H.
  destruct H as (lring & rring & cring & lf & lagFrame & right &
                 _ & _ & _ & _ & _ & _ & _ & Hs).
  subst s'. cbn [x_pressed x_hasPressed].
  destruct (callInput env) as [i|]; [|split; reflexivity].
  pose proof (pi_x P i headPose s) as E.
  pose proof (f_equal fst E) as E1. pose proof (f_equal snd E) as E2.
  cbn [fst snd] in E1, E2. rewrite E1, E2. unfold input_x_pressed.
  destruct (pressed i (ovrButton_X P)), (x_hasPressed s); split; reflexivity.
Qed.

Lemma cycle_step (m b : Z) (n : nat) :
  0 < m -> 0 <= b < m ->
  (Z.rem (b + 1) m + Z.of_nat n) mod m = (b + Z.of_nat (S n)) mod m.
Proof.
  intros Hm Hb. rewrite Z.rem_mod_nonneg by lia.
  rewrite Zplus_mod_idemp_l. f_equal. lia.
Qed.

Lemma view_mode_after_run cs : forall s tr,
  0 <= b_pressed s < 4 ->
  run P s cs = Some tr ->
  b_pressed (last (map fst tr) s)
  = (b_pressed s
     + Z.of_nat (press_edges (b_hasPressed s) (button_samples (ovrButton_B P) cs)))
    mod 4.
Proof.
  induction cs as [|c cs IH]; intros s tr Hb H.
  - injection H as <-. cbn. rewrite Z.add_0_r, Z.mod_small by lia. reflexivity.
  - cbn [run] in H.
    apply bind_Some in H. destruct H as ([s1 rc] & H1 & H).
    apply bind_Some in H. destruct H as (tr' & H2 & H).
    injection H as <-. cbn [fst] in H2.
    cbn [map fst]. rewrite last_cons.
    pose proof (renderScene_b_step _ _ _ _ _ H1) as St.
    unfold button_samples. cbn [flat_map]. fold (button_samples (ovrButton_B P) cs).
    destruct (callInput (call_env c)) as [i|].
    + destruct St as [Eb Eh]. cbn [app press_edges].
      assert (R1 : 0 <= b_pressed s1 < 4).
      { rewrite Eb. destruct (_ && _); [|assumption].
        pose proof (Z.rem_bound_pos (b_pressed s + 1) 4). lia. }
      rewrite (IH s1 tr' R1 H2), Eb, Eh.
      destruct (pressed i (ovrButton_B P) && negb (b_hasPressed s)).
      * rewrite cycle_step by lia. f_equal.
      * reflexivity.
    + destruct St as [Eb Eh]. cbn [app].
      assert (R1 : 0 <= b_pressed s1 < 4) by (rewrite Eb; assumption).
      rewrite (IH s1 tr' R1 H2), Eb, Eh. reflexivity.
Qed.

Lemma content_mode_after_run cs : forall s tr,
  0 <= x_pressed s < 3 ->
  run P s cs = Some tr ->
  x_pressed (last (map fst tr) s)
  = (x_pressed s
     + Z.of_nat (press_edges (x_hasPressed s) (button_samples (ovrButton_X P) cs)))
    mod 3.
Proof.
  induction cs as [|c cs IH]; intros s tr Hb H.
  - injection H as <-. cbn. rewrite Z.add_0_r, Z.mod_small by lia. reflexivity.
  - cbn [run] in H.
    apply bind_Some in H. destruct H as ([s1 rc] & H1 & H).
    apply bind_Some in H. destruct H as (tr' & H2 & H).
    injection H as <-. cbn [fst] in H2.
    cbn [map fst]. rewrite last_cons.
    pose proof (renderScene_x_step _ _ _ _ _ H1) as St.
    unfold button_samples. cbn [flat_map]. fold (button_samples (ovrButton_X P) cs).
    destruct (callInput (call_env c)) as [i|].
    + destruct St as [Eb Eh]. cbn [app press_edges].
      assert (R1 : 0 <= x_pressed s1 < 3).
      { rewrite Eb. destruct (_ && _); [|assumption].
        pose proof (Z.rem_bound_pos (x_pressed s + 1) 3). lia. }
      rewrite (IH s1 tr' R1 H2), Eb, Eh.
      destruct (pressed i (ovrButton_X P) && negb (x_hasPressed s)).
      * rewrite cycle_step by lia. f_equal.
      * reflexivity.
    + destruct St as [Eb Eh]. cbn [app].
      assert (R1 : 0 <= x_pressed s1 < 3) by (rewrite Eb; assumption).
      rewrite (IH s1 tr' R1 H2), Eb, Eh. reflexivity.
Qed.

(** X1. After any sequence of [renderScene] calls from a reachable state,
    the view mode [b_pressed] is its old value plus the number of press edges
    of button B, modulo 4, and the content mode [x_pressed] is its old value
    plus the number of press edges of button X, modulo 3.  A button that
    stays down adds nothing after its edge, and a call whose controller read
    does not succeed adds nothing. *)
Theorem modes_count_press_edges :
  forall s cs tr,
    Reachable P s ->
    run P s cs = Some tr ->
    b_pressed (last (map fst tr) s)
    = (b_pressed s
       + Z.of_nat (press_edges (b_hasPressed s) (button_samples (ovrButton_B P) cs)))
      mod 4
    /\ x_pressed (last (map fst tr) s)
       = (x_pressed s
          + Z.of_nat (press_edges (x_hasPressed s) (button_samples (ovrButton_X P) cs)))
         mod 3.
Proof.
  intros s cs tr HR H. apply Reachable_Inv in HR.
  split.
  - apply view_mode_after_run; [apply (Inv_b_pressed HR) | exact H].
  - apply content_mode_after_run; [apply (Inv_x_pressed HR) | exact H].
Qed.

End ModeFacts.

(** ** The lag replays what was recorded *)

Lemma recordAll_app (A : Type) (l1 l2 buf : list A) :
  recordAll buf (l1 ++ l2) = (b <- recordAll buf l1 ;; recordAll b l2).
Proof.
  revert buf. induction l1 as [|p l1 IH]; intros buf; [reflexivity|].
  cbn [app recordAll]. destruct (recordPose buf p) as [b|]; [|reflexivity].
  cbn [bind]. apply IH.
Qed.

Lemma firstn_S_snoc (A : Type) (l : list A) : forall (k : nat) (a : A),
  nth_error l k = Some a -> firstn (S k) l = firstn k l ++ [a].
Proof.
  induction l as [|x l IH]; intros [|k] a H; try discriminate.
  - injection H as <-. reflexivity.
  - cbn [nth_error] in H. change (firstn (S (S k)) (x :: l)) with (x :: firstn (S k) l).
    rewrite (IH k a H). reflexivity.
Qed.

(** In a full buffer that has received the entries [recorded], entry [lag]
    counted back from the newest is entry [lag] of [recorded] counted back,
    as long as that many have been recorded. *)
Lemma replay_index (A : Type) (buf recorded : list A) (lag : nat) :
  length buf = 60%nat -> (lag < length recorded)%nat -> (lag < 60)%nat ->
  nth_error (rev (skipn (length recorded) (buf ++ recorded))) lag
  = nth_error (rev recorded) lag.
Proof.
  intros Hb Hl H60.
  rewrite !nth_error_rev.
  rewrite length_skipn, length_app, Hb.
  replace (60 + length recorded - length recorded)%nat with 60%nat by lia.
  replace (lag <? 60)%nat with true by (symmetry; apply Nat.ltb_lt; lia).
  replace (lag <? length recorded)%nat with true by (symmetry; apply Nat.ltb_lt; lia).
  rewrite nth_error_skipn, nth_error_app2 by lia.
  f_equal. lia.
Qed.

Section ReplayFacts.
Variable P : Platform.

(** Call number [k] of a run is a call of [renderScene] on the state that
    the first [k] calls lead to. *)
Lemma run_nth cs : forall s tr k sk rck,
  run P s cs = Some tr ->
  nth_error tr k = Some (sk, rck) ->
  exists c trpre,
    nth_error cs k = Some c
    /\ run P s (firstn k cs) = Some trpre
    /\ renderScene P (last (map fst trpre) s) (call_projection c) (call_headPose c)
         (call_whichEye c) (call_env c) = Some (sk, rck).
Proof.
  induction cs as [|c cs IH]; intros s tr k sk rck H Hk.
  - injection H as <-. destruct k; discriminate.
  - cbn [run] in H.
    apply bind_Some in H. destruct H as ([s1 rc] & H1 & H).
    apply bind_Some in H. destruct H as (tr' & H2 & H).
    injection H as <-. cbn [fst] in H2.
    destruct k as [|k].
    + injection Hk as <- <-. exists c, []. repeat split; assumption.
    + cbn [nth_error] in Hk.
      destruct (IH s1 tr' k sk rck H2 Hk) as (c' & trpre & A & B & C).
      exists c', ((s1, rc) :: trpre). split; [exact A|]. split.
      * cbn [firstn run]. rewrite H1. cbn [bind fst]. rewrite B. reflexivity.
      * cbn [map fst]. rewrite last_cons. exact C.
Qed.

Lemma cursor_history_after_run cs : forall s tr,
  run P s cs = Some tr ->
  recordAll (cringBuffer s) (map (fun c => handPosition1 (call_env c)) cs)
  = Some (cringBuffer (last (map fst tr) s)).
Proof.
  induction cs as [|c cs IH]; intros s tr H.
  - injection H as <-. reflexivity.
  - cbn [run] in H.
    apply bind_Some in H. destruct H as ([s1 rc] & H1 & H).
    apply bind_Some in H. destruct H as (tr' & H2 & H).
    injection H as <-. cbn [fst] in H2.
    cbn [map fst]. rewrite last_cons.
    destruct (@renderScene_records_cursor P _ _ _ _ _ _ _ H1) as (A & _).
    cbn [recordAll]. unfold recordCursor in A. rewrite A. cbn [bind].
    apply IH. exact H2.
Qed.

(** X2. In a run from a reachable state, the cursor that call number [k]
    hands to the renderer is the hand position read by call number
    [k - lagNum], for the [lagNum] call [k] ends with, when the run has that
    many earlier calls: every call counts, whichever eye it is for. *)
Theorem cursor_replays_hand_position :
  forall s cs tr k sk rck,
    Reachable P s ->
    run P s cs = Some tr ->
    nth_error tr k = Some (sk, rck) ->
    (Z.to_nat (lagNum sk) <= k)%nat ->
    exists c,
      nth_error cs (k - Z.to_nat (lagNum sk)) = Some c
      /\ rc_right rck = handPosition1 (call_env c).
Proof.
  intros s cs tr k sk rck HR H Hk Hlag.
  destruct (@run_nth cs s tr k sk rck H Hk) as (c & trpre & Hc & Hpre & Hcall).
  assert (HRpre : Reachable P (last (map fst trpre) s))
    by (eapply run_Reachable; eassumption).
  assert (Ik : Inv sk)
    by (eapply Reachable_Inv, Reachable_renderScene; eassumption).
  pose proof (@cursor_history_after_run (firstn k cs) s trpre Hpre) as Hhist.
  set (spre := last (map fst trpre) s) in *.
  apply renderScene_inv in Hcall. cbv zeta in Hcall.
  destruct Hcall as (lring & rring & cring & lf & lagFrame & right &
                     _ & _ & Hrec & _ & _ & Hright & Hrc & Hs).
  assert (El : lagNum sk = lagNum (processInput P (callInput (call_env c))
                                                 (call_headPose c) spre))
    by (subst sk; reflexivity).
  assert (Ec : cringBuffer sk = cring) by (subst sk; reflexivity).
  assert (Er : rc_right rck = right) by (subst rck; reflexivity).
  rewrite <- El in Hright. clear Hrc Hs El.
  assert (Hall : recordAll (cringBuffer s)
                   (map (fun c => handPosition1 (call_env c)) (firstn (S k) cs))
                 = Some cring).
  { rewrite (firstn_S_snoc _ _ Hc), map_app, recordAll_app, Hhist.
    cbn [bind map recordAll]. exact (eq_trans
      (f_equal (fun o => bind o (fun b => Some b)) Hrec) eq_refl). }
  pose proof (Inv_cringBuffer (Reachable_Inv HR)) as Hlen.
  rewrite recordAll_skipn in Hall by (destruct (cringBuffer s); [discriminate|congruence]).
  apply (f_equal (fun o => match o with Some b => b | None => cring end)) in Hall.
  cbv beta iota in Hall.
  assert (Hn : length (map (fun c => handPosition1 (call_env c)) (firstn (S k) cs)) = S k).
  { rewrite length_map, length_firstn.
    assert (k < length cs)%nat by (apply nth_error_Some; congruence). lia. }
  pose proof (Inv_lagNum Ik) as Hrange.
  assert (Hlen' : length cring = 60%nat) by (rewrite <- Ec; apply (Inv_cringBuffer Ik)).
  rewrite (retrieveLagged_rev cring Hlen' Hrange) in Hright.
  rewrite <- Hall in Hright.
  rewrite replay_index in Hright; [|exact Hlen | rewrite Hn; lia | lia].
  rewrite nth_error_rev, Hn in Hright.
  replace (Z.to_nat (lagNum sk) <? S k)%nat with true in Hright
    by (symmetry; apply Nat.ltb_lt; lia).
  rewrite nth_error_map in Hright.
  replace (S k - S (Z.to_nat (lagNum sk)))%nat with (k - Z.to_nat (lagNum sk))%nat
    in Hright by lia.
  rewrite nth_error_firstn in Hright.
  replace (k - Z.to_nat (lagNum sk) <? S k)%nat with true in Hright
    by (symmetry; apply Nat.ltb_lt; lia).
  destruct (nth_error cs (k - Z.to_nat (lagNum sk))) as [c'|]; [|discriminate].
  injection Hright as Hright. exists c'. split; [reflexivity | congruence].
Qed.

End ReplayFacts.

Section PoseReplayFacts.
Variable P : Platform.

Lemma eye_history_after_run (e : Z) cs : forall s tr,
  e = 0 \/ e = 1 ->
  run P s cs = Some tr ->
  recordAll (eye_history e s) (eye_poses e cs)
  = Some (eye_history e (last (map fst tr) s)).
Proof.
  induction cs as [|c cs IH]; intros s tr He H.
  - injection H as <-. reflexivity.
  - cbn [run] in H.
    apply bind_Some in H. destruct H as ([s1 rc] & H1 & H).
    apply bind_Some in H. destruct H as (tr' & H2 & H).
    injection H as <-. cbn [fst] in H2.
    cbn [map fst]. rewrite last_cons.
    specialize (IH s1 tr' He H2).
    apply renderScene_inv in H1. cbv zeta in H1.
    destruct H1 as (lring & rring & cring & lf & lagFrame & right &
                    Hl & Hr & _ & _ & _ & _ & _ & Hs).
    assert (El : lringBuffer s1 = lring) by (subst s1; reflexivity).
    assert (Er : rringBuffer s1 = rring) by (subst s1; reflexivity).
    unfold eye_poses. cbn [filter]. fold (eye_poses e cs).
    unfold eye_history in *.
    destruct He as [-> | ->]; cbn [Z.eqb] in *.
    + rewrite El in IH. destruct (call_whichEye c =? 0).
      * cbn [map recordAll]. rewrite Hl. exact IH.
      * injection Hl as <-. exact IH.
    + rewrite Er in IH. destruct (call_whichEye c =? 1).
      * cbn [map recordAll]. rewrite Hr. exact IH.
      * injection Hr as <-. exact IH.
Qed.

(** X3. In a run from a reachable state, a call for eye [e] that ends with
    no render delay hands to the renderer the inverse of the head pose given
    to the call for the same eye made [lagNum] such calls earlier (the call
    itself when [lagNum] is 0), when the run has that many calls for the
    eye. *)
Theorem view_replays_head_pose :
  forall s cs tr k sk rck (e : Z),
    Reachable P s ->
    run P s cs = Some tr ->
    nth_error tr k = Some (sk, rck) ->
    e = 0 \/ e = 1 ->
    rc_whichEye rck = e ->
    delayNum sk = 0 ->
    (Z.to_nat (lagNum sk) < length (eye_poses e (firstn (S k) cs)))%nat ->
    exists p,
      nth_error (rev (eye_poses e (firstn (S k) cs))) (Z.to_nat (lagNum sk)) = Some p
      /\ rc_view rck = inverse P p.
Proof.
  intros s cs tr k sk rck e HR H Hk He Heye Hd Hlag.
  destruct (@run_nth P cs s tr k sk rck H Hk) as (c & trpre & Hc & Hpre & Hcall).
  assert (HRpre : Reachable P (last (map fst trpre) s))
    by (eapply run_Reachable; eassumption).
  assert (Ik : Inv sk)
    by (eapply Reachable_Inv, Reachable_renderScene; eassumption).
  pose proof (@eye_history_after_run e (firstn k cs) s trpre He Hpre) as Hhist.
  set (spre := last (map fst trpre) s) in *.
  apply renderScene_inv in Hcall. cbv zeta in Hcall.
  destruct Hcall as (lring & rring & cring & lf & lagFrame & right &
                     Hl & Hr & _ & Hlf & Hlg & _ & Hrc & Hs).
  set (s1 := processInput P (callInput (call_env c)) (call_headPose c) spre) in *.
  assert (El : lagNum sk = lagNum s1) by (subst sk; reflexivity).
  assert (Ed : delayNum sk = delayNum s1) by (subst sk; reflexivity).
  assert (Ew : call_whichEye c = e) by (subst rck; exact Heye).
  assert (Ev : rc_view rck
               = inverse P (if 0 <? lagNum sk then lagFrame else call_headPose c)).
  { subst rck. cbn [rc_view]. unfold selectOutput.
    rewrite <- Ed, Hd, <- El. reflexivity. }
  assert (Eh : exists buf, eye_history e sk = buf
                 /\ recordPose (eye_history e spre) (call_headPose c) = Some buf
                 /\ retrieveLagged buf (lagNum sk) = Some lagFrame).
  { rewrite El. unfold eye_history. subst sk. cbn [lringBuffer rringBuffer].
    rewrite Ew in *.
    destruct He as [-> | ->]; cbn [Z.eqb] in *.
    - exists lring. injection Hlg as <-. auto.
    - exists rring. auto. }
  destruct Eh as (buf & Eb & Hrec & Hret). clear Hl Hr Hlf Hlg Hrc Hs.
  assert (Hposes : eye_poses e (firstn (S k) cs)
                   = eye_poses e (firstn k cs) ++ [call_headPose c]).
  { rewrite (firstn_S_snoc _ _ Hc). unfold eye_poses.
    rewrite filter_app, map_app. cbn [filter]. rewrite Ew, Z.eqb_refl. reflexivity. }
  rewrite Hposes in *.
  assert (Hall : recordAll (eye_history e s)
                   (eye_poses e (firstn k cs) ++ [call_headPose c]) = Some buf).
  { rewrite recordAll_app, Hhist. cbn [bind recordAll].
    exact (eq_trans (f_equal (fun o => bind o (fun b => Some b)) Hrec) eq_refl). }
  assert (Hlen : length (eye_history e s) = 60%nat).
  { unfold eye_history. destruct (e =? 0);
      [apply (Inv_lringBuffer (Reachable_Inv HR))
      | apply (Inv_rringBuffer (Reachable_Inv HR))]. }
  assert (Hlen' : length buf = 60%nat).
  { rewrite <- Eb. unfold eye_history. destruct (e =? 0);
      [apply (Inv_lringBuffer Ik) | apply (Inv_rringBuffer Ik)]. }
  rewrite recordAll_skipn in Hall
    by (destruct (eye_history e s); [discriminate|congruence]).
  apply (f_equal (fun o => match o with Some b => b | None => buf end)) in Hall.
  cbv beta iota in Hall.
  pose proof (Inv_lagNum Ik) as Hrange.
  rewrite (retrieveLagged_rev buf Hlen' Hrange) in Hret.
  rewrite <- Hall in Hret.
  rewrite replay_index in Hret; [|exact Hlen | exact Hlag | lia].
  exists lagFrame. split; [exact Hret|].
  rewrite Ev. destruct (0 <? lagNum sk) eqn:E0; [reflexivity|].
  apply Z.ltb_ge in E0. assert (E1 : lagNum sk = 0) by lia.
  rewrite E1, rev_app_distr in Hret. cbn in Hret. congruence.
Qed.

End PoseReplayFacts.

(** ** The render delay for any delay, and when the delay is lowered *)

(** Entry [j] of a held sequence: the captured pose while the counter has
    not yet come round, and from then on the pose at the start of the block
    of [d] that [j] falls in. *)
Lemma held_nth (d : Z) (poses : list mat4) : forall (k : Z) (cur : mat4) (j : nat),
  0 <= k < d -> (j < length poses)%nat ->
  nth_error (held d k cur poses) j
  = if (Z.of_nat j + k <? d) && negb (k =? 0) then Some cur
    else nth_error poses (Z.to_nat (d * ((Z.of_nat j + k) / d) - k)).
Proof.
  induction poses as [|h hs IH]; intros k cur j Hk Hj; [cbn in Hj; lia|].
  cbn [held].
  destruct j as [|j].
  - cbn [nth_error Z.of_nat Z.add].
    replace (k <? d) with true by (symmetry; apply Z.ltb_lt; lia).
    destruct (k =? 0) eqn:E0; cbn [negb andb]; [|reflexivity].
    apply Z.eqb_eq in E0. subst k. rewrite Z.div_0_l by lia.
    rewrite Z.mul_0_r. reflexivity.
  - cbn [nth_error]. cbn [length] in Hj.
    rewrite Nat2Z.inj_succ.
    destruct (d <=? k + 1) eqn:Ed.
    + apply Z.leb_le in Ed. assert (Ek : k + 1 = d) by lia.
      rewrite IH by lia. cbn [Z.eqb negb]. rewrite andb_false_r.
      replace (Z.succ (Z.of_nat j) + k) with (Z.of_nat j + 1 * d) by lia.
      replace (Z.of_nat j + 1 * d <? d) with false by (symmetry; apply Z.ltb_ge; lia).
      cbn [andb]. rewrite Z.div_add by lia. rewrite ?Z.add_0_r, ?Z.sub_0_r.
      assert (0 <= d * (Z.of_nat j / d)).
      { apply Z.mul_nonneg_nonneg; [lia|]. apply Z.div_pos; lia. }
      replace (Z.to_nat (d * (Z.of_nat j / d + 1) - k))
        with (S (Z.to_nat (d * (Z.of_nat j / d)))) by lia.
      reflexivity.
    + apply Z.leb_gt in Ed.
      rewrite IH by lia.
      replace (Z.of_nat j + (k + 1)) with (Z.succ (Z.of_nat j) + k) by lia.
      replace (k + 1 =? 0) with false by (symmetry; apply Z.eqb_neq; lia).
      cbn [negb]. rewrite andb_true_r.
      destruct (Z.succ (Z.of_nat j) + k <? d) eqn:Ex.
      * apply Z.ltb_lt in Ex. cbn [andb].
        destruct (k =? 0) eqn:E0; cbn [negb]; [|reflexivity].
        apply Z.eqb_eq in E0. subst k.
        rewrite Z.div_small by lia. rewrite Z.mul_0_r. reflexivity.
      * apply Z.ltb_ge in Ex. cbn [andb].
        set (q := (Z.succ (Z.of_nat j) + k) / d).
        assert (1 <= q) by (apply Z.div_le_lower_bound; lia).
        assert (d <= d * q) by nia.
        replace (Z.to_nat (d * q - k)) with (S (Z.to_nat (d * q - (k + 1)))) by lia.
        reflexivity.
Qed.

Section DelayBlockFacts.
Variable P : Platform.

(** X4. With the delay at [d] > 0 throughout a run and the left counter at
    0 at its start, the calls for eye 0 fall into blocks of [d]: call number
    [m * d + r] for eye 0, with [r < d], renders the head pose given to call
    number [m * d] for eye 0, whatever calls for the other eye come
    between. *)
Theorem render_delay_shows_first_pose_of_block :
  forall (d : Z) s cs tr (m r : nat),
    0 < d ->
    ldelayRender s = 0 ->
    run P s cs = Some tr ->
    forallb (fun st => delayNum (fst st) =? d) tr = true ->
    (r < Z.to_nat d)%nat ->
    (m * Z.to_nat d + r < length (left_poses cs))%nat ->
    nth_error (left_views tr) (m * Z.to_nat d + r)
    = option_map (inverse P) (nth_error (left_poses cs) (m * Z.to_nat d)).
Proof.
  intros d s cs tr m r Hd Hk H Hall Hr Hj.
  rewrite (@left_views_held P d cs s tr) by (assumption || lia).
  rewrite nth_error_map. f_equal.
  rewrite held_nth by (assumption || lia).
  rewrite Hk. cbn [Z.eqb negb]. rewrite andb_false_r.
  f_equal. rewrite Z.add_0_r, Z.sub_0_r.
  replace (Z.of_nat (m * Z.to_nat d + r)) with (Z.of_nat r + Z.of_nat m * d) by lia.
  rewrite Z.div_add by lia. rewrite Z.div_small by lia. lia.
Qed.

(** X5. When a call for eye 0 ends with a delay that its counter has
    already reached (the delay has just been lowered), the delay block
    neither captures nor selects a pose for it: the call renders whatever
    [renderFrame] the call before it left, the captured left pose stays, and
    the counter goes back to 0. *)
Theorem lowered_delay_renders_previous_frame :
  forall s projection headPose env s' rc,
    renderScene P s projection headPose 0 env = Some (s', rc) ->
    0 < delayNum s' <= ldelayRender s ->
    rc_view rc = inverse P (renderFrame s)
    /\ renderFrame s' = renderFrame s
    /\ leftCurFrame s' = leftCurFrame s
    /\ ldelayRender s' = 0.
Proof.
  intros s projection headPose env s' rc H Hc.
  assert (Hv : rc_view rc = inverse P (renderFrame s'))
    by (eapply delay_selects_renderFrame; [eassumption | lia]).
  rewrite Hv. clear Hv.
  apply renderScene_inv in H. cbv zeta in H.
  destruct H as (lring & rring & cring & lf & lagFrame & right &
                 _ & _ & _ & _ & _ & _ & _ & Hs).
  subst s'. cbn [renderFrame leftCurFrame ldelayRender delayNum] in *.
  rewrite pi_ldelayRender, pi_leftCurFrame, pi_renderFrame in *.
  unfold delayStep. change (0 =? 1) with false. rewrite !andb_false_r.
  replace (ldelayRender s =? 0) with false by (symmetry; apply Z.eqb_neq; lia).
  replace (ldelayRender s <? _) with false by (symmetry; apply Z.ltb_ge; lia).
  cbn [andb fst snd].
  replace (_ <=? ldelayRender s) with true by (symmetry; apply Z.leb_le; lia).
  repeat split; reflexivity.
Qed.

End DelayBlockFacts.

(** ** The eye offsets and the cube scale *)

Lemma binary_round_aux_opp prec emax (s : bool) m e l :
  binary_round_aux prec emax (negb s) m e l = SFopp (binary_round_aux prec emax s m e l).
Proof.
  unfold binary_round_aux.
  destruct (shr_fexp prec emax m e l) as [mrs e'].
  destruct (shr_fexp prec emax _ e' loc_Exact) as [mrs' e''].
  destruct (shr_m mrs'); try reflexivity.
  destruct (e'' <=? emax - prec); reflexivity.
Qed.

Lemma F32_div_opp (x y : float) :
  F32.div (F32.opp x) y = F32.opp (F32.div x y).
Proof.
  unfold F32.div, F32.opp, SFdiv.
  destruct x as [sx|sx| |sx mx ex], y as [sy|sy| |sy my ey]; cbn [SFopp];
    try reflexivity; try (destruct sx, sy; reflexivity).
  destruct (SFdiv_core_binary F32.prec F32.emax (Z.pos mx) ex (Z.pos my) ey)
    as [[mz ez] lz].
  rewrite <- binary_round_aux_opp. destruct sx, sy; reflexivity.
Qed.

Section ScaleFacts.
Variable P : Platform.

(** X6. Whenever a call runs [setIOD] (the right thumbstick is deflected or
    its button is down), the two eye offsets it leaves are exact opposites,
    the right one being half the clamped distance, and [iod] itself is never
    changed; the thumbstick button puts the accumulator back to 0. *)
Theorem eye_offsets_are_opposite :
  forall s projection headPose whichEye env i s' rc,
    callInput env = Some i ->
    F32.truthy (snd (Thumbstick_x i)) = true \/ pressed i (ovrButton_RThumb P) = true ->
    renderScene P s projection headPose whichEye env = Some (s', rc) ->
    fst (HmdToEyePose_x s') = F32.opp (snd (HmdToEyePose_x s'))
    /\ snd (HmdToEyePose_x s')
       = F32.div (setIOD_newIOD (iod s) (iodOffset s')) F32.two
    /\ iod s' = iod s
    /\ (pressed i (ovrButton_RThumb P) = true -> iodOffset s' = F32.zero).
Proof.
  intros s projection headPose whichEye env i s' rc Hi Hrun H.
  apply renderScene_inv in H. cbv zeta in H.
  destruct H as (lring & rring & cring & lf & lagFrame & right &
                 _ & _ & _ & _ & _ & _ & _ & Hs).
  subst s'. cbn [iodOffset HmdToEyePose_x iod]. rewrite Hi, pi_iod.
  pose proof (pi_iodOffset P i headPose s) as E. cbv zeta in E.
  assert (E' : exists off,
             input_iodOffset P i (iod s) (iodOffset s) (HmdToEyePose_x s)
             = (off, setIOD (iod s) off)
             /\ (pressed i (ovrButton_RThumb P) = true -> off = F32.zero)).
  { unfold input_iodOffset.
    destruct (pressed i (ovrButton_RThumb P)) eqn:Er.
    - destruct (F32.truthy (snd (Thumbstick_x i))); eauto.
    - destruct Hrun as [Ht | Ht]; [|discriminate Ht].
      rewrite Ht. eexists. split; [reflexivity | discriminate]. }
  destruct E' as (off & E' & Hz). rewrite E' in E.
  pose proof (f_equal fst E) as E1. pose proof (f_equal snd E) as E2.
  cbn [fst snd] in E1, E2. rewrite E1, E2. unfold setIOD. cbn [fst snd].
  rewrite F32_div_opp. auto.
Qed.

(** The cube scale after the input block is not below -1 and not above 1
    when it was not before. *)
Lemma input_cubeScale_bounded (i : ovrInputState) (c : float) :
  F32.ltb c (F32.opp F32.one) = false /\ F32.gtb c F32.one = false ->
  F32.ltb (input_cubeScale P i c) (F32.opp F32.one) = false
  /\ F32.gtb (input_cubeScale P i c) F32.one = false.
Proof.
  intros Hc. unfold input_cubeScale.
  destruct (pressed i (ovrButton_LThumb P)); [split; reflexivity|].
  destruct (F32.truthy (fst (Thumbstick_x i))); [|exact Hc].
  set (x := F32.add c _).
  destruct (F32.gtb x F32.one) eqn:E1.
  - change (F32.ltb F32.one (F32.opp F32.one)) with false. cbv iota.
    split; reflexivity.
  - destruct (F32.ltb x (F32.opp F32.one)) eqn:E2.
    + split; reflexivity.
    + split; assumption.
Qed.

Lemma renderScene_cubeScale s projection headPose whichEye env s' rc :
  cubeScale_bounded s ->
  renderScene P s projection headPose whichEye env = Some (s', rc) ->
  cubeScale_bounded s' /\ rc_cubeScale rc = cubeScale s'.
Proof.
  intros Hb H. apply renderScene_inv in H. cbv zeta in H.
  destruct H as (lring & rring & cring & lf & lagFrame & right &
                 _ & _ & _ & _ & _ & _ & Hrc & Hs).
  subst s' rc. unfold cubeScale_bounded. cbn [cubeScale rc_cubeScale].
  split; [|reflexivity].
  destruct (callInput env) as [i|]; [|exact Hb].
  assert (E : cubeScale (processInput P (Some i) headPose s)
              = input_cubeScale P i (cubeScale s)).
  { unfold processInput.
    repeat match goal with
    | |- context [match ?e with pair _ _ => _ end] => destruct e
    end. reflexivity. }
  rewrite E. apply input_cubeScale_bounded. exact Hb.
Qed.

End ScaleFacts.

(** ** What every frame preserves *)

Section PreservationFacts.
Variable P : Platform.
Variable Q : ExampleApp -> Prop.
Hypothesis Q_renderScene : forall s projection headPose whichEye env s' rc,
  Q s -> renderScene P s projection headPose whichEye env = Some (s', rc) -> Q s'.
Hypothesis Q_with_a : forall a h s, Q s -> Q (with_a a h s).

Lemma renderEye_preserves fe eye whichEye st st' :
  Q (fst st) -> renderEye P fe eye whichEye st = Some st' -> Q (fst st').
Proof.
  destruct st as [s tr]. cbn [fst]. intros HQ H. unfold renderEye in H.
  apply bind_Some in H. destruct H as ([s1 rc] & H1 & H).
  injection H as <-. cbn [fst]. eapply Q_renderScene; eassumption.
Qed.

Lemma draw_preserves s fe s' tr :
  Q s -> draw P s fe = Some (s', tr) -> Q s'.
Proof.
  intros HQ H. unfold draw in H.
  destruct (frameInput fe) as [i|]; [|injection H as <- _; exact HQ].
  set (sa := if pressed i (ovrButton_A P) then _ else s) in H.
  assert (Qa : Q sa).
  { subst sa. destruct (pressed i (ovrButton_A P)); [|assumption].
    destruct (negb (a_hasPressed s)); [|assumption]. apply Q_with_a. assumption. }
  apply bind_Some in H. destruct H as (st1 & H1 & H).
  apply bind_Some in H. destruct H as (st2 & H2 & H).
  apply bind_Some in H. destruct H as (st3 & H3 & H).
  apply bind_Some in H. destruct H as (st4 & H4 & H).
  assert (Q1 : Q (fst st1)).
  { cbn [fst] in H1. destruct (a_pressed sa =? 0).
    - apply bind_Some in H1. destruct H1 as (st & Ha & Hb).
      eapply renderEye_preserves; [|exact Hb].
      eapply renderEye_preserves; [|exact Ha]. exact Qa.
    - injection H1 as <-. exact Qa. }
  assert (Q2 : Q (fst st2)).
  { destruct (a_pressed (fst st1) =? 1).
    - eapply renderEye_preserves; eassumption.
    - injection H2 as <-. assumption. }
  assert (Q3 : Q (fst st3)).
  { destruct (a_pressed (fst st2) =? 2).
    - eapply renderEye_preserves; eassumption.
    - injection H3 as <-. assumption. }
  assert (Q4 : Q (fst st4)).
  { destruct (a_pressed (fst st3) =? 3).
    - apply bind_Some in H4. destruct H4 as (st & Ha & Hb).
      eapply renderEye_preserves; [|exact Hb].
      eapply renderEye_preserves; eassumption.
    - injection H4 as <-. assumption. }
  injection H as <- _.
  destruct (negb (pressed i (ovrButton_A P)) && a_hasPressed (fst st4));
    [apply Q_with_a|]; assumption.
Qed.

Lemma Reachable_preserves :
  (forall hmd_x proj m0 r0 p0, Q (ExampleApp_new hmd_x proj m0 r0 p0)) ->
  forall s, Reachable P s -> Q s.
Proof.
  intros Hnew s HR.
  induction HR as [hmd_x proj m0 r0 p0 | s projection headPose whichEye env s' rc _ IH H
                   | s fe s' tr _ IH H].
  - apply Hnew.
  - eapply Q_renderScene; eassumption.
  - eapply draw_preserves; eassumption.
Qed.

End PreservationFacts.

Section ScaleInvariant.
Variable P : Platform.

(** X7. In every reachable state the cube scale is neither below -1 nor
    above 1, and lies between -1 and 1 when it is a number: unlike the
    interocular offset, this accumulator is itself clamped where it is
    accumulated. *)
Theorem cubeScale_stays_clamped :
  forall s, Reachable P s ->
    cubeScale_bounded s
    /\ (F32.is_nan (cubeScale s) = false ->
        F32.leb (F32.opp F32.one) (cubeScale s) = true
        /\ F32.leb (cubeScale s) F32.one = true).
Proof.
  intros s HR.
  assert (Hb : cubeScale_bounded s).
  { revert s HR. apply (@Reachable_preserves P cubeScale_bounded).
    - intros s projection headPose whichEye env s' rc Hs H.
      exact (proj1 (@renderScene_cubeScale P _ _ _ _ _ _ _ Hs H)).
    - intros a h s Hs. exact Hs.
    - intros. split; reflexivity. }
  split; [exact Hb|]. intros Hn. destruct Hb as [A B]. split.
  - apply F32_not_ltb_leb; [exact Hn | reflexivity | exact A].
  - apply F32_not_ltb_leb; [reflexivity | exact Hn | exact B].
Qed.

End ScaleInvariant.

(** ** A trigger held at lag 0 *)

Lemma F32_gtb_not_leb (x y : float) : F32.gtb x y = true -> F32.leb x y = false.
Proof.
  unfold F32.gtb, F32.ltb, F32.leb, SFltb, SFleb.
  rewrite (SFcompare_antisym y x).
  destruct (SFcompare y x) as [[| |]|]; cbn; congruence.
Qed.

Section TriggerFacts.
Variable P : Platform.

Lemma renderScene_lag_step s projection headPose whichEye env i s' rc :
  callInput env = Some i ->
  renderScene P s projection headPose whichEye env = Some (s', rc) ->
  (lagNum s', leftIndexP s', rightIndexP s')
  = input_lagNum i (lagNum s) (leftIndexP s) (rightIndexP s).
Proof.
  intros Hi H. apply renderScene_inv in H. cbv zeta in H.
  destruct H as (lring & rring & cring & lf & lagFrame & right &
                 _ & _ & _ & _ & _ & _ & _ & Hs).
  subst s'. cbn [lagNum leftIndexP rightIndexP]. rewrite Hi.
  exact (pi_lagNum P i headPose s).
Qed.

(** X8. The decrement of the lag is not taken on an edge when the lag is 0:
    the left index trigger pressed at lag 0 does nothing and is not marked
    as pressed, so if it is still down when the right trigger raises the lag
    to 1, the very next call takes the lag back to 0 without any new
    press. *)
Theorem held_left_trigger_takes_back_increment :
  forall s p1 h1 e1 env1 i1 s1 rc1 p2 h2 e2 env2 i2 s2 rc2 p3 h3 e3 env3 i3 s3 rc3,
    lagNum s = 0 -> leftIndexP s = false -> rightIndexP s = false ->
    callInput env1 = Some i1 ->
    F32.gtb (fst (IndexTrigger i1)) F32.half = true ->
    F32.gtb (snd (IndexTrigger i1)) F32.half = false ->
    callInput env2 = Some i2 ->
    F32.gtb (fst (IndexTrigger i2)) F32.half = true ->
    F32.gtb (snd (IndexTrigger i2)) F32.half = true ->
    callInput env3 = Some i3 ->
    F32.gtb (fst (IndexTrigger i3)) F32.half = true ->
    renderScene P s p1 h1 e1 env1 = Some (s1, rc1) ->
    renderScene P s1 p2 h2 e2 env2 = Some (s2, rc2) ->
    renderScene P s2 p3 h3 e3 env3 = Some (s3, rc3) ->
    lagNum s1 = 0 /\ lagNum s2 = 1 /\ lagNum s3 = 0.
Proof.
  intros s p1 h1 e1 env1 i1 s1 rc1 p2 h2 e2 env2 i2 s2 rc2 p3 h3 e3 env3 i3 s3 rc3
         Hlag Hl Hr Hi1 L1 R1 Hi2 L2 R2 Hi3 L3 H1 H2 H3.
  pose proof (renderScene_lag_step _ _ _ _ _ Hi1 H1) as E1.
  pose proof (renderScene_lag_step _ _ _ _ _ Hi2 H2) as E2.
  pose proof (renderScene_lag_step _ _ _ _ _ Hi3 H3) as E3.
  assert (A1 : lagNum s1 = 0 /\ leftIndexP s1 = false /\ rightIndexP s1 = false).
  { unfold input_lagNum in E1. rewrite L1, R1, Hlag, Hl, Hr in E1.
    cbn [negb andb Z.ltb Z.compare] in E1. rewrite !andb_false_r in E1.
    injection E1 as -> -> ->. auto. }
  destruct A1 as (Lag1 & Fl1 & Fr1).
  assert (A2 : lagNum s2 = 1 /\ leftIndexP s2 = false /\ rightIndexP s2 = true).
  { unfold input_lagNum in E2.
    rewrite L2, R2, Lag1, Fl1, Fr1, (F32_gtb_not_leb _ _ R2) in E2.
    cbn [negb andb Z.ltb Z.compare] in E2. rewrite !andb_false_r in E2.
    injection E2 as -> -> ->. auto. }
  destruct A2 as (Lag2 & Fl2 & Fr2).
  split; [exact Lag1|]. split; [exact Lag2|].
  unfold input_lagNum in E3. rewrite L3, Lag2, Fl2, Fr2 in E3.
  cbn [negb andb] in E3. change (0 <? 1) with true in E3. cbv iota in E3.
  rewrite (F32_gtb_not_leb _ _ L3) in E3. cbn [andb] in E3.
  destruct (F32.gtb (snd (IndexTrigger i3)) F32.half);
    pose proof (f_equal (fun t => fst (fst t)) E3) as E; cbn [fst] in E; exact E.
Qed.

End TriggerFacts.

(** ** Which eyes a frame renders *)

Section EyePlanFacts.
Variable P : Platform.

Lemma renderEye_effect fe eye whichEye s0 tr0 st :
  renderEye P fe eye whichEye (s0, tr0) = Some st ->
  let pose := if eye =? 0 then fst (eyePoses fe) else snd (eyePoses fe) in
  exists s1 rc,
    st = (s1, tr0 ++ [rc])
    /\ rc_whichEye rc = whichEye
    /\ rc_projection rc
       = (if eye =? 0 then fst (eyeProjections s0) else snd (eyeProjections s0))
    /\ (if whichEye =? 0 then recordPose (lringBuffer s0) pose
        else Some (lringBuffer s0)) = Some (lringBuffer s1)
    /\ (if whichEye =? 1 then recordPose (rringBuffer s0) pose
        else Some (rringBuffer s0)) = Some (rringBuffer s1)
    /\ a_pressed s1 = a_pressed s0
    /\ eyeProjections s1 = eyeProjections s0.
Proof.
  intros H pose. unfold renderEye in H.
  apply bind_Some in H. destruct H as ([s1 rc] & H1 & H).
  injection H as <-. cbn [fst snd]. exists s1, rc.
  apply renderScene_inv in H1. cbv zeta in H1.
  destruct H1 as (lring & rring & cring & lf & lagFrame & right &
                  Hl & Hr & _ & _ & _ & _ & Hrc & Hs).
  subst s1 rc.
  cbn [rc_whichEye rc_projection lringBuffer rringBuffer a_pressed eyeProjections].
  rewrite pi_a_pressed, pi_eyeProjections. repeat split; assumption.
Qed.

(** X9. A frame whose controller read succeeds renders, according to the
    eye mode [a_pressed] it ends with: in mode 0 the left eye then the right
    eye, each with its own pose and projection; in mode 1 only the left eye;
    in mode 2 only the right eye; in mode 3 both, but the first call, made
    with the left eye's pose and projection, is a call for eye 1, and the
    second, with the right eye's, is a call for eye 0, so that the left
    history records the right eye's pose and the right history the left
    eye's. *)
Theorem frame_eye_plan :
  forall s fe i s' tr,
    0 <= a_pressed s < 4 ->
    frameInput fe = Some i ->
    draw P s fe = Some (s', tr) ->
    let poses := eyePoses fe in
    let projs := eyeProjections s in
    (a_pressed s' = 0 ->
       map rc_whichEye tr = [0; 1]
       /\ map rc_projection tr = [fst projs; snd projs]
       /\ recordPose (lringBuffer s) (fst poses) = Some (lringBuffer s')
       /\ recordPose (rringBuffer s) (snd poses) = Some (rringBuffer s'))
    /\ (a_pressed s' = 1 ->
       map rc_whichEye tr = [0]
       /\ map rc_projection tr = [fst projs]
       /\ recordPose (lringBuffer s) (fst poses) = Some (lringBuffer s')
       /\ rringBuffer s' = rringBuffer s)
    /\ (a_pressed s' = 2 ->
       map rc_whichEye tr = [1]
       /\ map rc_projection tr = [snd projs]
       /\ lringBuffer s' = lringBuffer s
       /\ recordPose (rringBuffer s) (snd poses) = Some (rringBuffer s'))
    /\ (a_pressed s' = 3 ->
       map rc_whichEye tr = [1; 0]
       /\ map rc_projection tr = [fst projs; snd projs]
       /\ recordPose (lringBuffer s) (snd poses) = Some (lringBuffer s')
       /\ recordPose (rringBuffer s) (fst poses) = Some (rringBuffer s')).
Proof.
  intros s fe i s' tr Ha Hi H poses projs. unfold draw in H. rewrite Hi in H.
  set (sa := if pressed i (ovrButton_A P) then _ else s) in H.
  assert (Hsa : lringBuffer sa = lringBuffer s /\ rringBuffer sa = rringBuffer s
                /\ eyeProjections sa = eyeProjections s /\ 0 <= a_pressed sa < 4).
  { subst sa. destruct (pressed i (ovrButton_A P)); [|auto].
    destruct (negb (a_hasPressed s)); [|auto].
    cbn [with_a lringBuffer rringBuffer eyeProjections a_pressed].
    pose proof (Z.rem_bound_pos (a_pressed s + 1) 4). repeat split; lia. }
  destruct Hsa as (Hl & Hr & Hp & Hrange).
  subst poses projs. rewrite <- Hl, <- Hr, <- Hp. clear Hl Hr Hp.
  apply bind_Some in H. destruct H as (st1 & H1 & H).
  apply bind_Some in H. destruct H as (st2 & H2 & H).
  apply bind_Some in H. destruct H as (st3 & H3 & H).
  apply bind_Some in H. destruct H as (st4 & H4 & H).
  assert (Hfin : lringBuffer s' = lringBuffer (fst st4)
                 /\ rringBuffer s' = rringBuffer (fst st4)
                 /\ a_pressed s' = a_pressed (fst st4) /\ tr = snd st4).
  { injection H as <- <-.
    destruct (negb (pressed i (ovrButton_A P)) && a_hasPressed (fst st4)); auto. }
  destruct Hfin as (Fl & Fr & Fa & Ft). rewrite Fl, Fr, Fa, Ft. clear H Fl Fr Fa Ft.
  assert (Hcase : a_pressed sa = 0 \/ a_pressed sa = 1 \/ a_pressed sa = 2
                  \/ a_pressed sa = 3) by lia.
  cbn [fst] in H1.
  destruct Hcase as [E | [E | [E | E]]]; rewrite E in H1; cbn [Z.eqb Pos.eqb] in H1.
  - apply bind_Some in H1. destruct H1 as (sta & Ha1 & Hb1).
    apply renderEye_effect in Ha1. cbv zeta in Ha1.
    destruct Ha1 as (x & rc0 & -> & W0 & P0 & L0 & R0 & Ax & Px).
    apply renderEye_effect in Hb1. cbv zeta in Hb1.
    destruct Hb1 as (y & rc1 & -> & W1 & P1 & L1 & R1 & Ay & Py).
    rewrite Ax in Ay. rewrite E in Ay.
    cbn [fst] in H2. rewrite Ay in H2. cbn [Z.eqb Pos.eqb] in H2. injection H2 as <-.
    cbn [fst] in H3. rewrite Ay in H3. cbn [Z.eqb Pos.eqb] in H3. injection H3 as <-.
    cbn [fst] in H4. rewrite Ay in H4. cbn [Z.eqb Pos.eqb] in H4. injection H4 as <-.
    cbn [fst snd app map Z.eqb Pos.eqb] in *. rewrite Ay, W0, W1, P0, P1, Px.
    injection R0 as R0. injection L1 as L1. rewrite <- L1, R0.
    repeat split; intros; try discriminate; assumption.
  - injection H1 as <-. cbn [fst] in H2. rewrite E in H2. cbn [Z.eqb Pos.eqb] in H2.
    apply renderEye_effect in H2. cbv zeta in H2.
    destruct H2 as (x & rc0 & -> & W0 & P0 & L0 & R0 & Ax & Px).
    rewrite E in Ax.
    cbn [fst] in H3. rewrite Ax in H3. cbn [Z.eqb Pos.eqb] in H3. injection H3 as <-.
    cbn [fst] in H4. rewrite Ax in H4. cbn [Z.eqb Pos.eqb] in H4. injection H4 as <-.
    cbn [fst snd app map Z.eqb Pos.eqb] in *. rewrite Ax, W0, P0.
    injection R0 as R0. rewrite <- R0.
    repeat split; intros; try discriminate; assumption.
  - injection H1 as <-. cbn [fst] in H2. rewrite E in H2.
    cbn [Z.eqb Pos.eqb] in H2. injection H2 as <-.
    cbn [fst] in H3. rewrite E in H3. cbn [Z.eqb Pos.eqb] in H3.
    apply renderEye_effect in H3. cbv zeta in H3.
    destruct H3 as (x & rc0 & -> & W0 & P0 & L0 & R0 & Ax & Px).
    rewrite E in Ax.
    cbn [fst] in H4. rewrite Ax in H4. cbn [Z.eqb Pos.eqb] in H4. injection H4 as <-.
    cbn [fst snd app map Z.eqb Pos.eqb] in *. rewrite Ax, W0, P0.
    injection L0 as L0. rewrite <- L0.
    repeat split; intros; try discriminate; assumption.
  - injection H1 as <-. cbn [fst] in H2. rewrite E in H2.
    cbn [Z.eqb Pos.eqb] in H2. injection H2 as <-.
    cbn [fst] in H3. rewrite E in H3. cbn [Z.eqb Pos.eqb] in H3. injection H3 as <-.
    cbn [fst] in H4. rewrite E in H4. cbn [Z.eqb Pos.eqb] in H4.
    apply bind_Some in H4. destruct H4 as (sta & Ha1 & Hb1).
    apply renderEye_effect in Ha1. cbv zeta in Ha1.
    destruct Ha1 as (x & rc0 & -> & W0 & P0 & L0 & R0 & Ax & Px).
    apply renderEye_effect in Hb1. cbv zeta in Hb1.
    destruct Hb1 as (y & rc1 & -> & W1 & P1 & L1 & R1 & Ay & Py).
    rewrite Ax in Ay. rewrite E in Ay.
    change (1 - 0) with 1 in *. change (1 - 1) with 0 in *.
    cbn [fst snd app map Z.eqb Pos.eqb] in *. rewrite Ay, W0, W1, P0, P1, Px.
    injection L0 as L0. injection R1 as R1. rewrite <- R1, L0.
    repeat split; intros; try discriminate; assumption.
Qed.

End EyePlanFacts.

(** ** A controller read that does not succeed *)

Section FailedReadFacts.
Variable P : Platform.

(** X10. When [draw]'s controller read does not succeed the frame renders
    nothing and changes nothing.  When the read inside [renderScene] does not
    succeed, the call still records the head pose and the hand position and
    still renders, with every setting as it was: modes, lag, delay, cube
    scale, interocular offset, captured rotation and translation, and the
    pressed flags. *)
Theorem failed_controller_read :
  (forall s fe, frameInput fe = None -> draw P s fe = Some (s, []))
  /\ (forall s projection headPose whichEye env s' rc,
        callInput env = None ->
        renderScene P s projection headPose whichEye env = Some (s', rc) ->
        (lagNum s', delayNum s', b_pressed s', x_pressed s')
        = (lagNum s, delayNum s, b_pressed s, x_pressed s)
        /\ (cubeScale s', iodOffset s', HmdToEyePose_x s', rotation s', position s')
           = (cubeScale s, iodOffset s, HmdToEyePose_x s, rotation s, position s)
        /\ (b_hasPressed s', x_hasPressed s', leftIndexP s', rightIndexP s',
            leftThumbP s', rightThumbP s')
           = (b_hasPressed s, x_hasPressed s, leftIndexP s, rightIndexP s,
              leftThumbP s, rightThumbP s)
        /\ recordCursor (cringBuffer s) (handPosition1 env) = Some (cringBuffer s')
        /\ (whichEye = 0 -> recordPose (lringBuffer s) headPose = Some (lringBuffer s'))
        /\ (whichEye = 1 -> recordPose (rringBuffer s) headPose = Some (rringBuffer s'))
        /\ (rc_x_pressed rc, rc_b_pressed rc, rc_cubeScale rc, rc_rot rc, rc_pos rc)
           = (x_pressed s, b_pressed s, cubeScale s, rotation s, position s)).
Proof.
  split.
  - intros s fe Hf. unfold draw. rewrite Hf. reflexivity.
  - intros s projection headPose whichEye env s' rc Hi H.
    apply renderScene_inv in H. cbv zeta in H. rewrite Hi in H.
    destruct H as (lring & rring & cring & lf & lagFrame & right &
                   Hl & Hr & Hc & _ & _ & _ & Hrc & Hs).
    cbn [processInput] in Hrc, Hs. subst s' rc.
    cbn [lagNum delayNum b_pressed x_pressed cubeScale iodOffset HmdToEyePose_x
         rotation position b_hasPressed x_hasPressed leftIndexP rightIndexP
         leftThumbP rightThumbP cringBuffer lringBuffer rringBuffer
         rc_x_pressed rc_b_pressed rc_cubeScale rc_rot rc_pos].
    repeat split; try assumption.
    + intros ->. exact Hl.
    + intros ->. exact Hr.
Qed.

End FailedReadFacts.

(** ** The view modes 0, 1 and 2 *)

Section ViewModeFacts.
Variable P : Platform.



End ViewModeFacts.

(** ** The layout of the render target *)

(** X12. When the eye texture sizes are not negative and the widths add up
    to less than 2^31, the constructor puts the left viewport at the start
    [x0] of the render target and the right viewport exactly at the left
    one's right edge, so the two do not overlap; the render target ends at
    the right viewport's right edge and is as high as the higher of the two
    (and of its starting height); the mirror size is the quarter of it,
    rounded down. *)
Theorem render_target_layout :
  forall x0 y0 w0 h0 w1 h1,
    0 <= x0 -> 0 <= y0 < 2 ^ 32 ->
    0 <= w0 -> 0 <= w1 -> x0 + w0 + w1 < 2 ^ 31 ->
    0 <= h0 < 2 ^ 31 -> 0 <= h1 < 2 ^ 31 ->
    let eye0 := mkSizei w0 h0 in
    let eye1 := mkSizei w1 h1 in
    let result := RiftApp_layout (x0, y0) (eye0, eye1) in
    let viewports := fst (fst result) in
    let renderTargetSize := snd (fst result) in
    let mirrorSize := snd result in
    fst viewports = mkRecti (x0, 0) eye0
    /\ snd viewports = mkRecti (x0 + w0, 0) eye1
    /\ renderTargetSize = (x0 + w0 + w1, Z.max (Z.max y0 h0) h1)
    /\ 4 * fst mirrorSize <= fst renderTargetSize < 4 * fst mirrorSize + 4
    /\ 4 * snd mirrorSize <= snd renderTargetSize < 4 * snd mirrorSize + 4.
Proof.
  intros x0 y0 w0 h0 w1 h1 Hx Hy Hw0 Hw1 Hsum Hh0 Hh1.
  cbv zeta. unfold RiftApp_layout, layout_eye. cbn [fst snd sz_w sz_h].
  assert (U : forall z, 0 <= z < 2 ^ 32 -> u32 z = z)
    by (intros z Hz; unfold u32; apply Z.mod_small; exact Hz).
  assert (I : forall z, 0 <= z < 2 ^ 31 -> i32 z = z).
  { intros z Hz. unfold i32. rewrite Z.mod_small; lia. }
  rewrite (U (x0 + w0)), (U h0), (U h1), (U (x0 + w0 + w1)) by lia.
  rewrite (I x0), (I (x0 + w0)) by lia.
  repeat split; try reflexivity.
  - apply Z.mul_div_le. lia.
  - pose proof (Z.div_mod (x0 + w0 + w1) 4 ltac:(lia)).
    pose proof (Z.mod_pos_bound (x0 + w0 + w1) 4 ltac:(lia)). lia.
  - apply Z.mul_div_le. lia.
  - pose proof (Z.div_mod (Z.max (Z.max y0 h0) h1) 4 ltac:(lia)).
    pose proof (Z.mod_pos_bound (Z.max (Z.max y0 h0) h1) 4 ltac:(lia)). lia.
Qed.

Lemma render_target_layout_witness :
  let result := RiftApp_layout (0, 0) (mkSizei 1344 1600, mkSizei 1344 1600) in
  fst (fst result) = (mkRecti (0, 0) (mkSizei 1344 1600),
                      mkRecti (1344, 0) (mkSizei 1344 1600))
  /\ snd (fst result) = (2688, 1600)
  /\ snd result = (672, 400).
Proof.
  pose proof (@render_target_layout 0 0 1344 1600 1344 1600
                ltac:(lia) ltac:(lia) ltac:(lia) ltac:(lia) ltac:(lia)
                ltac:(lia) ltac:(lia)) as H.
  cbv zeta in *. destruct H as (A & B & C & _).
  split; [|split; [exact C | reflexivity]].
  rewrite (surjective_pairing (fst (fst (RiftApp_layout _ _)))), A, B. reflexivity.
Defined.

(** ** The frame loop *)

Section LoopFacts.
Variable P : Platform.
Variable K : GlfwKeys.

Lemma onKey_fold (evs : list KeyEvent) : forall st,
  let st' := fold_left (fun st ev => RiftApp_onKey K ev st) evs st in
  session_app st' = session_app st
  /\ session_frame st' = session_frame st
  /\ shouldClose st'
     = shouldClose st
       || existsb (fun ev => (GLFW_PRESS K =? ev_action ev)
                             && (ev_key ev =? GLFW_KEY_ESCAPE K)
                             && negb (ev_key ev =? GLFW_KEY_R K)) evs.
Proof.
  induction evs as [|ev evs IH]; intros st; cbv zeta.
  - cbn. rewrite orb_false_r. auto.
  - cbn [fold_left existsb].
    destruct (IH (RiftApp_onKey K ev st)) as (A & B & C). cbv zeta in A, B, C.
    rewrite A, B, C. unfold RiftApp_onKey, GlfwApp_onKey.
    destruct (GLFW_PRESS K =? ev_action ev), (ev_key ev =? GLFW_KEY_R K),
             (ev_key ev =? GLFW_KEY_ESCAPE K), (shouldClose st) eqn:E;
      cbn; rewrite ?E; cbn; auto.
    all: try (repeat split; try reflexivity).
    all: destruct (existsb _ evs); reflexivity.
Qed.

Lemma pollEvents_effect (it : IterEnv) (st : Session) :
  session_app (pollEvents K it st) = session_app st
  /\ session_frame (pollEvents K it st) = u32 (session_frame st + 1)
  /\ shouldClose (pollEvents K it st) = shouldClose st || closing K it.
Proof.
  unfold pollEvents. cbn [session_app session_frame shouldClose].
  match goal with
  | |- context [fold_left _ _ ?st0] =>
      destruct (onKey_fold (polled it) st0) as (A & B & C)
  end.
  cbv zeta in A, B, C. rewrite A, B, C. cbn [session_app session_frame shouldClose].
  unfold closing.
  destruct (shouldClose st), (closeRequested it), (existsb _ (polled it)); auto.
Qed.

Lemma u32_succ (f : Z) (n : nat) :
  u32 (u32 (f + 1) + Z.of_nat n) = u32 (f + Z.of_nat (S n)).
Proof.
  unfold u32. rewrite Zplus_mod_idemp_l. f_equal. lia.
Qed.

(** One iteration of the loop on an open window. *)
Lemma loop_step (st : Session) (it : IterEnv) (rest : list IterEnv) :
  shouldClose st = false ->
  GlfwApp_loop P K st (it :: rest)
  = (r <- draw P (session_app st) (iterFrame it) ;;
     let st2 := {| session_app := fst r;
                   session_frame := u32 (session_frame st + 1);
                   shouldClose := closing K it;
                   recenters := recenters (pollEvents K it st) |} in
     if closing K it then Some (st2, [snd r])
     else r' <- GlfwApp_loop P K st2 rest ;; Some (fst r', snd r :: snd r')).
Proof.
  intros Hc. cbn [GlfwApp_loop]. rewrite Hc.
  destruct (pollEvents_effect it st) as (A & B & C).
  rewrite Hc in C. cbn [orb] in C. rewrite A, B, C.
  destruct (draw P (session_app st) (iterFrame it)) as [r|]; [|reflexivity].
  cbn [bind]. destruct (closing K it); [|reflexivity].
  destruct rest; reflexivity.
Qed.

Lemma u32_small (z : Z) : 0 <= z < 2 ^ 32 -> u32 z = z.
Proof.
  intros Hz. unfold u32. apply Z.mod_small. exact Hz.
Qed.

Lemma u32_range (z : Z) : 0 <= u32 z < 2 ^ 32.
Proof.
  unfold u32. apply Z.mod_pos_bound. lia.
Qed.

(** X13. From a reachable application and an open window, the frame loop
    never runs into an undefined operation; it draws one frame for each
    iteration up to and including the first one during which the window is
    asked to close (by the window system or by a press of ESCAPE; a press of
    R only recenters) and none after it; the frame counter advances by the
    number of frames drawn, modulo 2^32; and the application it ends with is
    reachable. *)
Theorem frame_loop_runs_until_closing :
  forall st its,
    Reachable P (session_app st) ->
    shouldClose st = false ->
    0 <= session_frame st < 2 ^ 32 ->
    exists st' drawn,
      GlfwApp_loop P K st its = Some (st', drawn)
      /\ length drawn = length (until_closing K its)
      /\ session_frame st' = u32 (session_frame st + Z.of_nat (length drawn))
      /\ shouldClose st' = existsb (closing K) its
      /\ Reachable P (session_app st').
Proof.
  intros st its. revert st.
  induction its as [|it rest IH]; intros st HR Hc Hf.
  - exists st, []. cbn [GlfwApp_loop until_closing existsb length Z.of_nat].
    rewrite Z.add_0_r, u32_small by assumption. auto.
  - rewrite loop_step by assumption. cbn [until_closing existsb].
    destruct (@draw_defined P (session_app st) (iterFrame it) HR) as (s1 & tr & Hd).
    rewrite Hd. cbn [bind fst snd]. cbv zeta.
    assert (HR1 : Reachable P s1) by (eapply Reachable_draw; eassumption).
    destruct (closing K it) eqn:Ecl.
    + eexists. exists [tr]. split; [reflexivity|].
      cbn [length session_frame shouldClose session_app orb]. auto.
    + match goal with
      | |- context [GlfwApp_loop P K ?st2 rest] =>
          destruct (IH st2 HR1 eq_refl (u32_range _)) as (st' & drawn & E & L & F & S & R)
      end.
      rewrite E. cbn [bind fst snd]. exists st', (tr :: drawn).
      cbn [length orb]. split; [reflexivity|]. split; [congruence|].
      split; [|split; assumption].
      rewrite F. cbn [session_frame]. apply u32_succ.
Qed.

Lemma draw_a_step s fe s' tr :
  draw P s fe = Some (s', tr) ->
  match frameInput fe with
  | None => a_pressed s' = a_pressed s /\ a_hasPressed s' = a_hasPressed s
  | Some i =>
      a_pressed s' = (if pressed i (ovrButton_A P) && negb (a_hasPressed s)
                      then Z.rem (a_pressed s + 1) 4 else a_pressed s)
      /\ a_hasPressed s' = pressed i (ovrButton_A P)
  end.
Proof.
  intros H. unfold draw in H.
  destruct (frameInput fe) as [i|]; [|injection H as <- _; auto].
  set (sa := if pressed i (ovrButton_A P) then _ else s) in H.
  apply bind_Some in H. destruct H as (st1 & H1 & H).
  apply bind_Some in H. destruct H as (st2 & H2 & H).
  apply bind_Some in H. destruct H as (st3 & H3 & H).
  apply bind_Some in H. destruct H as (st4 & H4 & H).
  set (Q := fun t => a_pressed t = a_pressed sa /\ a_hasPressed t = a_hasPressed sa).
  assert (Qstep : forall t projection headPose whichEye env t' rc,
             Q t -> renderScene P t projection headPose whichEye env = Some (t', rc) ->
             Q t').
  { intros t projection headPose whichEye env t' rc [Qa Qh] Hr.
    destruct (@renderScene_records_cursor P _ _ _ _ _ _ _ Hr) as (_ & A & B).
    split; congruence. }
  assert (Qeye : forall eye whichEye st st',
             Q (fst st) -> renderEye P fe eye whichEye st = Some st' -> Q (fst st')).
  { intros eye whichEye [t tr0] st' Qt Hr. unfold renderEye in Hr.
    apply bind_Some in Hr. destruct Hr as ([t1 rc] & Hr1 & Hr).
    injection Hr as <-. cbn [fst] in *. eapply Qstep; eassumption. }
  assert (Q1 : Q (fst st1)).
  { cbn [fst] in H1. destruct (a_pressed sa =? 0).
    - apply bind_Some in H1. destruct H1 as (st & Ha & Hb).
      eapply Qeye; [|exact Hb]. eapply Qeye; [|exact Ha]. split; reflexivity.
    - injection H1 as <-. split; reflexivity. }
  assert (Q2 : Q (fst st2)).
  { destruct (a_pressed (fst st1) =? 1).
    - eapply Qeye; eassumption.
    - injection H2 as <-. assumption. }
  assert (Q3 : Q (fst st3)).
  { destruct (a_pressed (fst st2) =? 2).
    - eapply Qeye; eassumption.
    - injection H3 as <-. assumption. }
  assert (Q4 : Q (fst st4)).
  { destruct (a_pressed (fst st3) =? 3).
    - apply bind_Some in H4. destruct H4 as (st & Ha & Hb).
      eapply Qeye; [|exact Hb]. eapply Qeye; eassumption.
    - injection H4 as <-. assumption. }
  destruct Q4 as [Qa Qh]. injection H as <- _. rewrite Qh. subst sa.
  destruct (pressed i (ovrButton_A P)), (a_hasPressed s) eqn:Eh;
    cbn [negb andb with_a a_pressed a_hasPressed] in *;
    rewrite ?Eh in *; cbn [negb andb with_a a_pressed a_hasPressed] in *;
    split; congruence.
Qed.

(** X14. Over the frames the loop draws, the eye mode [a_pressed] advances
    by the number of press edges of button A among the controller reads of
    [draw], modulo 4: a held button counts once and a frame whose read does
    not succeed counts for nothing. *)
Theorem eye_mode_counts_press_edges :
  forall st its st' drawn,
    Reachable P (session_app st) ->
    shouldClose st = false ->
    GlfwApp_loop P K st its = Some (st', drawn) ->
    a_pressed (session_app st')
    = (a_pressed (session_app st)
       + Z.of_nat (press_edges (a_hasPressed (session_app st))
                     (frame_button_samples (ovrButton_A P) (until_closing K its))))
      mod 4.
Proof.
  intros st its. revert st.
  induction its as [|it rest IH]; intros st st' drawn HR Hc H.
  - injection H as <- _. cbn. pose proof (Inv_a_pressed (Reachable_Inv HR)).
    rewrite Z.add_0_r, Z.mod_small by lia. reflexivity.
  - rewrite loop_step in H by assumption.
    apply bind_Some in H. destruct H as ([s1 tr] & Hd & H). cbv zeta in H.
    cbn [fst snd] in H.
    assert (HR1 : Reachable P s1) by (eapply Reachable_draw; eassumption).
    pose proof (Inv_a_pressed (Reachable_Inv HR)) as Ra.
    pose proof (draw_a_step _ _ Hd) as St.
    assert (Hshape : forall tail,
               a_pressed s1
               = (a_pressed (session_app st)
                  + Z.of_nat (press_edges (a_hasPressed (session_app st))
                       (match frameInput (iterFrame it) with
                        | Some i => [pressed i (ovrButton_A P)]
                        | None => []
                        end))) mod 4
               /\ (a_pressed s1
                   + Z.of_nat (press_edges (a_hasPressed s1) tail)) mod 4
                  = (a_pressed (session_app st)
                     + Z.of_nat (press_edges (a_hasPressed (session_app st))
                          ((match frameInput (iterFrame it) with
                            | Some i => [pressed i (ovrButton_A P)]
                            | None => []
                            end) ++ tail))) mod 4).
    { intros tail. destruct (frameInput (iterFrame it)) as [i|].
      - destruct St as [Ea Eh]. rewrite Ea, Eh. cbn [app press_edges].
        destruct (pressed i (ovrButton_A P) && negb (a_hasPressed (session_app st))).
        + split.
          * rewrite Z.rem_mod_nonneg by lia. f_equal.
          * rewrite cycle_step by lia. f_equal.
        + split; [|reflexivity]. cbn. rewrite Z.add_0_r, Z.mod_small by lia.
          reflexivity.
      - destruct St as [Ea Eh]. rewrite Ea, Eh. cbn [app press_edges].
        split; [|reflexivity]. cbn. rewrite Z.add_0_r, Z.mod_small by lia.
        reflexivity. }
    unfold frame_button_samples. cbn [until_closing flat_map].
    destruct (closing K it) eqn:Ecl.
    + injection H as <- _. cbn [session_app flat_map]. rewrite app_nil_r.
      apply (proj1 (Hshape [])).
    + apply bind_Some in H. destruct H as ([st3 drawn'] & E & H).
      injection H as <- _. cbn [fst].
      match type of E with
      | GlfwApp_loop _ _ ?st2 _ = _ => rewrite (IH st2 _ _ HR1 eq_refl E)
      end.
      cbn [session_app].
      apply (proj2 (Hshape _)).
Qed.

End LoopFacts.

(** ** The further properties on the sample application *)

Lemma app0_reachable : Reachable Sample.sdk Sample.app0.
Proof. apply Reachable_new. Qed.

Lemma lag_2_reachable : Reachable Sample.sdk Sample.at_lag_2.
Proof.
  apply (@stateAfter_Reachable Sample.sdk Sample.app0
           (Sample.cycles 2 Sample.right_index));
    [apply Reachable_new | vm_compute; reflexivity].
Qed.

Lemma lag2_delay3_reachable : Reachable Sample.sdk Sample.lag2_delay3.
Proof.
  apply (@stateAfter_Reachable Sample.sdk Sample.app0
           (Sample.cycles 2 Sample.right_index ++ Sample.cycles 3 Sample.right_hand
            ++ [Sample.call 0 F32.one Sample.idle]));
    [apply Reachable_new | vm_compute; reflexivity].
Qed.

(** B is pressed and held over three calls, released and pressed again; X is
    pressed once and held; one read does not succeed. *)
Lemma modes_count_press_edges_witness :
  let cs := [Sample.call 0 F32.one (Sample.button 2);
             Sample.call 1 F32.one (Sample.button 2);
             Sample.call 0 F32.two (Sample.button (2 + 256));
             mkCall glm.mat4_1 (Sample.translation F32.two) 1
                    (Sample2.no_read (Sample.hand F32.two));
             Sample.call 0 F32.ten (Sample.button 256);
             Sample.call 1 F32.ten (Sample.button (2 + 256))] in
  exists tr,
    run Sample.sdk Sample.app0 cs = Some tr
    /\ b_pressed (last (map fst tr) Sample.app0) = 2
    /\ x_pressed (last (map fst tr) Sample.app0) = 1.
Proof.
  intros cs.
  destruct (run Sample.sdk Sample.app0 cs) as [tr|] eqn:E;
    [|vm_compute in E; discriminate].
  exists tr. split; [reflexivity|].
  destruct (@modes_count_press_edges Sample.sdk Sample.app0 cs tr
              app0_reachable E) as [A B].
  rewrite A, B. split; reflexivity.
Defined.

Lemma cursor_replays_hand_position_witness :
  let cs := [Sample.call 0 F32.two Sample.idle; Sample.call 1 F32.two Sample.idle;
             Sample.call 0 F32.ten Sample.idle; Sample.call 1 F32.ten Sample.idle;
             Sample.call 0 F32.hundred Sample.idle] in
  exists tr sk rck,
    run Sample.sdk Sample.at_lag_2 cs = Some tr
    /\ nth_error tr 4 = Some (sk, rck)
    /\ lagNum sk = 2
    /\ rc_right rck = Sample.hand F32.ten.
Proof.
  intros cs.
  destruct (run Sample.sdk Sample.at_lag_2 cs) as [tr|] eqn:E;
    [|vm_compute in E; discriminate].
  pose proof E as C. vm_compute in C. injection C as <-.
  match type of E with _ = Some ?x => set (tr := x) in * end.
  destruct (nth_error tr 4) as [[sk rck]|] eqn:N; [|vm_compute in N; discriminate].
  pose proof N as C. vm_compute in C. injection C as <- <-.
  match type of N with _ = Some (?x, ?y) => set (sk := x) in *; set (rck := y) in * end.
  exists tr, sk, rck. split; [reflexivity|]. split; [exact N|]. split; [reflexivity|].
  destruct (@cursor_replays_hand_position Sample.sdk Sample.at_lag_2 cs tr 4%nat sk rck
              lag_2_reachable E N) as (c & Hc & Hr).
  - vm_compute. lia.
  - rewrite Hr. vm_compute in Hc. injection Hc as <-. reflexivity.
Defined.

Lemma view_replays_head_pose_witness :
  let cs := [Sample.call 0 F32.two Sample.idle; Sample.call 1 F32.two Sample.idle;
             Sample.call 0 F32.ten Sample.idle; Sample.call 1 F32.ten Sample.idle;
             Sample.call 0 F32.hundred Sample.idle] in
  exists tr sk rck,
    run Sample.sdk Sample.at_lag_2 cs = Some tr
    /\ nth_error tr 4 = Some (sk, rck)
    /\ lagNum sk = 2
    /\ rc_view rck = inverse Sample.sdk (Sample.translation F32.two).
Proof.
  intros cs.
  destruct (run Sample.sdk Sample.at_lag_2 cs) as [tr|] eqn:E;
    [|vm_compute in E; discriminate].
  pose proof E as C. vm_compute in C. injection C as <-.
  match type of E with _ = Some ?x => set (tr := x) in * end.
  destruct (nth_error tr 4) as [[sk rck]|] eqn:N; [|vm_compute in N; discriminate].
  pose proof N as C. vm_compute in C. injection C as <- <-.
  match type of N with _ = Some (?x, ?y) => set (sk := x) in *; set (rck := y) in * end.
  exists tr, sk, rck. split; [reflexivity|]. split; [exact N|]. split; [reflexivity|].
  destruct (@view_replays_head_pose Sample.sdk Sample.at_lag_2 cs tr 4%nat sk rck 0
              lag_2_reachable E N) as (p & Hp & Hv).
  - left. reflexivity.
  - reflexivity.
  - reflexivity.
  - vm_compute. lia.
  - rewrite Hv. vm_compute in Hp. injection Hp as <-. reflexivity.
Defined.

(** Delay 3, five frames of both eyes: the fifth call for eye 0 (number 4,
    the second of the second block) renders the head pose of the fourth. *)
Lemma render_delay_shows_first_pose_of_block_witness :
  let cs := [Sample.call 0 F32.one Sample.idle; Sample.call 1 F32.one Sample.idle;
             Sample.call 0 F32.two Sample.idle; Sample.call 1 F32.two Sample.idle;
             Sample.call 0 F32.ten Sample.idle; Sample.call 1 F32.ten Sample.idle;
             Sample.call 0 F32.hundred Sample.idle;
             Sample.call 1 F32.hundred Sample.idle;
             Sample.call 0 F32.half Sample.idle; Sample.call 1 F32.half Sample.idle] in
  exists tr,
    run Sample.sdk Sample.lag2_delay3 cs = Some tr
    /\ nth_error (left_views tr) 4
       = Some (inverse Sample.sdk (Sample.translation F32.hundred)).
Proof.
  intros cs.
  destruct (run Sample.sdk Sample.lag2_delay3 cs) as [tr|] eqn:E;
    [|vm_compute in E; discriminate].
  exists tr. split; [reflexivity|].
  apply (@render_delay_shows_first_pose_of_block Sample.sdk 3 Sample.lag2_delay3 cs tr
           1%nat 1%nat).
  - lia.
  - reflexivity.
  - exact E.
  - revert E. vm_compute. intros E. injection E as <-. reflexivity.
  - vm_compute. lia.
  - vm_compute. lia.
Defined.

(** The left hand trigger lowers the delay from 3 to 2 while the left
    counter is at 2: the call for eye 0, given the head at 100, renders the
    pose the call for the right eye left in [renderFrame], the head at 10. *)
Lemma lowered_delay_renders_previous_frame_witness :
  exists s' rc,
    renderScene Sample.sdk Sample2.before_lowering glm.mat4_1
      (Sample.translation F32.hundred) 0
      (Sample.reads (Sample.hand F32.hundred) Sample.left_hand) = Some (s', rc)
    /\ delayNum s' = 2
    /\ rc_view rc = inverse Sample.sdk (Sample.translation F32.ten)
    /\ ldelayRender s' = 0.
Proof.
  destruct (renderScene Sample.sdk Sample2.before_lowering glm.mat4_1
              (Sample.translation F32.hundred) 0
              (Sample.reads (Sample.hand F32.hundred) Sample.left_hand))
    as [[s' rc]|] eqn:E; [|vm_compute in E; discriminate].
  pose proof E as C. vm_compute in C. injection C as <- <-.
  match type of E with _ = Some (?x, ?y) => set (s' := x) in *; set (rc := y) in * end.
  exists s', rc. split; [reflexivity|]. split; [reflexivity|].
  destruct (@lowered_delay_renders_previous_frame Sample.sdk Sample2.before_lowering
              glm.mat4_1 (Sample.translation F32.hundred)
              (Sample.reads (Sample.hand F32.hundred) Sample.left_hand) s' rc E)
    as (A & _ & _ & D).
  - vm_compute. split; [reflexivity | discriminate].
  - split; [|exact D]. rewrite A. reflexivity.
Defined.

Lemma eye_offsets_are_opposite_witness :
  exists s' rc,
    renderScene Sample.sdk Sample.app0 glm.mat4_1 (Sample.translation F32.one) 0
      (Sample.reads (Sample.hand F32.one) (Sample.right_stick F32.one)) = Some (s', rc)
    /\ fst (HmdToEyePose_x s') = F32.opp (snd (HmdToEyePose_x s'))
    /\ iod s' = iod Sample.app0.
Proof.
  destruct (renderScene Sample.sdk Sample.app0 glm.mat4_1 (Sample.translation F32.one) 0
              (Sample.reads (Sample.hand F32.one) (Sample.right_stick F32.one)))
    as [[s' rc]|] eqn:E; [|vm_compute in E; discriminate].
  exists s', rc. split; [reflexivity|].
  destruct (@eye_offsets_are_opposite Sample.sdk Sample.app0 glm.mat4_1
              (Sample.translation F32.one) 0
              (Sample.reads (Sample.hand F32.one) (Sample.right_stick F32.one))
              (Sample.right_stick F32.one) s' rc eq_refl (or_introl eq_refl) E)
    as (A & _ & C & _).
  split; assumption.
Defined.

(** The left thumbstick held fully to the right for 15 calls: the scale
    stops at 1. *)
Lemma cubeScale_stays_clamped_witness :
  let cs := repeat (Sample.call 0 F32.one (Sample2.left_stick F32.one)) 15 in
  exists s,
    stateAfter Sample.sdk Sample.app0 cs = Some s
    /\ cubeScale s = F32.one
    /\ cubeScale_bounded s.
Proof.
  intros cs.
  destruct (stateAfter Sample.sdk Sample.app0 cs) as [s|] eqn:E;
    [|vm_compute in E; discriminate].
  exists s. split; [reflexivity|]. split.
  - revert E. vm_compute. intros E. injection E as <-. reflexivity.
  - apply (@cubeScale_stays_clamped Sample.sdk s).
    eapply stateAfter_Reachable; [apply Reachable_new | exact E].
Defined.

(** The left index trigger is held from lag 0 on; the right one joins it at
    the second call. *)
Lemma held_left_trigger_takes_back_increment_witness :
  exists s1 rc1 s2 rc2 s3 rc3,
    renderScene Sample.sdk Sample.app0 glm.mat4_1 (Sample.translation F32.one) 0
      (Sample.reads (Sample.hand F32.one) Sample.left_index) = Some (s1, rc1)
    /\ renderScene Sample.sdk s1 glm.mat4_1 (Sample.translation F32.one) 1
         (Sample.reads (Sample.hand F32.one) Sample2.both_index) = Some (s2, rc2)
    /\ renderScene Sample.sdk s2 glm.mat4_1 (Sample.translation F32.two) 0
         (Sample.reads (Sample.hand F32.two) Sample2.both_index) = Some (s3, rc3)
    /\ lagNum s1 = 0 /\ lagNum s2 = 1 /\ lagNum s3 = 0.
Proof.
  destruct (renderScene Sample.sdk Sample.app0 glm.mat4_1 (Sample.translation F32.one) 0
              (Sample.reads (Sample.hand F32.one) Sample.left_index))
    as [[s1 rc1]|] eqn:E1; [|vm_compute in E1; discriminate].
  destruct (renderScene Sample.sdk s1 glm.mat4_1 (Sample.translation F32.one) 1
              (Sample.reads (Sample.hand F32.one) Sample2.both_index))
    as [[s2 rc2]|] eqn:E2;
    [|revert E1 E2; vm_compute; intros E1; injection E1 as <- <-; discriminate].
  destruct (renderScene Sample.sdk s2 glm.mat4_1 (Sample.translation F32.two) 0
              (Sample.reads (Sample.hand F32.two) Sample2.both_index))
    as [[s3 rc3]|] eqn:E3;
    [|revert E1 E2 E3; vm_compute; intros E1; injection E1 as <- <-;
      intros E2; injection E2 as <- <-; discriminate].
  exists s1, rc1, s2, rc2, s3, rc3.
  split; [reflexivity|]. split; [exact E2|]. split; [exact E3|].
  apply (@held_left_trigger_takes_back_increment Sample.sdk Sample.app0
           glm.mat4_1 (Sample.translation F32.one) 0
           (Sample.reads (Sample.hand F32.one) Sample.left_index) Sample.left_index s1 rc1
           glm.mat4_1 (Sample.translation F32.one) 1
           (Sample.reads (Sample.hand F32.one) Sample2.both_index) Sample2.both_index
           s2 rc2
           glm.mat4_1 (Sample.translation F32.two) 0
           (Sample.reads (Sample.hand F32.two) Sample2.both_index) Sample2.both_index
           s3 rc3);
    try reflexivity; assumption.
Defined.

(** A frame in eye mode 3, the left eye at 1 and the right eye at 2: the
    left history takes the right eye's pose. *)
Lemma frame_eye_plan_witness :
  exists s' tr,
    draw Sample.sdk Sample2.in_eye_mode_3
         (Sample2.frame F32.one F32.two (Some Sample.idle)) = Some (s', tr)
    /\ a_pressed s' = 3
    /\ map rc_whichEye tr = [1; 0]
    /\ recordPose (lringBuffer Sample2.in_eye_mode_3) (Sample.translation F32.two)
       = Some (lringBuffer s')
    /\ recordPose (rringBuffer Sample2.in_eye_mode_3) (Sample.translation F32.one)
       = Some (rringBuffer s').
Proof.
  destruct (draw Sample.sdk Sample2.in_eye_mode_3
              (Sample2.frame F32.one F32.two (Some Sample.idle)))
    as [[s' tr]|] eqn:E; [|vm_compute in E; discriminate].
  exists s', tr. split; [reflexivity|].
  assert (A : a_pressed s' = 3).
  { revert E. vm_compute. intros E. injection E as <- _. reflexivity. }
  split; [exact A|].
  destruct (@frame_eye_plan Sample.sdk Sample2.in_eye_mode_3
              (Sample2.frame F32.one F32.two (Some Sample.idle)) Sample.idle s' tr)
    as (_ & _ & _ & M3).
  - vm_compute. split; [discriminate | reflexivity].
  - reflexivity.
  - exact E.
  - destruct (M3 A) as (W & _ & L & R). repeat split; assumption.
Defined.


(** Five iterations: R is pressed in the second, ESCAPE in the third; the
    last two are not run. *)
Lemma frame_loop_runs_until_closing_witness :
  let its := [Sample2.iteration [] (Some Sample.idle);
              Sample2.iteration [Sample2.press 82] (Some (Sample.button 1));
              Sample2.iteration [Sample2.release 82; Sample2.press 256] None;
              Sample2.iteration [] (Some Sample.idle);
              Sample2.iteration [Sample2.press 82] (Some Sample.idle)] in
  exists st' drawn,
    GlfwApp_loop Sample.sdk Sample2.keys Sample2.session0 its = Some (st', drawn)
    /\ length drawn = 3%nat
    /\ session_frame st' = 3
    /\ shouldClose st' = true
    /\ Reachable Sample.sdk (session_app st').
Proof.
  intros its.
  destruct (@frame_loop_runs_until_closing Sample.sdk Sample2.keys Sample2.session0 its)
    as (st' & drawn & E & L & F & S & R).
  - exact app0_reachable.
  - reflexivity.
  - vm_compute. split; [discriminate | reflexivity].
  - exists st', drawn. split; [exact E|].
    assert (L3 : length drawn = 3%nat) by (rewrite L; reflexivity).
    split; [exact L3|]. split; [rewrite F, L3; reflexivity|].
    split; [rewrite S; reflexivity | exact R].
Defined.

(** Button A is pressed, held over a frame whose read fails, released and
    pressed again; the press after the window is closed is not counted. *)
Lemma eye_mode_counts_press_edges_witness :
  let its := [Sample2.iteration [] (Some (Sample.button 1));
              Sample2.iteration [] None;
              Sample2.iteration [] (Some (Sample.button 1));
              Sample2.iteration [] (Some Sample.idle);
              Sample2.iteration [Sample2.press 256] (Some (Sample.button 1));
              Sample2.iteration [] (Some Sample.idle);
              Sample2.iteration [] (Some (Sample.button 1))] in
  exists st' drawn,
    GlfwApp_loop Sample.sdk Sample2.keys Sample2.session0 its = Some (st', drawn)
    /\ a_pressed (session_app st') = 2.
Proof.
  intros its.
  destruct (GlfwApp_loop Sample.sdk Sample2.keys Sample2.session0 its)
    as [[st' drawn]|] eqn:E; [|vm_compute in E; discriminate].
  exists st', drawn. split; [reflexivity|].
  rewrite (@eye_mode_counts_press_edges Sample.sdk Sample2.keys Sample2.session0 its
             st' drawn app0_reachable eq_refl E).
  reflexivity.
Defined.

(** At lag 2, a call whose controller read fails still records, and keeps
    the lag. *)
Lemma failed_controller_read_witness :
  exists s' rc,
    renderScene Sample.sdk Sample.at_lag_2 glm.mat4_1 (Sample.translation F32.ten) 0
      (Sample2.no_read (Sample.hand F32.ten)) = Some (s', rc)
    /\ lagNum s' = 2
    /\ recordPose (lringBuffer Sample.at_lag_2) (Sample.translation F32.ten)
       = Some (lringBuffer s')
    /\ draw Sample.sdk Sample.at_lag_2 (Sample2.frame F32.one F32.two None)
       = Some (Sample.at_lag_2, []).
Proof.
  destruct (renderScene Sample.sdk Sample.at_lag_2 glm.mat4_1 (Sample.translation F32.ten)
              0 (Sample2.no_read (Sample.hand F32.ten)))
    as [[s' rc]|] eqn:E; [|vm_compute in E; discriminate].
  exists s', rc. split; [reflexivity|].
  destruct (failed_controller_read Sample.sdk) as [D R].
  destruct (R Sample.at_lag_2 glm.mat4_1 (Sample.translation F32.ten) 0
              (Sample2.no_read (Sample.hand F32.ten)) s' rc eq_refl E)
    as (A & _ & _ & _ & L & _).
  split; [exact (f_equal (fun q => fst (fst (fst q))) A)|].
  split; [exact (L eq_refl)|].
  apply D. reflexivity.
Defined.

(** ** What a frame draws *)

Section DrawFacts.
Variable P : Platform.
Variable K : GlfwKeys.

Lemma renderScene_call_in_range s projection headPose whichEye env s' rc :
  Inv s -> whichEye = 0 \/ whichEye = 1 ->
  renderScene P s projection headPose whichEye env = Some (s', rc) ->
  in_range rc.
Proof.
  intros HI He H.
  pose proof (Inv_x_pressed (@renderScene_Inv P _ _ _ _ _ _ _ HI H)) as Hx.
  apply renderScene_inv in H. cbv zeta in H.
  destruct H as (lring & rring & cring & lf & lagFrame & right &
                 _ & _ & _ & _ & _ & _ & Hrc & Hs).
  subst s' rc. cbn [x_pressed] in Hx. split; cbn [rc_whichEye rc_x_pressed]; assumption.
Qed.

Lemma renderEye_in_range fe eye whichEye st st' :
  renderEye P fe eye whichEye st = Some st' ->
  Inv (fst st) -> Forall in_range (snd st) -> whichEye = 0 \/ whichEye = 1 ->
  Inv (fst st') /\ Forall in_range (snd st').
Proof.
  destruct st as [s tr]. cbn [fst snd]. intros H HI HF He.
  unfold renderEye in H. apply bind_Some in H. destruct H as ([s1 rc] & Hr & H).
  injection H as <-. cbn [fst snd]. split.
  - exact (@renderScene_Inv P _ _ _ _ _ _ _ HI Hr).
  - apply Forall_app. split; [assumption|]. constructor; [|constructor].
    exact (@renderScene_call_in_range _ _ _ _ _ _ _ HI He Hr).
Qed.

Lemma draw_in_range s fe s' tr :
  Inv s -> draw P s fe = Some (s', tr) -> Forall in_range tr.
Proof.
  intros HI H. unfold draw in H.
  destruct (frameInput fe) as [i|]; [|injection H as _ <-; constructor].
  set (sa := if pressed i (ovrButton_A P) then _ else s) in H.
  assert (Ia : Inv sa).
  { subst sa. destruct (pressed i (ovrButton_A P)); [|assumption].
    destruct (negb (a_hasPressed s)); [|assumption].
    apply Inv_with_a; [assumption|].
    pose proof (Z.rem_bound_pos (a_pressed s + 1) 4).
    pose proof (Inv_a_pressed HI). lia. }
  apply bind_Some in H. destruct H as (st1 & H1 & H).
  apply bind_Some in H. destruct H as (st2 & H2 & H).
  apply bind_Some in H. destruct H as (st3 & H3 & H).
  apply bind_Some in H. destruct H as (st4 & H4 & H).
  assert (G1 : Inv (fst st1) /\ Forall in_range (snd st1)).
  { destruct (a_pressed sa =? 0).
    - apply bind_Some in H1. destruct H1 as (st & Ha & Hb).
      assert (G0 : Inv (fst st) /\ Forall in_range (snd st))
        by (eapply renderEye_in_range; [exact Ha | exact Ia | constructor | left; reflexivity]).
      destruct G0 as [I0 F0].
      eapply renderEye_in_range; [exact Hb | exact I0 | exact F0 | right; reflexivity].
    - injection H1 as <-. split; [exact Ia | constructor]. }
  destruct G1 as [I1 F1].
  assert (G2 : Inv (fst st2) /\ Forall in_range (snd st2)).
  { destruct (a_pressed (fst st1) =? 1).
    - eapply renderEye_in_range; [exact H2 | exact I1 | exact F1 | left; reflexivity].
    - injection H2 as <-. split; assumption. }
  destruct G2 as [I2 F2].
  assert (G3 : Inv (fst st3) /\ Forall in_range (snd st3)).
  { destruct (a_pressed (fst st2) =? 2).
    - eapply renderEye_in_range; [exact H3 | exact I2 | exact F2 | right; reflexivity].
    - injection H3 as <-. split; assumption. }
  destruct G3 as [I3 F3].
  assert (G4 : Inv (fst st4) /\ Forall in_range (snd st4)).
  { destruct (a_pressed (fst st3) =? 3).
    - apply bind_Some in H4. destruct H4 as (st & Ha & Hb).
      assert (G0 : Inv (fst st) /\ Forall in_range (snd st))
        by (eapply renderEye_in_range; [exact Ha | exact I3 | exact F3 | right; reflexivity]).
      destruct G0 as [I0 F0].
      eapply renderEye_in_range; [exact Hb | exact I0 | exact F0 | left; reflexivity].
    - injection H4 as <-. split; assumption. }
  injection H as _ <-. exact (proj2 G4).
Qed.

Lemma cubes_of_eye (whichEye : Z) (n : nat) :
  whichEye = 0 \/ whichEye = 1 ->
  flat_map (fun i => (if whichEye =? 0 then [draw_cube i] else [])
                     ++ (if whichEye =? 1 then [draw_cube i] else []))
           (seq 0 n)
  = map draw_cube (seq 0 n).
Proof.
  intros He. generalize 0%nat. induction n as [|n IH]; intros k; [reflexivity|].
  cbn [seq flat_map map]. rewrite IH. destruct He as [-> | ->]; reflexivity.
Qed.

(** X15. Every render call of every frame the loop draws from a reachable
    application draws the cursor sphere first and exactly one skybox last,
    with the cubes in between in content mode 0 only; the skybox is the
    right eye's exactly when the call is one for eye 1 and the content mode
    is not 2. *)
Theorem frames_draw_one_skybox_per_call :
  forall st its st' drawn (instanceCount : nat),
    Reachable P (session_app st) ->
    GlfwApp_loop P K st its = Some (st', drawn) ->
    Forall (Forall (fun rc =>
              draws_of instanceCount rc
              = draw_sphere
                :: (if rc_x_pressed rc =? 0
                    then map draw_cube (seq 0 instanceCount) else [])
                ++ [if (rc_whichEye rc =? 1) && negb (rc_x_pressed rc =? 2)
                    then draw_skybox_right else draw_skybox]))
           drawn.
Proof.
  intros st its st' drawn n. revert st st' drawn.
  induction its as [|it rest IH]; intros st st' drawn HR H.
  - injection H as _ <-. constructor.
  - destruct (shouldClose st) eqn:Hc.
    + cbn [GlfwApp_loop] in H. rewrite Hc in H. injection H as _ <-. constructor.
    + rewrite loop_step in H by assumption.
      apply bind_Some in H. destruct H as ([s1 tr] & Hd & H). cbv zeta in H.
      cbn [fst snd] in H.
      assert (HR1 : Reachable P s1) by (eapply Reachable_draw; eassumption).
      assert (Htr : Forall (fun rc =>
                 draws_of n rc
                 = draw_sphere
                   :: (if rc_x_pressed rc =? 0 then map draw_cube (seq 0 n) else [])
                   ++ [if (rc_whichEye rc =? 1) && negb (rc_x_pressed rc =? 2)
                       then draw_skybox_right else draw_skybox]) tr).
      { refine (Forall_impl _ _ (@draw_in_range _ _ _ _ (Reachable_Inv HR) Hd)).
        intros rc [He Hx]. unfold draws_of, Scene_render_draws.
        rewrite (cubes_of_eye n He).
        assert (Hcases : rc_x_pressed rc = 0 \/ rc_x_pressed rc = 1
                         \/ rc_x_pressed rc = 2) by lia.
        destruct He as [-> | ->], Hcases as [-> | [-> | ->]]; cbn [Z.eqb Pos.eqb];
          cbn [andb negb app]; rewrite ?app_nil_r; reflexivity. }
      destruct (closing K it).
      * injection H as _ <-. constructor; [exact Htr | constructor].
      * apply bind_Some in H. destruct H as ([st3 drawn'] & E & H).
        injection H as _ <-. cbn [snd]. constructor; [exact Htr|].
        match type of E with
        | GlfwApp_loop _ _ ?st2 _ = _ => exact (IH st2 _ _ HR1 E)
        end.
Qed.

End DrawFacts.

(** Six frames bring the application into eye mode 3; in the seventh, the
    first call sees X pressed: it is a call for eye 1 in content mode 1 and
    draws the right eye's skybox, the second the left eye's. *)
Lemma frames_draw_one_skybox_per_call_witness :
  let its := [Sample2.iteration [] (Some (Sample.button 1));
              Sample2.iteration [] (Some Sample.idle);
              Sample2.iteration [] (Some (Sample.button 1));
              Sample2.iteration [] (Some Sample.idle);
              Sample2.iteration [] (Some (Sample.button 1));
              Sample2.iteration [] (Some Sample.idle);
              mkIterEnv [] false
                (mkFrameEnv (Sample.translation F32.one, Sample.translation F32.two)
                   (Some Sample.idle)
                   (Sample.reads (Sample.hand F32.one) (Sample.button 256),
                    Sample.reads (Sample.hand F32.two) Sample.idle))] in
  exists st' drawn,
    GlfwApp_loop Sample.sdk Sample2.keys Sample2.session0 its = Some (st', drawn)
    /\ nth 0 (map (map (draws_of 2)) drawn) []
       = [[draw_sphere; draw_cube 0; draw_cube 1; draw_skybox]]
    /\ nth 6 (map (map (draws_of 2)) drawn) []
       = [[draw_sphere; draw_skybox_right]; [draw_sphere; draw_skybox]].
Proof.
  intros its.
  destruct (GlfwApp_loop Sample.sdk Sample2.keys Sample2.session0 its)
    as [[st' drawn]|] eqn:E; [|vm_compute in E; discriminate].
  exists st', drawn. split; [reflexivity|].
  pose proof (@frames_draw_one_skybox_per_call Sample.sdk Sample2.keys Sample2.session0
                its st' drawn 2%nat app0_reachable E) as H.
  assert (M : map (map (draws_of 2)) drawn
              = map (map (fun rc =>
                  draw_sphere
                  :: (if rc_x_pressed rc =? 0 then map draw_cube (seq 0 2) else [])
                  ++ [if (rc_whichEye rc =? 1) && negb (rc_x_pressed rc =? 2)
                      then draw_skybox_right else draw_skybox])) drawn).
  { clear E. induction H as [|tr drawn Htr _ IH]; [reflexivity|].
    cbn [map]. rewrite IH. f_equal.
    induction Htr as [|rc tr Hrc _ IHtr]; [reflexivity|].
    cbn [map]. rewrite Hrc, IHtr. reflexivity. }
  rewrite M. revert E. vm_compute. intros E. injection E as _ <-.
  split; reflexivity.
Defined.
